(** * Topology runner: fingerprint-driven reconciliation of ingested metadata

    Shallow embedding of [TopologyRunnerMixin]
    (ingestion/src/metadata/ingestion/api/topology_runner.py).

    The mixin is a set of Python generators that mutate [self.context] and
    [self.cache], call the remote store through [self.metadata] and [yield]
    requests to the sink.  Here every method is a computation in a small
    state-and-exception monad; the state carries the run context, the
    fingerprint cache and one chronological trace of the observable effects
    (yields, remote calls, log records, fingerprint computations and cache
    reads).  The consumer is taken to drain the generators, so that the
    trace lists the effects in the order in which they happen; what was
    yielded before an exception stays in the trace.

    The module [Unitycatalog] embeds the methods of [UnitycatalogSource]
    (ingestion/src/metadata/ingestion/source/database/unitycatalog/metadata.py)
    that the runner calls as producers, stage processors and hooks. *)

From Stdlib Require Import ZArith.
From stdpp Require Import base option list strings gmap.

(** ** Data model *)

(** Field values of pydantic models, as far as the runner looks at them. *)
Inductive Value :=
  | VNone
  | VStr (s : string)
  | VInt (z : Z).

#[global] Instance Value_eq_dec : EqDecision Value.
Proof. solve_decision. Defined.

(** Python truthiness ([if v:]). *)
Definition truthy (v : Value) : bool :=
  match v with
  | VNone => false
  | VStr s => bool_decide (s ≠ "")
  | VInt z => bool_decide (z ≠ 0%Z)
  end.

(** The [__dict__] of a pydantic model: declared field name to value.  A
    declared field that is unset is present with value [VNone]; an attribute
    that the class does not declare is absent. *)
Abbreviation Obj := (gmap string Value).

(** Entity classes ([stage.type_]).  The three classes the runner tests for
    by identity are constructors of their own. *)
Inductive EntityType :=
  | Database
  | DatabaseSchema
  | StoredProcedure
  | EntityClass (cls : string).

#[global] Instance EntityType_eq_dec : EqDecision EntityType.
Proof. solve_decision. Defined.

#[global] Instance EntityType_countable : Countable EntityType.
Proof.
  refine (inj_countable'
    (fun t => match t with
              | Database => inl 0
              | DatabaseSchema => inl 1
              | StoredProcedure => inl 2
              | EntityClass c => inr c
              end)
    (fun x => match x with
              | inl 0 => Database
              | inl 1 => DatabaseSchema
              | inl _ => StoredProcedure
              | inr c => EntityClass c
              end) _).
  by intros [].
Defined.

(** The right-hand side of an [Either], by the class [singledispatchmethod]
    dispatches on.  [RModel] is any [BaseModel] without a registered variant
    (the create requests); [RPatch] is [PatchRequest]. *)
Inductive Right :=
  | RModel (o : Obj)
  | RAddLineage (fromEntity toEntity : Obj)
  | RTagAndClassification (o : Obj)
  | RCustomProperties (o : Obj)
  | RPatch (original_entity new_entity : Obj).

Record StackTraceError := {
  ste_name : string;
  ste_error : string;
  ste_stackTrace : string;
}.

Record Either := {
  left : option StackTraceError;
  right : option Right;
}.

(** Values held in the run context: a name ([update_context_name]) or a
    whole request ([update_context_value]). *)
Inductive CtxValue :=
  | CName (s : string)
  | CRaw (r : Right).

Abbreviation TopologyContext := (gmap string CtxValue).

Record NodeStage := {
  type_ : EntityType;
  processor : string;
  context : option string;
  nullable : bool;
  must_return : bool;
  overwrite : bool;
  cache_entities : bool;
  use_cache : bool;
  clear_context : bool;
  consumer : list string;
}.

Record TopologyNode := {
  producer : string;
  stages : list NodeStage;
  children : option (list string);
  post_process : option (list string);
}.

Inductive Exn :=
  | ValueError (msg : string)
  | AttributeError (attr : string)
  | KeyError (key : option string)
  | MissingExpectedEntityAckException (ty : EntityType) (fqn : string)
  | RecursionError
  | OtherException (msg : string).

(** [except ValueError] *)
Definition is_ValueError (e : Exn) : bool :=
  match e with ValueError _ => true | _ => false end.

(** The records the runner passes to [logger]. *)
Inductive LogRecord :=
  | DebugProcessingNode (node : TopologyNode)
  | DebugProcessingStage (stage : NodeStage)
  | DebugTraceback (exc : Exn)
  | WarningStageValueError (stage : NodeStage) (err : Exn)
  | DebugPostProcessingNode (node : TopologyNode)
  | WarningPostProcess (process : string) (exc : Exn)
  | DebugNoChanges (ty : EntityType) (fqn : string).

(** Observable effects, in the order they happen. *)
Inductive Event :=
  | EvYield (entity_request : Either)
  | EvGetByName (ty : EntityType) (fqn : string)
  | EvListAll (ty : EntityType) (params : string * string)
  | EvSourceHash (create_request : Obj)
  | EvCacheGet (ty : EntityType) (fqn : string)
  | EvLog (r : LogRecord).

Definition is_yield (ev : Event) : bool :=
  match ev with EvYield _ => true | _ => false end.

Definition is_remote_call (ev : Event) : bool :=
  match ev with EvGetByName _ _ | EvListAll _ _ => true | _ => false end.

(** A finite generator method of a collaborator.  When the consumer asks
    for the next item the body of the generator resumes, reads the run
    context as it is then, may write it ([self.context.slot = value], where
    the value may be [None]) and yields, raises or ends. *)
Inductive Generator (A : Type) :=
  | GenStop
  | GenRaise (e : Exn)
  | GenYield (a : A) (k : TopologyContext → Generator A)
  | GenSet (slot : string) (value : option CtxValue) (g : Generator A).
Arguments GenStop {A}.
Arguments GenRaise {A} e.
Arguments GenYield {A} a k.
Arguments GenSet {A} slot value g.

(** A generator that only reads the run context. *)
Inductive Gen (A : Type) :=
  | GStop
  | GRaise (e : Exn)
  | GYield (a : A) (k : TopologyContext → Gen A).
Arguments GStop {A}.
Arguments GRaise {A} e.
Arguments GYield {A} a k.

Fixpoint reading {A} (g : Gen A) : Generator A :=
  match g with
  | GStop => GenStop
  | GRaise e => GenRaise e
  | GYield a k => GenYield a (fun ctx => reading (k ctx))
  end.

Fixpoint gen_of_list {A} (l : list A) : Gen A :=
  match l with
  | [] => GStop
  | a :: l' => GYield a (fun _ => gen_of_list l')
  end.

(** What a call gives back: a value, or the exception it raised. *)
Inductive Res (A : Type) :=
  | Ok (a : A)
  | Raise (e : Exn).
Arguments Ok {A} a.
Arguments Raise {A} e.

(** ** Collaborators

    Everything the mixin receives from outside this file: the helpers it
    imports, the remote store client, the run context's [fqn_from_stage],
    the methods it resolves by name with [getattr(self, ...)] and the
    topology.  Every call may raise.  The remote store answers as a function
    of the history of effects so far, so that it may change between two
    calls (a write that becomes visible only after some polls); a listing
    gives the entities it lists and the exception that ends it, if one
    does.  Producers, stage processors and hooks are generator methods. *)
Module Collab.

Record t := {
  generate_source_hash : Obj → Res string;
  model_str : Value → string;
  (** [self.context.fqn_from_stage(stage=stage, entity_name=...)]; the name
      is [None] when it is read from a slot that is not set *)
  fqn_from_stage :
    TopologyContext → NodeStage → option CtxValue → Res string;
  metadata_get_by_name :
    list Event → EntityType → string → Res (option Obj);
  metadata_list_all_entities :
    list Event → EntityType → string * string → list Obj * option Exn;
  (** [self.metadata.config], and in it [forceEntityOverwriting] *)
  metadata_config : option (option bool);
  producers : string → option (TopologyContext → option (Generator Value));
  processors :
    string →
    option (Value → TopologyContext → option (Generator (option Either)));
  post_processors : string → option (TopologyContext → Generator Either);
  (** [get_topology_node(name, self.topology)] *)
  get_topology_node : string → Res TopologyNode;
}.

End Collab.

(** Collaborators that behave: their calls return, and their generators
    only read the run context. *)
Record Env := {
  generate_source_hash : Obj → string;
  model_str : Value → string;
  fqn_from_stage : TopologyContext → NodeStage → CtxValue → string;
  metadata_get_by_name : list Event → EntityType → string → option Obj;
  metadata_list_all_entities :
    list Event → EntityType → string * string → list Obj;
  (** [self.metadata.config], and in it [forceEntityOverwriting] *)
  metadata_config : option (option bool);
  producers : string → option (TopologyContext → option (Gen Value));
  processors :
    string →
    option (Value → TopologyContext → option (Gen (option Either)));
  post_processors : string → option (TopologyContext → Gen Either);
  (** [get_topology_node(name, self.topology)] *)
  get_topology_node : string → Res TopologyNode;
}.

(** Collaborators that behave are collaborators.  Given [None] for a name,
    their [fqn_from_stage] fails (a [TypeError], carried by
    [OtherException]). *)
Definition behaved (env : Env) : Collab.t :=
  {| Collab.generate_source_hash := fun o => Ok (generate_source_hash env o);
     Collab.model_str := model_str env;
     Collab.fqn_from_stage := fun ctx stage entity_name =>
       match entity_name with
       | Some name => Ok (fqn_from_stage env ctx stage name)
       | None => Raise (OtherException "entity_name is None")
       end;
     Collab.metadata_get_by_name := fun tr ty fqn =>
       Ok (metadata_get_by_name env tr ty fqn);
     Collab.metadata_list_all_entities := fun tr ty params =>
       (metadata_list_all_entities env tr ty params, None);
     Collab.metadata_config := metadata_config env;
     Collab.producers := fun name =>
       match producers env name with
       | Some node_producer =>
           Some (fun ctx => option_map reading (node_producer ctx))
       | None => None
       end;
     Collab.processors := fun name =>
       match processors env name with
       | Some stage_fn =>
           Some (fun node_entity ctx =>
                   option_map reading (stage_fn node_entity ctx))
       | None => None
       end;
     Collab.post_processors := fun name =>
       match post_processors env name with
       | Some hook => Some (fun ctx => reading (hook ctx))
       | None => None
       end;
     Collab.get_topology_node := get_topology_node env |}.

Coercion behaved : Env >-> Collab.t.

(** [self.context.slot = value]: a slot that holds [None] is a slot that is
    not set. *)
Definition assigned (slot : string) (value : option CtxValue)
    (ctx : TopologyContext) : TopologyContext :=
  match value with
  | Some v => <[slot := v]> ctx
  | None => delete slot ctx
  end.

(** ** Run state and the monad of the runner *)

Record State := {
  self_context : TopologyContext;
  self_cache : gmap EntityType (gmap string Value);
  trace : list Event;
}.

Definition M (A : Type) : Type := State → Res A * State.

Definition ret {A} (a : A) : M A := fun s => (Ok a, s).

Definition raise {A} (e : Exn) : M A := fun s => (Raise e, s).

Definition bind {A B} (m : M A) (f : A → M B) : M B :=
  fun s =>
    match m s with
    | (Ok a, s') => f a s'
    | (Raise e, s') => (Raise e, s')
    end.

Declare Scope run_scope.
Delimit Scope run_scope with run.
Bind Scope run_scope with M.
Notation "x <- m ;; k" := (bind m (fun x => k))
  (at level 100, m at next level, k at level 200, right associativity)
  : run_scope.
Notation "m ;; k" := (bind m (fun _ => k))
  (at level 100, k at level 200, right associativity) : run_scope.
Open Scope run_scope.

(** [try: m except <caught> as exc: handler exc] *)
Definition try_except {A} (m : M A) (caught : Exn → bool)
    (handler : Exn → M A) : M A :=
  fun s =>
    match m s with
    | (Ok a, s') => (Ok a, s')
    | (Raise e, s') => if caught e then handler e s' else (Raise e, s')
    end.

Definition gets {A} (f : State → A) : M A := fun s => (Ok (f s), s).

(** The state after the effects [evs] have happened. *)
Definition add_events (s : State) (evs : list Event) : State :=
  {| self_context := self_context s;
     self_cache := self_cache s;
     trace := trace s ++ evs |}.

Definition emit (ev : Event) : M unit :=
  fun s => (Ok tt, add_events s [ev]).

Definition set_context (ctx : TopologyContext) : M unit :=
  fun s => (Ok tt, {| self_context := ctx;
                      self_cache := self_cache s;
                      trace := trace s |}).

Definition set_cache (c : gmap EntityType (gmap string Value)) : M unit :=
  fun s => (Ok tt, {| self_context := self_context s;
                      self_cache := c;
                      trace := trace s |}).

Definition yield_ (entity_request : Either) : M unit :=
  emit (EvYield entity_request).

Definition log (r : LogRecord) : M unit := emit (EvLog r).

Definition when (b : bool) (m : M unit) : M unit := if b then m else ret tt.

(** [for x in l: body x] *)
Fixpoint for_list {A} (l : list A) (body : A → M unit) : M unit :=
  match l with
  | [] => ret tt
  | a :: l' => body a ;; for_list l' body
  end.

(** [for x in g: body x] over a generator: the generator resumes after the
    body of the previous item has run, and what it writes to the run context
    is written when it runs. *)
Fixpoint for_generator {A} (g : Generator A) (body : A → M unit) : M unit :=
  match g with
  | GenStop => ret tt
  | GenRaise e => raise e
  | GenYield a k =>
      body a ;;
      ctx <- gets self_context ;;
      for_generator (k ctx) body
  | GenSet slot value g' =>
      ctx <- gets self_context ;;
      set_context (assigned slot value ctx) ;;
      for_generator g' body
  end.

(** The same loop over a generator that only reads. *)
Fixpoint for_gen {A} (g : Gen A) (body : A → M unit) : M unit :=
  match g with
  | GStop => ret tt
  | GRaise e => raise e
  | GYield a k =>
      body a ;;
      ctx <- gets self_context ;;
      for_gen (k ctx) body
  end.

(** The result of a call that may raise. *)
Definition call {A} (r : Res A) : M A :=
  match r with
  | Ok a => ret a
  | Raise e => raise e
  end.

(** [o.attr] *)
Definition getattr (o : Obj) (attr : string) : M Value :=
  match o !! attr with
  | Some v => ret v
  | None => raise (AttributeError attr)
  end.

(** [getattr(self, name)] for a method resolved by name *)
Definition getattr_self {A} (methods : string → option A) (name : string)
    : M A :=
  match methods name with
  | Some f => ret f
  | None => raise (AttributeError name)
  end.

(** ** The runner *)

Section Runner.
Context (c : Collab.t).

(** [self.metadata.get_by_name(entity=ty, fqn=fqn, fields=["*"])] *)
Definition get_by_name (ty : EntityType) (fqn : string) : M (option Obj) :=
  tr <- gets trace ;;
  emit (EvGetByName ty fqn) ;;
  call (Collab.metadata_get_by_name c tr ty fqn).

(** [self.metadata.list_all_entities(entity=ty, params=params,
    fields=["sourceHash"])]: the entities that the iteration over the
    listing gets, and the exception that ends it if one does *)
Definition list_all_entities (ty : EntityType) (params : string * string)
    : M (list Obj * option Exn) :=
  tr <- gets trace ;;
  emit (EvListAll ty params) ;;
  ret (Collab.metadata_list_all_entities c tr ty params).

(** [generate_source_hash(create_request=o)] *)
Definition source_hash (o : Obj) : M string :=
  emit (EvSourceHash o) ;;
  call (Collab.generate_source_hash c o).

(** [self.cache[ty]]: the cache is a [defaultdict(dict)], so reading a
    missing entity type stores an empty dict under it. *)
Definition cache_of_type (ty : EntityType) : M (gmap string Value) :=
  c <- gets self_cache ;;
  match c !! ty with
  | Some d => ret d
  | None => set_cache (<[ty := ∅]> c) ;; ret ∅
  end.

(** [self.cache[ty].get(fqn)] *)
Definition cache_get (ty : EntityType) (fqn : string) : M (option Value) :=
  d <- cache_of_type ty ;;
  emit (EvCacheGet ty fqn) ;;
  ret (d !! fqn).

(** [self.cache[ty][fqn] = v] *)
Definition cache_set (ty : EntityType) (fqn : string) (v : Value)
    : M unit :=
  d <- cache_of_type ty ;;
  c <- gets self_cache ;;
  set_cache (<[ty := <[fqn := v]> d]> c).

(** Modelled from the spec: [TopologyContext.update_context_value] lives in
    metadata/ingestion/models/topology.py; it sets the slot the stage is
    bound to with the raw value. *)
Definition update_context_value (stage : NodeStage) (value : CtxValue)
    : M unit :=
  match context stage with
  | Some slot =>
      ctx <- gets self_context ;;
      set_context (<[slot := value]> ctx)
  | None => ret tt
  end.

(** Modelled from the spec: [TopologyContext.update_context_name] lives in
    metadata/ingestion/models/topology.py; it sets the slot the stage is
    bound to with the name of the object it is given. *)
Definition update_context_name (stage : NodeStage) (right : Obj) : M unit :=
  name <- getattr right "name" ;;
  update_context_value stage (CName (Collab.model_str c name)).

(** Modelled from the spec: [TopologyContext.clear_stage] lives in
    metadata/ingestion/models/topology.py; it removes the slot the stage is
    bound to. *)
Definition clear_stage (stage : NodeStage) : M unit :=
  match context stage with
  | Some slot =>
      ctx <- gets self_context ;;
      set_context (delete slot ctx)
  | None => ret tt
  end.

Definition _is_force_overwrite_enabled : bool :=
  match Collab.metadata_config c with
  | Some (Some b) => b
  | _ => false
  end.

(** [PatchRequest(original_entity=original_entity,
    new_entity=original_entity.copy(update=create_request.__dict__))]:
    the copy has every field of the original, overridden by every field of
    the create request. *)
Definition create_patch_request (original_entity create_request : Obj)
    : Right :=
  RPatch original_entity (create_request ∪ original_entity).

(** [while not entity and tries > 0: entity = get_by_name(...); tries -= 1] *)
Fixpoint ack_poll (tries : nat) (ty : EntityType) (fqn : string)
    (entity : option Obj) : M (option Obj) :=
  match entity, tries with
  | None, S tries' =>
      entity' <- get_by_name ty fqn ;;
      ack_poll tries' ty fqn entity'
  | _, _ => ret entity
  end.

(** The default [yield_and_update_context], in the order of the source.
    [right] is the object [entity_request.right] ([sink_request] passes it
    so), hence what the method assigns to
    [entity_request.right.sourceHash] is seen through [right] as well. *)

(** Lines 258-266: the lookup of a stage that must not overwrite.  Gives
    [entity] and [same_fingerprint]. *)
Definition lookup_unless_overwrite (stage : NodeStage)
    (entity_fqn : string) : M (option Obj * bool) :=
  if negb (overwrite stage) && negb _is_force_overwrite_enabled then
    entity <- get_by_name (type_ stage) entity_fqn ;;
    ret (entity, bool_decide (is_Some entity))
  else ret (None, false).

(** Lines 268-274: the fingerprint is computed and stored in the request
    when the request has a [sourceHash] attribute.  Gives
    [create_entity_request_hash] and the request after the assignment. *)
Definition attach_source_hash (right : Obj) : M (Value * Obj) :=
  if bool_decide (is_Some (right !! "sourceHash")) then
    h <- source_hash right ;;
    ret (VStr h, <["sourceHash" := VStr h]> right)
  else ret (VNone, right).

(** Lines 276-300: the comparison with the fingerprint cache.  Gives
    [entity], [same_fingerprint] and [entity_request.right]. *)
Definition compare_with_cache (stage : NodeStage) (entity_fqn : string)
    (entity : option Obj) (same_fingerprint : bool)
    (create_entity_request_hash : Value) (right : Obj)
    : M (option Obj * bool * Right) :=
  if bool_decide (entity = None) && use_cache stage then
    entity_source_hash <- cache_get (type_ stage) entity_fqn ;;
    match entity_source_hash with
    | Some cached =>
        if truthy cached then
          if bool_decide (cached ≠ create_entity_request_hash) then
            entity <- get_by_name (type_ stage) entity_fqn ;;
            match entity with
            | Some original =>
                ret (entity, same_fingerprint,
                     create_patch_request original right)
            | None => ret (entity, same_fingerprint, RModel right)
            end
          else
            log (DebugNoChanges (type_ stage) entity_fqn) ;;
            ret (entity, true, RModel right)
        else ret (entity, same_fingerprint, RModel right)
    | None => ret (entity, same_fingerprint, RModel right)
    end
  else ret (entity, same_fingerprint, RModel right).

(** Lines 308-326: the wait for the acknowledgement. *)
Definition await_ack (stage : NodeStage) (entity_fqn : string)
    (entity : option Obj) : M unit :=
  when (must_return stage && bool_decide (entity = None))
    (entity <- ack_poll 3 (type_ stage) entity_fqn entity ;;
     match entity with
     | Some _ => ret tt
     | None =>
         raise (MissingExpectedEntityAckException (type_ stage) entity_fqn)
     end).

Definition yield_and_update_context_default (right : Obj)
    (stage : NodeStage) (entity_request : Either) : M unit :=
  name <- getattr right "name" ;;
  let entity_name := Collab.model_str c name in
  ctx <- gets self_context ;;
  entity_fqn <- call (Collab.fqn_from_stage c ctx stage
                        (Some (CName entity_name))) ;;
  found <- lookup_unless_overwrite stage entity_fqn ;;
  hashed <- attach_source_hash right ;;
  compared <- compare_with_cache stage entity_fqn found.1 found.2
                hashed.1 hashed.2 ;;
  let entity := compared.1.1 in
  let same_fingerprint := compared.1.2 in
  (* lines 302-305 *)
  when (negb same_fingerprint)
    (yield_ {| left := left entity_request; right := Some compared.2 |}) ;;
  await_ack stage entity_fqn entity ;;
  (* line 328 *)
  update_context_name stage hashed.2.

(** [singledispatchmethod]: the registered variants for lineage, tags and
    custom properties, the default for every other class. *)
Definition yield_and_update_context (right : Right) (stage : NodeStage)
    (entity_request : Either) : M unit :=
  match right with
  | RAddLineage fromEntity _ =>
      yield_ entity_request ;;
      update_context_name stage fromEntity
  | RTagAndClassification _ | RCustomProperties _ =>
      yield_ entity_request ;;
      update_context_value stage (CRaw right)
  | RModel o => yield_and_update_context_default o stage entity_request
  | RPatch _ _ =>
      (* [PatchRequest] has no attribute [name] *)
      raise (AttributeError "name")
  end.

(** [if stage.context:] *)
Definition context_bound (stage : NodeStage) : bool :=
  match context stage with
  | Some slot => bool_decide (slot ≠ "")
  | None => false
  end.

Definition sink_request (stage : NodeStage)
    (entity_request : option Either) : M unit :=
  let entity :=
    match entity_request with
    | Some er => right er
    | None => None
    end in
  (* [if not stage.nullable and entity is None and
         entity_request.left is None: raise ValueError] *)
  (if negb (nullable stage) && bool_decide (entity = None) then
     match entity_request with
     | None => raise (AttributeError "left")
     | Some er =>
         if bool_decide (left er = None)
         then raise (ValueError "Value unexpectedly None")
         else ret tt
     end
   else ret tt) ;;
  match entity_request with
  | None => ret tt
  | Some er =>
      match right er with
      | Some r =>
          if context_bound stage
          then yield_and_update_context r stage er
          else yield_ er
      | None => yield_ er
      end
  end.

(** Lines 197-203: the filter of the bulk listing. *)
Definition listing_params (parent_type child_type : EntityType)
    (entity_fqn : string) : string * string :=
  if bool_decide (parent_type = Database ∨ parent_type = DatabaseSchema)
  then
    if bool_decide (child_type = StoredProcedure)
    then ("databaseSchema", entity_fqn)
    else ("database", entity_fqn)
  else ("service", entity_fqn).

(** Lines 210-213: the body of the loop over the listing. *)
Definition record_source_hash (child_type : EntityType) (entity : Obj)
    : M unit :=
  sourceHash <- getattr entity "sourceHash" ;;
  when (truthy sourceHash)
    (fullyQualifiedName <- getattr entity "fullyQualifiedName" ;;
     cache_set child_type (Collab.model_str c fullyQualifiedName)
       sourceHash).

Definition get_fqn_source_hash_dict (parent_type child_type : EntityType)
    (entity_fqn : string) : M unit :=
  let params := listing_params parent_type child_type entity_fqn in
  entities_list <- list_all_entities child_type params ;;
  for_list entities_list.1 (record_source_hash child_type) ;;
  match entities_list.2 with
  | Some exc => raise exc
  | None => ret tt
  end.

(** [[get_topology_node(child, self.topology) for child in names]] *)
Fixpoint resolve_children (names : list string) : M (list TopologyNode) :=
  match names with
  | [] => ret []
  | child :: names' =>
      match Collab.get_topology_node c child with
      | Ok n => ns <- resolve_children names' ;; ret (n :: ns)
      | Raise e => raise e
      end
  end.

(** [... if node.children else []] *)
Definition _get_child_nodes (node : TopologyNode) : M (list TopologyNode) :=
  resolve_children (default [] (children node)).

Definition _init_cache_dict (stage : NodeStage)
    (child_nodes : list TopologyNode) : M unit :=
  for_list child_nodes (fun child_node =>
    for_list (stages child_node) (fun child_stage =>
      when (use_cache child_stage)
        (ctx <- gets self_context ;;
         (* [self.context.__dict__[stage.context]]: a slot that is not set
            holds [None] *)
         match context stage with
         | Some slot =>
             entity_fqn <- call (Collab.fqn_from_stage c ctx stage
                                   (ctx !! slot)) ;;
             get_fqn_source_hash_dict (type_ stage) (type_ child_stage)
               entity_fqn
         | None => raise (KeyError None)
         end))).

(** The body of the loop of [_process_stage]: lines 140-147. *)
Definition sink_or_warn (stage : NodeStage)
    (entity_request : option Either) : M unit :=
  try_except (sink_request stage entity_request) is_ValueError
    (fun err =>
       log (DebugTraceback err) ;;
       log (WarningStageValueError stage err)).

Definition _process_stage (stage : NodeStage) (node_entity : Value)
    (child_nodes : list TopologyNode) : M unit :=
  log (DebugProcessingStage stage) ;;
  stage_fn <- getattr_self (Collab.processors c) (processor stage) ;;
  ctx <- gets self_context ;;
  for_generator (default GenStop (stage_fn node_entity ctx))
    (sink_or_warn stage) ;;
  when (cache_entities stage) (_init_cache_dict stage child_nodes).

(** The body of the loop of [_run_node_post_process]: lines 159-167.
    [except Exception] catches every exception of the model. *)
Definition run_post_process (process : string) : M unit :=
  try_except
    (node_post_process <- getattr_self (Collab.post_processors c) process ;;
     ctx <- gets self_context ;;
     for_generator (node_post_process ctx) yield_)
    (fun _ => true)
    (fun exc =>
       log (DebugTraceback exc) ;;
       log (WarningPostProcess process exc)).

Definition _run_node_post_process (node : TopologyNode) : M unit :=
  match post_process node with
  | Some (p :: ps) =>
      log (DebugPostProcessingNode node) ;;
      for_list (p :: ps) run_post_process
  | _ => ret tt
  end.

(** Lines 102-105 *)
Definition run_stages (node : TopologyNode)
    (child_nodes : list TopologyNode) (node_entity : Value) : M unit :=
  for_list (stages node) (fun stage =>
    _process_stage stage node_entity child_nodes).

(** Lines 108-110 *)
Definition clear_stages (node : TopologyNode) : M unit :=
  for_list (stages node) (fun stage =>
    when (clear_context stage) (clear_stage stage)).

(** One iteration of [for node_entity in node_producer() or []]: lines
    102-113. *)
Definition process_candidate (process_children : list TopologyNode → M unit)
    (node : TopologyNode) (child_nodes : list TopologyNode)
    (node_entity : Value) : M unit :=
  run_stages node child_nodes node_entity ;;
  clear_stages node ;;
  process_children child_nodes.

(** [process_nodes]; [depth] is the number of nested calls the interpreter
    still allows, and running out of it is Python's [RecursionError]. *)
Fixpoint process_nodes (depth : nat) (nodes : list TopologyNode) : M unit :=
  match depth with
  | 0 => raise RecursionError
  | S depth' =>
      for_list nodes (fun node =>
        log (DebugProcessingNode node) ;;
        node_producer <- getattr_self (Collab.producers c)
                           (producer node) ;;
        child_nodes <- _get_child_nodes node ;;
        ctx <- gets self_context ;;
        for_generator (default GenStop (node_producer ctx))
          (process_candidate (process_nodes depth') node child_nodes) ;;
        _run_node_post_process node)
  end.

End Runner.

(** ** Reading a trace *)

(** The requests handed to the sink, in order. *)
Definition yields_of (tr : list Event) : list Either :=
  omap (fun ev => match ev with EvYield e => Some e | _ => None end) tr.

(** The calls to the remote store, in order. *)
Definition remote_calls_of (tr : list Event) : list Event :=
  List.filter is_remote_call tr.

(** The answer of the remote store to the [i]-th of a row of polls for
    [fqn] that starts after the effects [tr]. *)
Definition attempt (env : Env) (tr : list Event) (ty : EntityType)
    (fqn : string) (i : nat) : option Obj :=
  metadata_get_by_name env (tr ++ replicate i (EvGetByName ty fqn)) ty fqn.

(** [self.cache[ty].get(fqn)] as a value: what the dispatcher reads. *)
Definition cache_lookup (s : State) (ty : EntityType) (fqn : string)
    : option Value :=
  self_cache s !! ty ≫= (.!! fqn).

(** [self.cache[ty]], without the side effect of the read. *)
Definition cache_dict (s : State) (ty : EntityType) : gmap string Value :=
  default ∅ (self_cache s !! ty).

(** The key under which a listed entity is cached. *)
Definition fqn_key (env : Env) (entity : Obj) : option string :=
  model_str env <$> entity !! "fullyQualifiedName".

(** A listed entity as the generated entity classes give it: the fields
    [sourceHash] and [fullyQualifiedName] are declared (and may be [None]). *)
Definition listed_entity (entity : Obj) : Prop :=
  is_Some (entity !! "sourceHash") ∧ is_Some (entity !! "fullyQualifiedName").

(** What one listed entity does to the dict of its type. *)
Definition recorded (env : Env) (d : gmap string Value) (entity : Obj)
    : gmap string Value :=
  match entity !! "sourceHash", entity !! "fullyQualifiedName" with
  | Some h, Some f => if truthy h then <[model_str env f := h]> d else d
  | _, _ => d
  end.

(** What a consumer that never changes the run context gets out of a
    generator: the items, and the exception that ends it if one does. *)
Fixpoint gen_outcome {A} (ctx : TopologyContext) (g : Gen A)
    : list A * option Exn :=
  match g with
  | GStop => ([], None)
  | GRaise e => ([], Some e)
  | GYield a k =>
      let rest := gen_outcome ctx (k ctx) in
      (a :: rest.1, rest.2)
  end.

(** The two log records of an [except] branch. *)
Definition logged_failure (process : string) (exc : Exn) : list Event :=
  [EvLog (DebugTraceback exc); EvLog (WarningPostProcess process exc)].

(** The effects of one post-process hook: what it yields, then the log
    records of its failure if it fails (a hook that cannot be resolved fails
    with [AttributeError]). *)
Definition post_process_events (env : Env) (ctx : TopologyContext)
    (process : string) : list Event :=
  match post_processors env process with
  | Some hook =>
      let outcome := gen_outcome ctx (hook ctx) in
      (EvYield <$> outcome.1)
        ++ match outcome.2 with
           | Some exc => logged_failure process exc
           | None => []
           end
  | None => logged_failure process (AttributeError process)
  end.

(** The effects of the post-processing of a node. *)
Definition node_post_process_events (env : Env) (ctx : TopologyContext)
    (node : TopologyNode) : list Event :=
  match post_process node with
  | Some (p :: ps) =>
      EvLog (DebugPostProcessingNode node)
        :: concat (post_process_events env ctx <$> (p :: ps))
  | _ => []
  end.

(** The run context after the clearing step of a node (lines 108-110). *)
Definition cleared (sts : list NodeStage) (ctx : TopologyContext)
    : TopologyContext :=
  foldl (fun c st =>
           if clear_context st
           then match context st with
                | Some slot => delete slot c
                | None => c
                end
           else c) ctx sts.

(** The state with another run context. *)
Definition with_context (s : State) (ctx : TopologyContext) : State :=
  {| self_context := ctx; self_cache := self_cache s; trace := trace s |}.

(** No stage of the node is bound to [slot]. *)
Definition unbound (slot : string) (node : TopologyNode) : Prop :=
  ∀ stage, stage ∈ stages node → context stage ≠ Some slot.

(** [P] holds of every child, by name, of a node of which it holds. *)
Definition closed_under_children (c : Collab.t) (P : TopologyNode → Prop)
    : Prop :=
  ∀ node name child,
    P node →
    name ∈ default [] (children node) →
    Collab.get_topology_node c name = Ok child →
    P child.

(** The state after [self.cache[ty]] has been read. *)
Definition touch_cache (s : State) (ty : EntityType) : State :=
  {| self_context := self_context s;
     self_cache := match self_cache s !! ty with
                   | Some _ => self_cache s
                   | None => <[ty := ∅]> (self_cache s)
                   end;
     trace := trace s |}.

(** The remote call of a stage that must not overwrite (lines 259-264), if
    the stage makes it. *)
Definition prior_lookup (env : Env) (stage : NodeStage) (fqn : string)
    : list Event :=
  if negb (overwrite stage) && negb (_is_force_overwrite_enabled env)
  then [EvGetByName (type_ stage) fqn]
  else [].

(** ** Predicates on computations *)

(** Every exception that [m] raises satisfies [Q]. *)
Definition raises_only {A} (Q : Exn → Prop) (m : M A) : Prop :=
  ∀ s e s', m s = (Raise e, s') → Q e.

(** What [except ValueError] lets through. *)
Definition not_ValueError (e : Exn) : Prop := is_ValueError e = false.

(** [m] leaves the context slot [slot] as it finds it. *)
Definition keeps_slot (slot : string) {A} (m : M A) : Prop :=
  ∀ s, self_context (m s).2 !! slot = self_context s !! slot.

(** The generator never writes [slot]. *)
Fixpoint silent {A} (slot : string) (g : Generator A) : Prop :=
  match g with
  | GenStop | GenRaise _ => True
  | GenYield _ k => ∀ ctx, silent slot (k ctx)
  | GenSet slot' _ g' => slot' ≠ slot ∧ silent slot g'
  end.

(** The collaborators of a stage, and of a node, never write [slot]. *)
Definition stage_leaves_slot (c : Collab.t) (slot : string)
    (stage : NodeStage) : Prop :=
  ∀ stage_fn node_entity ctx g,
    Collab.processors c (processor stage) = Some stage_fn →
    stage_fn node_entity ctx = Some g →
    silent slot g.

Definition node_leaves_slot (c : Collab.t) (slot : string)
    (node : TopologyNode) : Prop :=
  (∀ node_producer ctx g,
     Collab.producers c (producer node) = Some node_producer →
     node_producer ctx = Some g →
     silent slot g) ∧
  (∀ stage, stage ∈ stages node → stage_leaves_slot c slot stage) ∧
  (∀ process hook ctx,
     process ∈ default [] (post_process node) →
     Collab.post_processors c process = Some hook →
     silent slot (hook ctx)).

(** The loop [for x in g: body x], begun in state [s], comes to the point
    where [g'] is what is left of the generator and the state is [s']: the
    bodies of the items before that point have returned. *)
Inductive reaches {A} (body : A → M unit)
    : Generator A → State → Generator A → State → Prop :=
  | reaches_here g s : reaches body g s g s
  | reaches_yield a k s s1 g' s' :
      body a s = (Ok tt, s1) →
      reaches body (k (self_context s1)) s1 g' s' →
      reaches body (GenYield a k) s g' s'
  | reaches_set slot value g s g' s' :
      reaches body g (with_context s (assigned slot value (self_context s)))
        g' s' →
      reaches body (GenSet slot value g) s g' s'.

(** ** A concrete source

    A small database source, used to run the runner on explicit inputs: a
    service stage that must not overwrite and must be acknowledged, a schema
    node whose stage clears its context slot, and below it a table node whose
    stage uses the fingerprint cache. *)
Module Demo.

Definition name_of (v : CtxValue) : string :=
  match v with
  | CName s => s
  | CRaw _ => "<object>"
  end.

Definition demo_model_str (v : Value) : string :=
  match v with
  | VStr s => s
  | VNone => "None"
  | VInt _ => "<int>"
  end.

(** The names in the slots the stage consumes, then the leaf name,
    separated by dots *)
Definition demo_fqn (ctx : TopologyContext) (stage : NodeStage)
    (leaf : CtxValue) : string :=
  String.concat "."
    (omap (fun dep => name_of <$> ctx !! dep) (consumer stage)
       ++ [name_of leaf]).

(** A fingerprint over the one semantic field of the requests below *)
Definition demo_hash (o : Obj) : string :=
  match o !! "description" with
  | Some (VStr d) => "H:" +:+ d
  | _ => "H:"
  end.

Definition Table : EntityType := EntityClass "Table".
Definition DatabaseService : EntityType := EntityClass "DatabaseService".

Definition service_stage : NodeStage :=
  {| type_ := DatabaseService;
     processor := "yield_create_request_database_service";
     context := Some "database_service";
     nullable := false;
     must_return := true;
     overwrite := false;
     cache_entities := true;
     use_cache := false;
     clear_context := false;
     consumer := [] |}.

Definition schema_stage : NodeStage :=
  {| type_ := DatabaseSchema;
     processor := "yield_database_schema";
     context := Some "database_schema";
     nullable := false;
     must_return := false;
     overwrite := true;
     cache_entities := false;
     use_cache := false;
     clear_context := true;
     consumer := ["database_service"] |}.

Definition table_stage (must_return_ : bool) : NodeStage :=
  {| type_ := Table;
     processor := "yield_table";
     context := Some "table";
     nullable := false;
     must_return := must_return_;
     overwrite := true;
     cache_entities := false;
     use_cache := true;
     clear_context := false;
     consumer := ["database_service"] |}.

(** A stage that feeds no context slot *)
Definition query_stage : NodeStage :=
  {| type_ := EntityClass "Query";
     processor := "yield_table_query";
     context := None;
     nullable := true;
     must_return := false;
     overwrite := true;
     cache_entities := false;
     use_cache := true;
     clear_context := false;
     consumer := ["database_service"] |}.

Definition table_node : TopologyNode :=
  {| producer := "get_tables_name_and_type";
     stages := [table_stage false];
     children := None;
     post_process := None |}.

Definition schema_node : TopologyNode :=
  {| producer := "get_database_schema_names";
     stages := [schema_stage];
     children := Some ["table"];
     post_process := Some ["mark_tables_as_deleted"; "yield_view_lineage"] |}.

Definition create_request (name description : string) : Obj :=
  {[ "name" := VStr name;
     "description" := VStr description;
     "sourceHash" := VNone ]}.

Definition entity (name fqn : string) (sourceHash : Value) : Obj :=
  {[ "name" := VStr name;
     "fullyQualifiedName" := VStr fqn;
     "id" := VStr "6f1c";
     "sourceHash" := sourceHash ]}.

Definition request_of (o : Obj) : Either :=
  {| left := None; right := Some (RModel o) |}.

Definition orders : Obj := create_request "orders" "v1".
Definition orders_request : Either := request_of orders.

Definition svc : Obj := create_request "svc" "v1".
Definition svc_request : Either := request_of svc.

(** An [Either] with neither side *)
Definition empty_request : Either := {| left := None; right := None |}.

Definition lineage_request : Either :=
  {| left := None;
     right := Some (RAddLineage (entity "orders_view" "svc.orders_view" VNone)
                      (entity "orders" "svc.orders" VNone)) |}.

(** Every stage processor gives one create request, named after the
    candidate. *)
Definition yield_named (node_entity : Value) (ctx : TopologyContext)
    : option (Gen (option Either)) :=
  Some (GYield
          (Some (request_of (create_request (demo_model_str node_entity) "v1")))
          (fun _ => GStop)).

Definition demo_env
    (remote : list Event → EntityType → string → option Obj)
    (listing : list Obj) (force : bool) : Env :=
  {| generate_source_hash := demo_hash;
     model_str := demo_model_str;
     fqn_from_stage := demo_fqn;
     metadata_get_by_name := remote;
     metadata_list_all_entities := fun _ _ _ => listing;
     metadata_config := Some (Some force);
     producers := fun name =>
       if bool_decide (name = "get_database_schema_names")
       then Some (fun _ => Some (gen_of_list [VStr "sales"]))
       else if bool_decide (name = "get_tables_name_and_type")
       then Some (fun _ => Some (gen_of_list [VStr "orders"]))
       else None;
     processors := fun name =>
       if bool_decide (name = "yield_database_schema"
                       ∨ name = "yield_table")
       then Some yield_named
       else None;
     post_processors := fun name =>
       if bool_decide (name = "mark_tables_as_deleted")
       then Some (fun _ => GRaise (OtherException "delete failed"))
       else if bool_decide (name = "yield_view_lineage")
       then Some (fun _ => gen_of_list [lineage_request])
       else None;
     get_topology_node := fun name =>
       if bool_decide (name = "table")
       then Ok table_node
       else Raise (ValueError name) |}.

(** A remote store that holds nothing, and one that answers every lookup
    with the same entity *)
Definition never_found : list Event → EntityType → string → option Obj :=
  fun _ _ _ => None.

Definition always_found (found : Obj)
    : list Event → EntityType → string → option Obj :=
  fun _ _ _ => Some found.

Definition quiet : Env := demo_env never_found [] false.

(** The run before the service is known *)
Definition fresh : State :=
  {| self_context := ∅; self_cache := ∅; trace := [] |}.

(** The run below the service [svc], with the given cached fingerprints of
    tables *)
Definition in_service (cached : gmap string Value) : State :=
  {| self_context := {[ "database_service" := CName "svc" ]};
     self_cache := {[ Table := cached ]};
     trace := [] |}.

Definition cached_v1 : State :=
  in_service {[ "svc.orders" := VStr "H:v1" ]}.

Definition cached_v0 : State :=
  in_service {[ "svc.orders" := VStr "H:v0" ]}.

(** The remote store with the table [orders] in an older version, and the
    environment around it *)
Definition orders_v0 : Obj := entity "orders" "svc.orders" (VStr "H:v0").

Definition with_orders_v0 : Env :=
  demo_env (always_found orders_v0) [] false.

(** The same with the table as the cache knows it *)
Definition orders_v1 : Obj := entity "orders" "svc.orders" (VStr "H:v1").

Definition with_orders_v1 : Env :=
  demo_env (always_found orders_v1) [] false.

(** The environment whose bulk listing gives [listing] *)
Definition listing_of (listing : list Obj) : Env :=
  demo_env never_found listing false.

(** The remote store that answers with the service it holds, under the
    given name *)
Definition with_service (name : string) : Env :=
  demo_env (always_found (entity name name VNone)) [] false.

(** The remote store has the entity once [n] calls have been made *)
Definition found_after (n : nat) (found : Obj)
    : list Event → EntityType → string → option Obj :=
  fun tr _ _ =>
    if bool_decide (n ≤ length (remote_calls_of tr)) then Some found
    else None.

(** The service becomes visible at the second poll: one call is the lookup
    before the write, one the first poll *)
Definition with_late_service : Env :=
  demo_env (found_after 2 (entity "svc" "svc" VNone)) [] false.

(** The candidate [sales] of the schema node: where its stages end, and
    where the descent into its children begins *)
Definition after_schema_stages : State :=
  (run_stages quiet schema_node [table_node] (VStr "sales")
     (in_service ∅)).2.

Definition at_descent : State :=
  with_context after_schema_stages
    (cleared (stages schema_node) (self_context after_schema_stages)).

(** The schema node when its one candidate is done *)
Definition after_schema_candidates : State :=
  (for_gen (gen_of_list [VStr "sales"])
     (process_candidate quiet (process_nodes quiet 2) schema_node
        [table_node])
     (add_events (in_service ∅) [EvLog (DebugProcessingNode schema_node)])).2.

(** A listing with a fingerprinted table and a legacy one *)
Definition listed_tables : list Obj :=
  [entity "orders" "svc.orders" (VStr "H:v1");
   entity "legacy" "svc.legacy" VNone].

End Demo.

(** ** Relations between the state before and after a computation *)

(** [m] takes every state to one that [R] relates it to. *)
Definition respects (R : State → State → Prop) {A} (m : M A) : Prop :=
  ∀ s, R s (m s).2.

(** The fingerprint cache answers every lookup as before. *)
Definition same_cache (s s' : State) : Prop :=
  ∀ ty fqn, cache_lookup s' ty fqn = cache_lookup s ty fqn.

(** No name loses its cached fingerprint. *)
Definition cache_grows (s s' : State) : Prop :=
  ∀ ty fqn,
    is_Some (cache_lookup s ty fqn) → is_Some (cache_lookup s' ty fqn).

(** [m] only adds to the trace, and what it adds has at most [ny] yields and
    [nr] remote calls and consists of events that satisfy [P]. *)
Definition emits (ny nr : nat) (P : Event → Prop) {A} (m : M A) : Prop :=
  ∀ s, ∃ evs,
    trace (m s).2 = trace s ++ evs ∧
    length (yields_of evs) ≤ ny ∧
    length (remote_calls_of evs) ≤ nr ∧
    Forall P evs.

(** What a dispatch on [stage] may do to the remote store: look up an
    entity of the type of the stage.  It never lists. *)
Definition dispatch_event (stage : NodeStage) (ev : Event) : Prop :=
  match ev with
  | EvListAll _ _ => False
  | EvGetByName ty _ => ty = type_ stage
  | _ => True
  end.

(** The exceptions that [yield_and_update_context] raises on [stage]: a
    request without a name, or the missing acknowledgement of a
    [must_return] stage. *)
Definition dispatch_exception (stage : NodeStage) (e : Exn) : Prop :=
  match e with
  | AttributeError attr => attr = "name"
  | MissingExpectedEntityAckException ty _ =>
      ty = type_ stage ∧ must_return stage = true
  | _ => False
  end.

(** An exception that comes from outside the runner while it dispatches a
    request on [stage]: from the run context's [fqn_from_stage], from the
    fingerprint helper, or from a lookup by name of an entity of the type
    of the stage. *)
Definition raised_by_collaborator (c : Collab.t) (stage : NodeStage)
    (e : Exn) : Prop :=
  (∃ ctx name, Collab.fqn_from_stage c ctx stage (Some name) = Raise e) ∨
  (∃ o, Collab.generate_source_hash c o = Raise e) ∨
  (∃ tr fqn, Collab.metadata_get_by_name c tr (type_ stage) fqn = Raise e).

(** The child stages for which [_init_cache_dict] makes a listing, in the
    order of the two loops. *)
Definition caching_child_stages (child_nodes : list TopologyNode)
    : list NodeStage :=
  List.filter use_cache (concat (stages <$> child_nodes)).

(** The listing that [_init_cache_dict] makes for a child stage, when the
    slot of the parent stage holds [entity_name]. *)
Definition listing_event (env : Env) (stage : NodeStage)
    (ctx : TopologyContext) (entity_name : CtxValue) (child_stage : NodeStage)
    : Event :=
  EvListAll (type_ child_stage)
    (listing_params (type_ stage) (type_ child_stage)
       (fqn_from_stage env ctx stage entity_name)).

(** * The Unity Catalog source

    Shallow embedding of [UnitycatalogSource]
    (ingestion/src/metadata/ingestion/source/database/unitycatalog/metadata.py),
    whose methods the runner calls as producers, stage processors and
    post-process hooks.  A generator method is a computation that gives,
    besides its result and the state of the source, the list of what it
    yields; the consumer is taken to drain the generator and to leave alone
    what the generator reads.  Log records are left out. *)
Module Unitycatalog.

(** ** Data model *)

(** [databricks.sdk.service.catalog.TableConstraint], as far as the source
    reads it. *)
Record PrimaryKeyConstraint := {
  pk_child_columns : list string;
}.

Record ForeignKeyConstraint := {
  fk_child_columns : list string;
  fk_parent_columns : list string;
  fk_parent_table : string;
}.

Record DBTableConstraint := {
  primary_key_constraint : option PrimaryKeyConstraint;
  foreign_key_constraint : option ForeignKeyConstraint;
}.

(** The members of [ConstraintType] and [TableType] that the source
    uses. *)
Inductive ConstraintType := PRIMARY_KEY | FOREIGN_KEY.

Inductive TableType := Regular | View | External.

#[global] Instance TableType_eq_dec : EqDecision TableType.
Proof. solve_decision. Defined.

Record TableConstraint := {
  constraintType : ConstraintType;
  columns : list string;
  referredColumns : option (list string);
}.

(** [unitycatalog.models.ForeignConstrains] *)
Record ForeignConstrains := {
  child_columns : list string;
  parent_columns : list string;
  parent_table : string;
}.

(** [databricks.sdk.service.catalog.TableInfo]; a column is kept as the
    client gives it. *)
Record TableInfo := {
  full_name : string;
  table_columns : list Obj;
  table_constraints : list DBTableConstraint;
  comment : option string;
  table_view_definition : option string;
}.

Record CreateTableRequest := {
  name : string;
  tableType : TableType;
  description : option string;
  request_columns : list Obj;
  tableConstraints : list TableConstraint;
  databaseSchema : string;
}.

(** [metadata.ingestion.source.models.TableView] *)
Record TableView := {
  table_name : string;
  schema_name : string;
  db_name : string;
  view_definition : option string;
}.

(** [Either[CreateTableRequest]] *)
Record TableEither := {
  table_left : option StackTraceError;
  table_right : option CreateTableRequest;
}.

(** ** Collaborators

    The client of the catalog, the helpers the module imports and the
    configuration.  Every call may raise.  A listing of the client is an
    iterator: it is taken as the names it gives and the exception that ends
    it, if one does. *)
Record Deps := {
  (** [self.service_connection.catalog] *)
  service_connection_catalog : option string;
  (** the names of [self.client.catalogs.list()] *)
  catalogs_list : list string * option Exn;
  (** the names of [self.client.schemas.list(catalog_name=...)] *)
  schemas_list : string → list string * option Exn;
  (** [self.client.tables.get(full_name)] *)
  tables_get : string → Res TableInfo;
  (** [fqn.build(metadata, entity_type=..., ...)] with the names given, from
      the service name on *)
  fqn_build : EntityType → list string → Res string;
  (** [filter_by_database(databaseFilterPattern, name)] and
      [filter_by_schema(schemaFilterPattern, name)] *)
  filter_by_database : string → Res bool;
  filter_by_schema : string → Res bool;
  useFqnForFiltering : bool;
  (** [fqn.split] *)
  fqn_split : string → Res (list string);
  (** [fqn.search_table_from_es(metadata, table_name, schema_name,
      database_name, service_name)] *)
  search_table_from_es : string → string → string → string → option Obj;
  (** [get_column_fqn(table_entity, column)] *)
  get_column_fqn : Obj → string → option string;
  (** [Column] objects out of [self.get_columns(...)], which the
      constructor of the request consumes *)
  get_columns : list Obj → Res (list Obj);
  (** [self.register_record(table_request=...)] of the parent class *)
  register_record : CreateTableRequest → Res unit;
  (** what [get_view_lineage(view, metadata, service_name,
      connection_type)] yields, and the exception that ends it if one
      does *)
  get_view_lineage : TableView → string → list Either * option Exn;
  (** [str(exc)] and [traceback.format_exc()] *)
  exc_str : Exn → string;
  format_exc : Exn → string;
}.

(** ** State of the source *)

Record Source := {
  (** [self.context.database_service], [.database], [.database_schema]: the
      names the runner has stored when it calls these methods *)
  context_database_service : string;
  context_database : string;
  context_database_schema : string;
  (** [self.context.table_data.full_name] *)
  context_table_data : string;
  (** [self.context.table_views] *)
  context_table_views : list TableView;
  (** what [self.status.filter] and [self.status.failed] have recorded *)
  status_filtered : list (string * string);
  status_failures : list StackTraceError;
}.

(** A generator method that yields items of [Y] and returns an [A]. *)
Definition G (Y A : Type) : Type := Source → Res A * Source * list Y.

Definition greturn {Y A} (a : A) : G Y A := fun s => (Ok a, s, []).

Definition graise {Y A} (e : Exn) : G Y A := fun s => (Raise e, s, []).

Definition gbind {Y A B} (m : G Y A) (f : A → G Y B) : G Y B :=
  fun s =>
    match m s with
    | (Ok a, s1, ys) =>
        match f a s1 with
        | (r, s2, ys') => (r, s2, ys ++ ys')
        end
    | (Raise e, s1, ys) => (Raise e, s1, ys)
    end.

Declare Scope gen_scope.
Delimit Scope gen_scope with gen.
Bind Scope gen_scope with G.
Notation "x <- m ;; k" := (gbind m (fun x => k))
  (at level 100, m at next level, k at level 200, right associativity)
  : gen_scope.
Notation "m ;; k" := (gbind m (fun _ => k))
  (at level 100, k at level 200, right associativity) : gen_scope.
#[local] Open Scope gen_scope.

Definition gyield {Y} (y : Y) : G Y unit := fun s => (Ok tt, s, [y]).

(** The result of a call that may raise. *)
Definition call {Y A} (r : Res A) : G Y A := fun s => (r, s, []).

Definition ggets {Y A} (f : Source → A) : G Y A := fun s => (Ok (f s), s, []).

(** [try: m except Exception as exc: handler exc]; what [m] has yielded
    before it raised stays yielded. *)
Definition gtry {Y A} (m : G Y A) (handler : Exn → G Y A) : G Y A :=
  fun s =>
    match m s with
    | (Ok a, s1, ys) => (Ok a, s1, ys)
    | (Raise e, s1, ys) =>
        match handler e s1 with
        | (r, s2, ys') => (r, s2, ys ++ ys')
        end
    end.

Fixpoint gfor {Y A} (l : list A) (body : A → G Y unit) : G Y unit :=
  match l with
  | [] => greturn tt
  | a :: l' => body a ;; gfor l' body
  end.

(** [for a in it: body a] for an iterator that gives the items [it.1] and
    then ends, with the exception [it.2] if there is one: the exception
    comes after the bodies of the items before it, and outside them. *)
Definition gfor_iter {Y A} (it : list A * option Exn) (body : A → G Y unit)
    : G Y unit :=
  gfor it.1 body ;;
  match it.2 with
  | Some exc => graise exc
  | None => greturn tt
  end.

(** The state after the status has recorded these filtered names and these
    failures, and after these views have been added to
    [self.context.table_views]. *)
Definition add_status (s : Source) (filtered : list (string * string))
    (failures : list StackTraceError) : Source :=
  {| context_database_service := context_database_service s;
     context_database := context_database s;
     context_database_schema := context_database_schema s;
     context_table_data := context_table_data s;
     context_table_views := context_table_views s;
     status_filtered := status_filtered s ++ filtered;
     status_failures := status_failures s ++ failures |}.

Definition add_views (s : Source) (views : list TableView) : Source :=
  {| context_database_service := context_database_service s;
     context_database := context_database s;
     context_database_schema := context_database_schema s;
     context_table_data := context_table_data s;
     context_table_views := context_table_views s ++ views;
     status_filtered := status_filtered s;
     status_failures := status_failures s |}.

(** [self.status.filter(key, reason)] *)
Definition status_filter {Y} (key reason : string) : G Y unit :=
  fun s => (Ok tt, add_status s [(key, reason)] [], []).

(** [self.status.failed(error)] *)
Definition status_failed {Y} (error : StackTraceError) : G Y unit :=
  fun s => (Ok tt, add_status s [] [error], []).

(** [self.context.table_views.append(view)] *)
Definition table_views_append {Y} (view : TableView) : G Y unit :=
  fun s => (Ok tt, add_views s [view], []).

(** [l[i]]; the [IndexError] is carried by [OtherException] *)
Definition item {Y} (l : list string) (i : nat) : G Y string :=
  match l !! i with
  | Some x => greturn x
  | None => graise (OtherException "list index out of range")
  end.

(** [if s:] for an [Optional[str]] *)
Definition truthy_str (s : option string) : bool :=
  match s with
  | Some x => bool_decide (x ≠ "")
  | None => false
  end.

(** [f"{s}"] for an [Optional[str]] *)
Definition format_optional (s : option string) : string :=
  match s with
  | Some x => x
  | None => "None"
  end.

(** The double quote character *)
Definition dquote : string := String (Ascii.ascii_of_nat 34) EmptyString.

Section Source.
Context (deps : Deps).

(** ** The methods *)

(** Lines 104-105; the raw names are given one by one. *)
Definition get_database_names_raw : list string * option Exn :=
  catalogs_list deps.

(** Lines 152-158 and 199-205: the records of the [except] branches. *)
Definition database_name_failure (catalog_name : string) (exc : Exn)
    : StackTraceError :=
  {| ste_name := catalog_name;
     ste_error :=
       "Unexpected exception to get database name ["
         +:+ catalog_name +:+ "]: " +:+ exc_str deps exc;
     ste_stackTrace := format_exc deps exc |}.

Definition schema_name_failure (schema : string) (exc : Exn)
    : StackTraceError :=
  {| ste_name := schema;
     ste_error :=
       "Unexpected exception to get database schema ["
         +:+ schema +:+ "]: " +:+ exc_str deps exc;
     ste_stackTrace := format_exc deps exc |}.

(** Lines 131-158: the catalogs of the client, one by one. *)
Definition listed_database_names : G string unit :=
  gfor_iter get_database_names_raw (fun catalog_name =>
    gtry
      (service_name <- ggets context_database_service ;;
       database_fqn <- call (fqn_build deps Database
                               [service_name; catalog_name]) ;;
       filtered <- call (filter_by_database deps
                           (if useFqnForFiltering deps
                            then database_fqn else catalog_name)) ;;
       if filtered : bool then
         status_filter database_fqn "Database (Catalog ID) Filtered Out"
       else gyield catalog_name)
      (fun exc => status_failed (database_name_failure catalog_name exc))).

Definition get_database_names : G string unit :=
  match service_connection_catalog deps with
  | Some catalog =>
      if bool_decide (catalog ≠ "") then gyield catalog
      else listed_database_names
  | None => listed_database_names
  end.

Definition get_database_schema_names : G string unit :=
  catalog_name <- ggets context_database ;;
  gfor_iter (schemas_list deps catalog_name) (fun schema =>
    gtry
      (service_name <- ggets context_database_service ;;
       database_name <- ggets context_database ;;
       schema_fqn <- call (fqn_build deps DatabaseSchema
                             [service_name; database_name; schema]) ;;
       filtered <- call (filter_by_schema deps
                           (if useFqnForFiltering deps
                            then schema_fqn else schema)) ;;
       if filtered : bool then
         status_filter schema_fqn "Schema Filtered Out"
       else gyield schema)
      (fun exc => status_failed (schema_name_failure schema exc))).

Definition get_table_constraints (constraints : list DBTableConstraint)
    : list TableConstraint * list ForeignConstrains :=
  foldl
    (fun '(primary_constraints, foreign_constraints) constraint =>
       let primary_constraints :=
         match primary_key_constraint constraint with
         | Some pk =>
             primary_constraints
               ++ [{| constraintType := PRIMARY_KEY;
                      columns := pk_child_columns pk;
                      referredColumns := None |}]
         | None => primary_constraints
         end in
       let foreign_constraints :=
         match foreign_key_constraint constraint with
         | Some fk =>
             foreign_constraints
               ++ [{| child_columns := fk_child_columns fk;
                      parent_columns := fk_parent_columns fk;
                      parent_table := fk_parent_table fk |}]
         | None => foreign_constraints
         end in
       (primary_constraints, foreign_constraints))
    ([], []) constraints.

(** Lines 386-391: the loop over the parent columns. *)
Definition referred_columns (referred_table : Obj)
    (parent_columns_ : list string) : list string :=
  foldl
    (fun referred_column_fqns parent_column =>
       match get_column_fqn deps referred_table parent_column with
       | Some col_fqn =>
           if bool_decide (col_fqn ≠ "")
           then referred_column_fqns ++ [col_fqn]
           else referred_column_fqns
       | None => referred_column_fqns
       end)
    [] parent_columns_.

(** The loop of [_get_foreign_constraints], from the constraints found so
    far. *)
Fixpoint foreign_constraints_from {Y} (table_constraints_ : list TableConstraint)
    (foreign_columns : list ForeignConstrains)
    : G Y (list TableConstraint) :=
  match foreign_columns with
  | [] => greturn table_constraints_
  | column :: rest =>
      table_fqn_list <- call (fqn_split deps (parent_table column)) ;;
      table_name_ <- item table_fqn_list 2 ;;
      schema_name_ <- item table_fqn_list 1 ;;
      database_name <- item table_fqn_list 0 ;;
      service_name <- ggets context_database_service ;;
      match search_table_from_es deps table_name_ schema_name_
              database_name service_name with
      | Some referred_table =>
          foreign_constraints_from
            (table_constraints_
               ++ [{| constraintType := FOREIGN_KEY;
                      columns := child_columns column;
                      referredColumns :=
                        Some (referred_columns referred_table
                                (parent_columns column)) |}])
            rest
      | None => foreign_constraints_from table_constraints_ rest
      end
  end.

Definition _get_foreign_constraints {Y}
    (foreign_columns : list ForeignConstrains)
    : G Y (list TableConstraint) :=
  foreign_constraints_from [] foreign_columns.

Definition update_table_constraints {Y}
    (table_constraints_ : list TableConstraint)
    (foreign_columns : list ForeignConstrains)
    : G Y (list TableConstraint) :=
  foreign_table_constraints <- _get_foreign_constraints foreign_columns ;;
  match foreign_table_constraints with
  | _ :: _ =>
      match table_constraints_ with
      | _ :: _ => greturn (table_constraints_ ++ foreign_table_constraints)
      | [] => greturn foreign_table_constraints
      end
  | [] => greturn table_constraints_
  end.

(** The f-string of lines 323-326. *)
Definition create_view_statement (db_name_ schema_name_ table_name_ : string)
    (definition : option string) : string :=
  "CREATE VIEW " +:+ dquote +:+ db_name_ +:+ dquote +:+ "."
    +:+ dquote +:+ schema_name_ +:+ dquote +:+ "."
    +:+ dquote +:+ table_name_ +:+ dquote
    +:+ " AS " +:+ format_optional definition.

(** Lines 331-337: the [Either] of the [except] branch of [yield_table]. *)
Definition table_failure (table_name_ : string) (exc : Exn) : TableEither :=
  {| table_left :=
       Some {| ste_name := table_name_;
               ste_error :=
                 "Unexpected exception to yield table ["
                   +:+ table_name_ +:+ "]: " +:+ exc_str deps exc;
               ste_stackTrace := format_exc deps exc |};
     table_right := None |}.

(** The view that [yield_table] adds to [self.context.table_views]. *)
Definition table_view (db_name_ schema_name_ table_name_ : string)
    (definition : option string) : TableView :=
  {| table_name := table_name_;
     schema_name := schema_name_;
     db_name := db_name_;
     view_definition :=
       Some (create_view_statement db_name_ schema_name_ table_name_
               definition) |}.

Definition yield_table (table_name_and_type : string * TableType)
    : G TableEither unit :=
  let table_name_ := table_name_and_type.1 in
  let table_type := table_name_and_type.2 in
  table_data <- ggets context_table_data ;;
  table <- call (tables_get deps table_data) ;;
  schema_name_ <- ggets context_database_schema ;;
  db_name_ <- ggets context_database ;;
  gtry
    (let constraints := get_table_constraints (table_constraints table) in
     table_constraints_ <- update_table_constraints constraints.1
                             constraints.2 ;;
     service_name <- ggets context_database_service ;;
     database_name <- ggets context_database ;;
     schema_fqn <- call (fqn_build deps DatabaseSchema
                           [service_name; database_name; schema_name_]) ;;
     columns_ <- call (get_columns deps (table_columns table)) ;;
     let table_request :=
       {| name := table_name_;
          tableType := table_type;
          description := comment table;
          request_columns := columns_;
          tableConstraints := table_constraints_;
          databaseSchema := schema_fqn |} in
     gyield {| table_left := None; table_right := Some table_request |} ;;
     (if bool_decide (table_type = View)
         || truthy_str (table_view_definition table)
      then
        table_views_append
          (table_view db_name_ schema_name_ table_name_
             (table_view_definition table))
      else greturn tt) ;;
     call (register_record deps table_request))
    (fun exc => gyield (table_failure table_name_ exc)).

(** [yield from get_view_lineage(...)] *)
Definition yield_from {Y} (outcome : list Y * option Exn) : G Y unit :=
  fun s =>
    (match outcome.2 with
     | Some exc => Raise exc
     | None => Ok tt
     end, s, outcome.1).

Definition yield_view_lineage : G Either unit :=
  views <- ggets context_table_views ;;
  gfor (List.filter (fun v => bool_decide (view_definition v ≠ None)) views)
    (fun view =>
       service_name <- ggets context_database_service ;;
       yield_from (get_view_lineage deps view service_name)).

(** ** Reading a listing *)

(** What becomes of one listed name: it is yielded, or recorded as filtered
    under its fully-qualified name, or recorded as failed with the
    exception. *)
Inductive Listed :=
  | Yielded
  | Filtered (fqn : string)
  | Failed (exc : Exn).

Definition database_listed (service_name catalog_name : string) : Listed :=
  match fqn_build deps Database [service_name; catalog_name] with
  | Ok database_fqn =>
      match filter_by_database deps
              (if useFqnForFiltering deps
               then database_fqn else catalog_name) with
      | Ok true => Filtered database_fqn
      | Ok false => Yielded
      | Raise exc => Failed exc
      end
  | Raise exc => Failed exc
  end.

Definition schema_listed (service_name database_name schema : string)
    : Listed :=
  match fqn_build deps DatabaseSchema
          [service_name; database_name; schema] with
  | Ok schema_fqn =>
      match filter_by_schema deps
              (if useFqnForFiltering deps then schema_fqn else schema) with
      | Ok true => Filtered schema_fqn
      | Ok false => Yielded
      | Raise exc => Failed exc
      end
  | Raise exc => Failed exc
  end.

End Source.

(** The names that are yielded, the records of those that are filtered and
    the records of those that fail, each in the order of the listing. *)
Definition yielded_names (listed : string → Listed) (names : list string)
    : list string :=
  omap (fun name =>
          match listed name with
          | Yielded => Some name
          | _ => None
          end) names.

Definition filtered_records (reason : string) (listed : string → Listed)
    (names : list string) : list (string * string) :=
  omap (fun name =>
          match listed name with
          | Filtered fqn => Some (fqn, reason)
          | _ => None
          end) names.

Definition failure_records (failure : string → Exn → StackTraceError)
    (listed : string → Listed) (names : list string)
    : list StackTraceError :=
  omap (fun name =>
          match listed name with
          | Failed exc => Some (failure name exc)
          | _ => None
          end) names.

(** How an iterator ends. *)
Definition iter_end (exc : option Exn) : Res unit :=
  match exc with
  | Some e => Raise e
  | None => Ok tt
  end.

End Unitycatalog.

(** ** More of the concrete source

    Stages, nodes and listings for the corners of the runner, and a small
    Unity Catalog. *)
Module Edge.
Import Demo.

(** A stage that must not overwrite and needs no acknowledgement *)
Definition database_stage : NodeStage :=
  {| type_ := Database;
     processor := "yield_database";
     context := Some "database";
     nullable := false;
     must_return := false;
     overwrite := false;
     cache_entities := true;
     use_cache := false;
     clear_context := false;
     consumer := ["database_service"] |}.

Definition sales : Obj := create_request "sales" "v1".
Definition sales_request : Either := request_of sales.

(** The remote store holds every entity, and force-overwrite is on *)
Definition forced : Env :=
  demo_env (always_found (entity "sales" "svc.sales" VNone)) [] true.

(** What the stage generator of the service gives after the service *)
Definition svc_then_orders : TopologyContext → Gen (option Either) :=
  fun _ => GYield (Some orders_request) (fun _ => GStop).

(** A listing that has the table [orders] twice, with the older fingerprint
    first *)
Definition relisted_tables : list Obj :=
  [entity "orders" "svc.orders" (VStr "H:v0");
   entity "orders" "svc.orders" (VStr "H:v1")].

(** A table node with a child that the topology does not have *)
Definition broken_node : TopologyNode :=
  {| producer := "get_tables_name_and_type";
     stages := [table_stage false];
     children := Some ["table"; "column"];
     post_process := None |}.

(** A node whose producer is not implemented, and the source with that
    producer *)
Definition procedure_node : TopologyNode :=
  {| producer := "get_stored_procedures";
     stages := [query_stage];
     children := None;
     post_process := Some ["yield_view_lineage"] |}.

Definition with_stored_procedures : Env :=
  {| generate_source_hash := generate_source_hash quiet;
     model_str := model_str quiet;
     fqn_from_stage := fqn_from_stage quiet;
     metadata_get_by_name := metadata_get_by_name quiet;
     metadata_list_all_entities := metadata_list_all_entities quiet;
     metadata_config := metadata_config quiet;
     producers := fun name =>
       if bool_decide (name = "get_stored_procedures")
       then Some (fun _ => None)
       else producers quiet name;
     processors := processors quiet;
     post_processors := post_processors quiet;
     get_topology_node := get_topology_node quiet |}.

(** The source whose service stage gives the request for the service and
    then the one for [orders] *)
Definition with_service_requests : Env :=
  {| generate_source_hash := generate_source_hash quiet;
     model_str := model_str quiet;
     fqn_from_stage := fqn_from_stage quiet;
     metadata_get_by_name := metadata_get_by_name quiet;
     metadata_list_all_entities := metadata_list_all_entities quiet;
     metadata_config := metadata_config quiet;
     producers := producers quiet;
     processors := fun name =>
       if bool_decide (name = "yield_create_request_database_service")
       then Some (fun _ ctx =>
                    Some (GYield (Some svc_request) svc_then_orders))
       else processors quiet name;
     post_processors := post_processors quiet;
     get_topology_node := get_topology_node quiet |}.

(** A run context that refuses the name [bad name]: its [fqn_from_stage]
    raises the [ValueError] of an invalid name.  The table stage gives an
    [Either] with neither side, the request for [bad name] and the request
    for [orders]. *)
Definition bad_name : Obj := create_request "bad name" "v1".

Definition three_requests : Generator (option Either) :=
  GenYield (Some empty_request) (fun _ =>
    GenYield (Some (request_of bad_name)) (fun _ =>
      GenYield (Some orders_request) (fun _ => GenStop))).

Definition strict_names : Collab.t :=
  {| Collab.generate_source_hash := Collab.generate_source_hash quiet;
     Collab.model_str := Collab.model_str quiet;
     Collab.fqn_from_stage := fun ctx stage entity_name =>
       match entity_name with
       | Some (CName name) =>
           if bool_decide (name = "bad name")
           then Raise (ValueError "Invalid name bad name")
           else Collab.fqn_from_stage quiet ctx stage entity_name
       | _ => Collab.fqn_from_stage quiet ctx stage entity_name
       end;
     Collab.metadata_get_by_name := Collab.metadata_get_by_name quiet;
     Collab.metadata_list_all_entities :=
       Collab.metadata_list_all_entities quiet;
     Collab.metadata_config := Collab.metadata_config quiet;
     Collab.producers := Collab.producers quiet;
     Collab.processors := fun name =>
       if bool_decide (name = "yield_table")
       then Some (fun _ _ => Some three_requests)
       else Collab.processors quiet name;
     Collab.post_processors := Collab.post_processors quiet;
     Collab.get_topology_node := Collab.get_topology_node quiet |}.

(** The table stage of [strict_names] after the [Either] with neither side
    has been skipped *)
Definition after_empty_request : State :=
  add_events (in_service ∅)
    [EvLog (DebugProcessingStage (table_stage false));
     EvLog (DebugTraceback (ValueError "Value unexpectedly None"));
     EvLog (WarningStageValueError (table_stage false)
              (ValueError "Value unexpectedly None"))].

End Edge.

Module UnityDemo.
Import Unitycatalog.

(** The catalog [main] with the schema [sales]; the table [orders] refers
    to [customers], and the view [recent] to a table whose name is not
    qualified *)
Definition customers_entity : Obj :=
  {[ "name" := VStr "customers";
     "fullyQualifiedName" := VStr "svc.main.sales.customers" ]}.

Definition orders_constraints : list DBTableConstraint :=
  [{| primary_key_constraint := Some {| pk_child_columns := ["id"] |};
      foreign_key_constraint := None |};
   {| primary_key_constraint := None;
      foreign_key_constraint :=
        Some {| fk_child_columns := ["customer_id"; "region"];
                fk_parent_columns := ["id"; "region"];
                fk_parent_table := "main.sales.customers" |} |};
   {| primary_key_constraint := None;
      foreign_key_constraint :=
        Some {| fk_child_columns := ["item_id"];
                fk_parent_columns := ["id"];
                fk_parent_table := "main.sales.items" |} |}].

Definition orders_info : TableInfo :=
  {| full_name := "main.sales.orders";
     table_columns := [];
     table_constraints := orders_constraints;
     comment := Some "orders of the shop";
     table_view_definition := None |}.

Definition recent_info : TableInfo :=
  {| full_name := "main.sales.recent";
     table_columns := [];
     table_constraints :=
       [{| primary_key_constraint := None;
           foreign_key_constraint :=
             Some {| fk_child_columns := ["order_id"];
                     fk_parent_columns := ["id"];
                     fk_parent_table := "orders" |} |}];
     comment := None;
     table_view_definition := Some "SELECT * FROM orders" |}.

Definition recent_lineage : Either :=
  {| left := None;
     right := Some (RAddLineage {[ "name" := VStr "orders" ]}
                      {[ "name" := VStr "recent" ]}) |}.

Definition demo_deps (catalog : option string) : Deps :=
  {| service_connection_catalog := catalog;
     catalogs_list := (["main"; "system"; "broken"], None);
     schemas_list := fun catalog_name =>
       if bool_decide (catalog_name = "offline")
       then (["sales"], Some (OtherException "connection lost"))
       else (["sales"; "information_schema"], None);
     tables_get := fun full_name_ =>
       if bool_decide (full_name_ = "main.sales.orders") then Ok orders_info
       else if bool_decide (full_name_ = "main.sales.recent")
       then Ok recent_info
       else Raise (OtherException "table not found");
     fqn_build := fun _ names =>
       if bool_decide ("broken" ∈ names)
       then Raise (OtherException "invalid name")
       else Ok (String.concat "." names);
     filter_by_database := fun name_ => Ok (bool_decide (name_ = "system"));
     filter_by_schema := fun name_ =>
       Ok (bool_decide (name_ = "information_schema"));
     useFqnForFiltering := false;
     fqn_split := fun fqn =>
       if bool_decide (fqn = "main.sales.customers")
       then Ok ["main"; "sales"; "customers"]
       else if bool_decide (fqn = "main.sales.items")
       then Ok ["main"; "sales"; "items"]
       else Ok [fqn];
     search_table_from_es := fun table_name_ _ _ _ =>
       if bool_decide (table_name_ = "customers")
       then Some customers_entity else None;
     get_column_fqn := fun _ column =>
       if bool_decide (column = "id")
       then Some "svc.main.sales.customers.id" else None;
     get_columns := fun _ => Ok [];
     register_record := fun _ => Ok tt;
     get_view_lineage := fun _ _ => ([recent_lineage], None);
     exc_str := fun exc =>
       match exc with
       | OtherException msg => msg
       | _ => "error"
       end;
     format_exc := fun _ => "Traceback (most recent call last)" |}.

(** The source at the table with the given full name, with no view
    registered yet *)
Definition at_table (full_name_ : string) : Source :=
  {| context_database_service := "svc";
     context_database := "main";
     context_database_schema := "sales";
     context_table_data := full_name_;
     context_table_views := [];
     status_filtered := [];
     status_failures := [] |}.

(** The source in the catalog [offline], whose listing of schemas breaks
    off after the first *)
Definition in_offline_catalog : Source :=
  {| context_database_service := "svc";
     context_database := "offline";
     context_database_schema := "";
     context_table_data := "";
     context_table_views := [];
     status_filtered := [];
     status_failures := [] |}.

End UnityDemo.

(** * Properties *)

(** ** Traces and the monad *)

Lemma yields_of_app tr1 tr2 :
  yields_of (tr1 ++ tr2) = yields_of tr1 ++ yields_of tr2.
Proof. apply omap_app. Qed.

Lemma remote_calls_of_app tr1 tr2 :
  remote_calls_of (tr1 ++ tr2) = remote_calls_of tr1 ++ remote_calls_of tr2.
Proof. apply List.filter_app. Qed.

Lemma yields_of_polls n ty fqn :
  yields_of (replicate n (EvGetByName ty fqn)) = [].
Proof. induction n; simpl; auto. Qed.

Lemma add_events_nil s : add_events s [] = s.
Proof. destruct s; unfold add_events; simpl; by rewrite app_nil_r. Qed.

Lemma add_events_app s evs1 evs2 :
  add_events (add_events s evs1) evs2 = add_events s (evs1 ++ evs2).
Proof. unfold add_events; simpl; by rewrite app_assoc. Qed.

(** A generator that only reads is looped over as such. *)
Lemma for_generator_reading {A} (g : Gen A) (body : A → M unit) s :
  for_generator (reading g) body s = for_gen g body s.
Proof.
  revert s. induction g as [| e | a k IH]; intros s; [done|done|].
  cbn [reading for_generator for_gen]. unfold bind.
  destruct (body a s) as [[[]|e] s1]; [|done].
  unfold gets. apply IH.
Qed.

Lemma default_reading {A} (g : option (Gen A)) :
  default GenStop (option_map reading g) = reading (default GStop g).
Proof. by destruct g. Qed.

(** Collaborators that behave: their calls reduce to their answers. *)
Ltac behave :=
  cbn [behaved call Collab.generate_source_hash Collab.model_str
       Collab.fqn_from_stage Collab.metadata_get_by_name
       Collab.metadata_list_all_entities Collab.metadata_config
       Collab.producers Collab.processors Collab.post_processors
       Collab.get_topology_node].

Section Dispatcher.
Context (env : Env).

Lemma bind_ok {A B} (m : M A) (f : A → M B) s a s' :
  m s = (Ok a, s') → bind m f s = f a s'.
Proof. unfold bind; by intros ->. Qed.

Lemma bind_raise {A B} (m : M A) (f : A → M B) s e s' :
  m s = (Raise e, s') → bind m f s = (Raise e, s').
Proof. unfold bind; by intros ->. Qed.

Lemma getattr_run (o : Obj) attr v s :
  o !! attr = Some v → getattr o attr s = (Ok v, s).
Proof. unfold getattr; by intros ->. Qed.

Lemma attempt_shift tr ty fqn i :
  attempt env (tr ++ [EvGetByName ty fqn]) ty fqn i
  = attempt env tr ty fqn (S i).
Proof. unfold attempt. by rewrite <- app_assoc. Qed.

Lemma ack_poll_all_none tries ty fqn s :
  (∀ i, i < tries → attempt env (trace s) ty fqn i = None) →
  ack_poll env tries ty fqn None s
  = (Ok None, add_events s (replicate tries (EvGetByName ty fqn))).
Proof.
  revert s. induction tries as [|tries IH]; intros s Hnone.
  - simpl. by rewrite add_events_nil.
  - simpl. unfold bind at 1. unfold get_by_name. behave.
    unfold bind, gets, emit, ret.
    pose proof (Hnone 0 ltac:(lia)) as H0. unfold attempt in H0.
    simpl in H0. rewrite app_nil_r in H0. rewrite H0.
    rewrite IH.
    + by rewrite add_events_app.
    + intros i Hi. simpl. rewrite attempt_shift. apply Hnone. lia.
Qed.

Lemma ack_poll_first_some tries ty fqn s i e :
  i < tries →
  attempt env (trace s) ty fqn i = Some e →
  (∀ j, j < i → attempt env (trace s) ty fqn j = None) →
  ack_poll env tries ty fqn None s
  = (Ok (Some e), add_events s (replicate (S i) (EvGetByName ty fqn))).
Proof.
  revert tries s. induction i as [|i IH]; intros tries s Hlt Hsome Hnone.
  - destruct tries as [|tries]; [lia|].
    simpl. unfold bind at 1. unfold get_by_name. behave.
    unfold bind, gets, emit, ret.
    unfold attempt in Hsome. simpl in Hsome. rewrite app_nil_r in Hsome.
    rewrite Hsome. by destruct tries.
  - destruct tries as [|tries]; [lia|].
    simpl. unfold bind at 1. unfold get_by_name. behave.
    unfold bind, gets, emit, ret.
    pose proof (Hnone 0 ltac:(lia)) as H0. unfold attempt in H0.
    simpl in H0. rewrite app_nil_r in H0. rewrite H0.
    rewrite (IH tries); [by rewrite add_events_app | lia | |].
    + simpl. by rewrite attempt_shift.
    + intros j Hj. simpl. rewrite attempt_shift. apply Hnone. lia.
Qed.

(** Every row of polls either meets a first answer or has none. *)
Lemma attempts_cases tr ty fqn tries :
  (∀ i, i < tries → attempt env tr ty fqn i = None) ∨
  (∃ i e, i < tries ∧ attempt env tr ty fqn i = Some e ∧
          ∀ j, j < i → attempt env tr ty fqn j = None).
Proof.
  induction tries as [|tries IH].
  - left. intros i Hi. lia.
  - destruct IH as [Hnone | Hsome].
    + destruct (attempt env tr ty fqn tries) as [e|] eqn:Hlast.
      * right. exists tries, e. split; [lia|]. split; [done|]. done.
      * left. intros i Hi. destruct (decide (i = tries)) as [->|]; [done|].
        apply Hnone. lia.
    + right. destruct Hsome as (i & e & Hi & He & Hbefore).
      exists i, e. split; [lia|]. done.
Qed.

Lemma await_ack_skip stage fqn entity s :
  must_return stage && bool_decide (entity = None) = false →
  await_ack env stage fqn entity s = (Ok tt, s).
Proof. unfold await_ack. by intros ->. Qed.

Lemma await_ack_events stage fqn entity s :
  ∃ k, k ≤ 3 ∧
    (await_ack env stage fqn entity s).2
    = add_events s (replicate k (EvGetByName (type_ stage) fqn)) ∧
    (must_return stage = false → k = 0) ∧
    (is_Some entity → k = 0) ∧
    (must_return stage = true → entity = None → 1 ≤ k) ∧
    (k = 0 → (await_ack env stage fqn entity s).1 = Ok tt).
Proof.
  destruct (must_return stage && bool_decide (entity = None)) eqn:Hgo.
  - apply andb_true_iff in Hgo as [Hmr Hnone].
    apply bool_decide_eq_true in Hnone. subst entity.
    unfold await_ack, when. rewrite Hmr.
    rewrite bool_decide_eq_true_2 by done. cbn [andb].
    destruct (attempts_cases (trace s) (type_ stage) fqn 3)
      as [Hnone | (i & e & Hi & He & Hbefore)].
    + exists 3. unfold bind. rewrite (ack_poll_all_none _ _ _ _ Hnone).
      simpl. repeat split; try lia; try done.
    + exists (S i). unfold bind.
      rewrite (ack_poll_first_some _ _ _ _ _ _ Hi He Hbefore).
      simpl. repeat split; try lia; try done.
  - exists 0. rewrite (await_ack_skip _ _ _ _ Hgo). simpl.
    rewrite add_events_nil. repeat split; try lia; try done.
    + intros Hmr Hent. rewrite Hmr in Hgo. subst. done.
Qed.


Lemma lookup_unless_overwrite_unresolved stage fqn s :
  (negb (overwrite stage) && negb (_is_force_overwrite_enabled env) = true →
   metadata_get_by_name env (trace s) (type_ stage) fqn = None) →
  lookup_unless_overwrite env stage fqn s
  = (Ok (None, false), add_events s (prior_lookup env stage fqn)).
Proof.
  intros Hnone. unfold lookup_unless_overwrite, prior_lookup.
  destruct (negb (overwrite stage) && negb (_is_force_overwrite_enabled env)).
  - unfold get_by_name. behave.
    unfold bind, gets, emit, ret. by rewrite Hnone.
  - unfold ret. by rewrite add_events_nil.
Qed.

Lemma lookup_unless_overwrite_found stage fqn s found :
  overwrite stage = false →
  _is_force_overwrite_enabled env = false →
  metadata_get_by_name env (trace s) (type_ stage) fqn = Some found →
  lookup_unless_overwrite env stage fqn s
  = (Ok (Some found, true),
     add_events s [EvGetByName (type_ stage) fqn]).
Proof.
  intros Ho Hf Hfound. unfold lookup_unless_overwrite.
  rewrite Ho, Hf. cbn [negb andb].
  unfold get_by_name. behave.
    unfold bind, gets, emit, ret. by rewrite Hfound.
Qed.

Lemma attach_source_hash_run (o : Obj) s :
  is_Some (o !! "sourceHash") →
  attach_source_hash env o s
  = (Ok (VStr (generate_source_hash env o),
         <["sourceHash" := VStr (generate_source_hash env o)]> o),
     add_events s [EvSourceHash o]).
Proof.
  intros Hattr. unfold attach_source_hash.
  by rewrite bool_decide_eq_true_2.
Qed.

Lemma attach_source_hash_skip (o : Obj) s :
  o !! "sourceHash" = None →
  attach_source_hash env o s = (Ok (VNone, o), s).
Proof.
  intros Hattr. unfold attach_source_hash.
  rewrite bool_decide_eq_false_2; [done|].
  rewrite Hattr. by intros [? ?].
Qed.

Lemma cache_get_run ty fqn s :
  cache_get ty fqn s
  = (Ok (cache_lookup s ty fqn),
     add_events (touch_cache s ty) [EvCacheGet ty fqn]).
Proof.
  unfold cache_get, cache_of_type, cache_lookup, touch_cache.
  unfold bind at 1. unfold bind at 1. unfold gets at 1.
  destruct (self_cache s !! ty) as [d|] eqn:Hd; simpl.
  - done.
  - done.
Qed.

Lemma touch_cache_present s ty d :
  self_cache s !! ty = Some d → touch_cache s ty = s.
Proof. unfold touch_cache. intros ->. by destruct s. Qed.

Lemma update_context_name_run stage (o : Obj) n slot s :
  o !! "name" = Some n →
  context stage = Some slot →
  update_context_name env stage o s
  = (Ok tt,
     {| self_context := <[slot := CName (model_str env n)]> (self_context s);
        self_cache := self_cache s;
        trace := trace s |}).
Proof.
  intros Hn Hslot. unfold update_context_name, update_context_value.
  unfold bind. rewrite (getattr_run _ _ _ _ Hn). by rewrite Hslot.
Qed.

Lemma update_context_name_trace stage (o : Obj) s :
  trace (update_context_name env stage o s).2 = trace s.
Proof.
  unfold update_context_name, update_context_value, getattr, bind.
  destruct (o !! "name"); [|done].
  by destruct (context stage).
Qed.

(** What follows the yield adds the polls of the acknowledgement to the
    trace and nothing else. *)
Lemma after_yield_events stage fqn entity (o : Obj) s :
  ∃ k, k ≤ 3 ∧
    trace ((await_ack env stage fqn entity ;;
            update_context_name env stage o) s).2
    = trace s ++ replicate k (EvGetByName (type_ stage) fqn) ∧
    (must_return stage = false → k = 0) ∧
    (is_Some entity → k = 0) ∧
    (must_return stage = true → entity = None → 1 ≤ k).
Proof.
  destruct (await_ack_events stage fqn entity s)
    as (k & Hk & Hs & Hmr & Hent & Hpos & _).
  exists k. split; [done|]. split; [|done].
  unfold bind. destruct (await_ack env stage fqn entity s) as [[[]|e] s1];
    simpl in *; subst s1; [|done].
  by rewrite update_context_name_trace.
Qed.

Lemma sink_request_model stage er (o : Obj) s :
  right er = Some (RModel o) →
  context_bound stage = true →
  sink_request env stage (Some er) s
  = yield_and_update_context_default env o stage er s.
Proof.
  intros Hr Hb. unfold sink_request. rewrite Hr, Hb.
  rewrite bool_decide_eq_false_2 by done. by rewrite andb_false_r.
Qed.

Lemma compare_with_cache_skip stage fqn entity same h (o : Obj) s :
  bool_decide (entity = None) && use_cache stage = false →
  compare_with_cache env stage fqn entity same h o s
  = (Ok (entity, same, RModel o), s).
Proof. unfold compare_with_cache. by intros ->. Qed.

Lemma compare_with_cache_miss stage fqn same h (o : Obj) s :
  use_cache stage = true →
  cache_lookup s (type_ stage) fqn = None →
  compare_with_cache env stage fqn None same h o s
  = (Ok (None, same, RModel o),
     add_events (touch_cache s (type_ stage))
       [EvCacheGet (type_ stage) fqn]).
Proof.
  intros Hc Hmiss. unfold compare_with_cache. rewrite Hc.
  rewrite bool_decide_eq_true_2 by done. cbn [andb].
  unfold bind. rewrite cache_get_run. by rewrite Hmiss.
Qed.

Lemma compare_with_cache_same stage fqn same h (o : Obj) s :
  use_cache stage = true →
  cache_lookup s (type_ stage) fqn = Some h →
  truthy h = true →
  compare_with_cache env stage fqn None same h o s
  = (Ok (None, true, RModel o),
     add_events s [EvCacheGet (type_ stage) fqn;
                   EvLog (DebugNoChanges (type_ stage) fqn)]).
Proof.
  intros Hc Hhit Ht. unfold compare_with_cache. rewrite Hc.
  rewrite bool_decide_eq_true_2 by done. cbn [andb].
  unfold bind at 1. rewrite cache_get_run. rewrite Hhit, Ht.
  rewrite bool_decide_eq_false_2 by (intros Hne; by apply Hne).
  unfold cache_lookup in Hhit.
  destruct (self_cache s !! type_ stage) as [d|] eqn:Hd; [|done].
  rewrite (touch_cache_present _ _ _ Hd).
  unfold bind, log, emit, ret. by rewrite add_events_app.
Qed.

Lemma compare_with_cache_differs stage fqn same cached h (o : Obj) s :
  use_cache stage = true →
  cache_lookup s (type_ stage) fqn = Some cached →
  truthy cached = true →
  cached ≠ h →
  let fetched :=
    metadata_get_by_name env (trace s ++ [EvCacheGet (type_ stage) fqn])
      (type_ stage) fqn in
  compare_with_cache env stage fqn None same h o s
  = (Ok (fetched, same,
         match fetched with
         | Some original => create_patch_request original o
         | None => RModel o
         end),
     add_events s [EvCacheGet (type_ stage) fqn;
                   EvGetByName (type_ stage) fqn]).
Proof.
  intros Hc Hhit Ht Hne fetched. unfold compare_with_cache. rewrite Hc.
  rewrite bool_decide_eq_true_2 by done. cbn [andb].
  unfold bind at 1. rewrite cache_get_run. rewrite Hhit, Ht.
  rewrite bool_decide_eq_true_2 by done.
  unfold cache_lookup in Hhit.
  destruct (self_cache s !! type_ stage) as [d|] eqn:Hd; [|done].
  rewrite (touch_cache_present _ _ _ Hd).
  unfold bind, get_by_name, gets, emit, ret, bind. simpl.
  fold fetched. rewrite add_events_app. by destruct fetched.
Qed.

Lemma yields_of_prior_lookup stage fqn :
  yields_of (prior_lookup env stage fqn) = [].
Proof. unfold prior_lookup. by case_match. Qed.

(** The default dispatch up to the comparison, for a request that has a
    name and that no lookup has resolved. *)
Lemma default_unresolved stage er (o : Obj) n s :
  let fqn :=
    fqn_from_stage env (self_context s) stage (CName (model_str env n)) in
  o !! "name" = Some n →
  is_Some (o !! "sourceHash") →
  (negb (overwrite stage) && negb (_is_force_overwrite_enabled env) = true →
   metadata_get_by_name env (trace s) (type_ stage) fqn = None) →
  let h := generate_source_hash env o in
  let o1 := <["sourceHash" := VStr h]> o in
  let s1 := add_events s (prior_lookup env stage fqn ++ [EvSourceHash o]) in
  yield_and_update_context_default env o stage er s
  = (compared <- compare_with_cache env stage fqn None false (VStr h) o1 ;;
     when (negb compared.1.2)
       (yield_ {| left := left er; right := Some compared.2 |}) ;;
     await_ack env stage fqn compared.1.1 ;;
     update_context_name env stage o1) s1.
Proof.
  intros fqn Hn Hattr Hprior h o1 s1.
  unfold yield_and_update_context_default.
  unfold bind at 1. rewrite (getattr_run _ _ _ _ Hn).
  unfold bind at 1. unfold gets at 1. behave.
  unfold bind at 1. unfold ret at 1. fold fqn.
  unfold bind at 1.
  rewrite (lookup_unless_overwrite_unresolved stage fqn s Hprior).
  unfold bind at 1.
  rewrite (attach_source_hash_run o _ Hattr).
  rewrite add_events_app. done.
Qed.

(** C3.  A request with a name and a [sourceHash] field reaches a
    context-bound caching stage; no earlier lookup has resolved the entity
    and the fingerprint cache has no entry for its fully-qualified name.
    Then the dispatcher computes the fingerprint, reads the cache and at
    once yields the create request with the fingerprint stored in
    [sourceHash]: no remote call stands between the cache read and the
    yield.  The only remote calls of the whole dispatch are the lookup of a
    non-overwrite stage before the comparison and, on a [must_return]
    stage, the polls after the yield. *)
Theorem cache_miss_yields_create_with_fingerprint
    stage er (o : Obj) n s :
  let fqn :=
    fqn_from_stage env (self_context s) stage (CName (model_str env n)) in
  let create :=
    {| left := left er;
       right := Some (RModel (<["sourceHash" :=
                                 VStr (generate_source_hash env o)]> o)) |} in
  let s' := (sink_request env stage (Some er) s).2 in
  context_bound stage = true →
  use_cache stage = true →
  right er = Some (RModel o) →
  o !! "name" = Some n →
  is_Some (o !! "sourceHash") →
  (negb (overwrite stage) && negb (_is_force_overwrite_enabled env) = true →
   metadata_get_by_name env (trace s) (type_ stage) fqn = None) →
  cache_lookup s (type_ stage) fqn = None →
  yields_of (trace s') = yields_of (trace s) ++ [create] ∧
  ∃ k, k ≤ 3 ∧ (must_return stage = false → k = 0) ∧
    trace s'
    = trace s ++ prior_lookup env stage fqn
        ++ [EvSourceHash o; EvCacheGet (type_ stage) fqn; EvYield create]
        ++ replicate k (EvGetByName (type_ stage) fqn).
Proof.
  intros fqn create s' Hb Hc Hr Hn Hattr Hprior Hmiss.
  assert (∃ k, k ≤ 3 ∧ (must_return stage = false → k = 0) ∧
    trace s'
    = trace s ++ prior_lookup env stage fqn
        ++ [EvSourceHash o; EvCacheGet (type_ stage) fqn; EvYield create]
        ++ replicate k (EvGetByName (type_ stage) fqn)) as Htrace.
  { subst s'. rewrite (sink_request_model _ _ _ _ Hr Hb).
    rewrite (default_unresolved stage er o n s Hn Hattr Hprior).
    unfold bind at 1.
    rewrite compare_with_cache_miss by done.
    cbn [fst snd negb when]. unfold bind at 1, yield_, emit.
    match goal with
    | |- context [bind (await_ack _ stage ?f ?e) _ ?st] =>
        destruct (after_yield_events stage f e
                    (<["sourceHash" := VStr (generate_source_hash env o)]> o)
                    st) as (k & Hk & Htr & Hmr & _)
    end.
    exists k. split; [done|]. split; [done|].
    rewrite Htr. simpl. rewrite <- !app_assoc. done. }
  split; [|done].
  destruct Htrace as (k & _ & _ & ->).
  rewrite !yields_of_app, yields_of_prior_lookup, yields_of_polls.
  done.
Qed.

(** C1, amended.  A request with a name and a [sourceHash] field reaches a
    context-bound caching stage; no earlier lookup has resolved the entity
    and the fingerprint cache holds, for its fully-qualified name, the
    non-empty fingerprint computed for the request.  Then nothing is
    yielded, and the comparison makes no remote call.  The remote calls of
    the dispatch are the lookup of a non-overwrite stage before the
    comparison and, on a [must_return] stage, one to three polls after it;
    on a stage that is allowed to overwrite and is not [must_return] there
    is no remote call at all. *)
Theorem cache_hit_same_fingerprint_suppresses_write
    stage er (o : Obj) n s :
  let fqn :=
    fqn_from_stage env (self_context s) stage (CName (model_str env n)) in
  let h := generate_source_hash env o in
  let s' := (sink_request env stage (Some er) s).2 in
  context_bound stage = true →
  use_cache stage = true →
  right er = Some (RModel o) →
  o !! "name" = Some n →
  is_Some (o !! "sourceHash") →
  (negb (overwrite stage) && negb (_is_force_overwrite_enabled env) = true →
   metadata_get_by_name env (trace s) (type_ stage) fqn = None) →
  cache_lookup s (type_ stage) fqn = Some (VStr h) →
  h ≠ "" →
  yields_of (trace s') = yields_of (trace s) ∧
  (∃ k, k ≤ 3 ∧
     (must_return stage = false → k = 0) ∧
     (must_return stage = true → 1 ≤ k) ∧
     trace s'
     = trace s ++ prior_lookup env stage fqn
         ++ [EvSourceHash o; EvCacheGet (type_ stage) fqn;
             EvLog (DebugNoChanges (type_ stage) fqn)]
         ++ replicate k (EvGetByName (type_ stage) fqn)) ∧
  (must_return stage = false →
   negb (overwrite stage) && negb (_is_force_overwrite_enabled env) = false →
   remote_calls_of (trace s') = remote_calls_of (trace s)).
Proof.
  intros fqn h s' Hb Hc Hr Hn Hattr Hprior Hhit Hne.
  assert (∃ k, k ≤ 3 ∧
     (must_return stage = false → k = 0) ∧
     (must_return stage = true → 1 ≤ k) ∧
     trace s'
     = trace s ++ prior_lookup env stage fqn
         ++ [EvSourceHash o; EvCacheGet (type_ stage) fqn;
             EvLog (DebugNoChanges (type_ stage) fqn)]
         ++ replicate k (EvGetByName (type_ stage) fqn)) as Htrace.
  { subst s'. rewrite (sink_request_model _ _ _ _ Hr Hb).
    rewrite (default_unresolved stage er o n s Hn Hattr Hprior).
    unfold bind at 1.
    rewrite compare_with_cache_same;
      [| done | done | by apply bool_decide_eq_true_2].
    cbn [fst snd negb when]. unfold bind at 1, ret.
    match goal with
    | |- context [bind (await_ack _ stage ?f ?e) _ ?st] =>
        destruct (after_yield_events stage f e
                    (<["sourceHash" := VStr (generate_source_hash env o)]> o)
                    st) as (k & Hk & Htr & Hmr & _ & Hpos)
    end.
    exists k. split; [done|]. split; [done|].
    split; [by intros; apply Hpos|].
    rewrite Htr. simpl. rewrite <- !app_assoc. done. }
  split; [|split; [done|]].
  - destruct Htrace as (k & _ & _ & _ & ->).
    rewrite !yields_of_app, yields_of_prior_lookup, yields_of_polls.
    simpl. by rewrite app_nil_r.
  - intros Hmr Hno. destruct Htrace as (k & _ & Hk & _ & ->).
    rewrite (Hk Hmr). unfold prior_lookup. rewrite Hno.
    rewrite !remote_calls_of_app. simpl. by rewrite app_nil_r.
Qed.

(** The copy made for a patch has every field of the create request, and
    every other field as the original entity has it. *)
Lemma create_patch_request_merge (original create_request : Obj) :
  ∃ new_entity,
    create_patch_request original create_request
    = RPatch original new_entity ∧
    (∀ f v, create_request !! f = Some v → new_entity !! f = Some v) ∧
    (∀ f, create_request !! f = None → new_entity !! f = original !! f).
Proof.
  exists (create_request ∪ original). split; [done|]. split.
  - intros f v Hf. by apply lookup_union_Some_l.
  - intros f Hf. by apply lookup_union_r.
Qed.

(** C2, amended.  A request with a name and a [sourceHash] field reaches a
    context-bound caching stage; no earlier lookup has resolved the entity
    and the fingerprint cache holds, for its fully-qualified name, a
    non-empty fingerprint other than the one computed for the request.
    Then the dispatcher fetches the entity by name, once.  If the fetch
    gives the entity, what is yielded is a patch request whose original is
    the fetched entity and whose new entity has every field of the request
    (its new fingerprint among them) and every other field as the original
    has it; no poll follows.  If the fetch gives nothing, the create
    request is yielded with its fingerprint. *)
Theorem cache_hit_changed_fingerprint_yields_patch
    stage er (o : Obj) n cached s :
  let ty := type_ stage in
  let fqn :=
    fqn_from_stage env (self_context s) stage (CName (model_str env n)) in
  let o1 := <["sourceHash" := VStr (generate_source_hash env o)]> o in
  let before_fetch :=
    trace s ++ prior_lookup env stage fqn
      ++ [EvSourceHash o; EvCacheGet ty fqn] in
  let fetched := metadata_get_by_name env before_fetch ty fqn in
  let outcome :=
    {| left := left er;
       right := Some match fetched with
                     | Some original => create_patch_request original o1
                     | None => RModel o1
                     end |} in
  let s' := (sink_request env stage (Some er) s).2 in
  context_bound stage = true →
  use_cache stage = true →
  right er = Some (RModel o) →
  o !! "name" = Some n →
  is_Some (o !! "sourceHash") →
  (negb (overwrite stage) && negb (_is_force_overwrite_enabled env) = true →
   metadata_get_by_name env (trace s) ty fqn = None) →
  cache_lookup s ty fqn = Some cached →
  truthy cached = true →
  cached ≠ VStr (generate_source_hash env o) →
  yields_of (trace s') = yields_of (trace s) ++ [outcome] ∧
  (∃ k, k ≤ 3 ∧
     (must_return stage = false → k = 0) ∧
     (is_Some fetched → k = 0) ∧
     trace s'
     = before_fetch ++ [EvGetByName ty fqn; EvYield outcome]
         ++ replicate k (EvGetByName ty fqn)) ∧
  (∀ original, fetched = Some original →
     ∃ new_entity,
       right outcome = Some (RPatch original new_entity) ∧
       (∀ f v, o1 !! f = Some v → new_entity !! f = Some v) ∧
       (∀ f, o1 !! f = None → new_entity !! f = original !! f)).
Proof.
  intros ty fqn o1 before_fetch fetched outcome s'
    Hb Hc Hr Hn Hattr Hprior Hhit Ht Hne.
  assert (∃ k, k ≤ 3 ∧
     (must_return stage = false → k = 0) ∧
     (is_Some fetched → k = 0) ∧
     trace s'
     = before_fetch ++ [EvGetByName ty fqn; EvYield outcome]
         ++ replicate k (EvGetByName ty fqn)) as Htrace.
  { subst s' outcome fetched before_fetch o1 fqn ty.
    rewrite (sink_request_model _ _ _ _ Hr Hb).
    rewrite (default_unresolved stage er o n s Hn Hattr Hprior).
    unfold bind at 1.
    rewrite (compare_with_cache_differs stage _ false cached) by done.
    cbn [fst snd negb when]. unfold bind at 1, yield_, emit.
    unfold add_events. cbn [trace self_context self_cache].
    rewrite <- !app_assoc. cbn [app].
    match goal with
    | |- context [bind (await_ack _ stage ?f ?e) _ ?st] =>
        destruct (after_yield_events stage f e
                    (<["sourceHash" := VStr (generate_source_hash env o)]> o)
                    st) as (k & Hk & Htr & Hmr & Hres & _)
    end.
    exists k. split; [done|]. split; [done|]. split; [done|].
    rewrite Htr. cbn [trace]. rewrite <- !app_assoc. reflexivity. }
  split; [|split; [done|]].
  - destruct Htrace as (k & _ & _ & _ & ->). subst before_fetch.
    rewrite !yields_of_app, yields_of_prior_lookup, yields_of_polls.
    simpl. by rewrite !app_nil_r.
  - intros original Hf. subst outcome. cbn [right]. rewrite Hf.
    destruct (create_patch_request_merge original o1)
      as (new_entity & -> & Hnew & Hold).
    by exists new_entity.
Qed.

(** The whole dispatch on a stage that must not overwrite, when the
    lookup finds the entity. *)
Lemma non_overwrite_found_run stage er (o : Obj) n slot found s :
  let fqn :=
    fqn_from_stage env (self_context s) stage (CName (model_str env n)) in
  context stage = Some slot →
  slot ≠ "" →
  right er = Some (RModel o) →
  o !! "name" = Some n →
  overwrite stage = false →
  _is_force_overwrite_enabled env = false →
  metadata_get_by_name env (trace s) (type_ stage) fqn = Some found →
  sink_request env stage (Some er) s
  = (Ok tt,
     {| self_context :=
          <[slot := CName (model_str env n)]> (self_context s);
        self_cache := self_cache s;
        trace := trace s ++ EvGetByName (type_ stage) fqn
                   :: match o !! "sourceHash" with
                      | Some _ => [EvSourceHash o]
                      | None => []
                      end |}).
Proof.
  intros fqn Hslot Hne Hr Hn Ho Hf Hfound.
  assert (context_bound stage = true) as Hb.
  { unfold context_bound. rewrite Hslot. by apply bool_decide_eq_true_2. }
  rewrite (sink_request_model _ _ _ _ Hr Hb).
  unfold yield_and_update_context_default.
  unfold bind at 1. rewrite (getattr_run _ _ _ _ Hn).
  unfold bind at 1. unfold gets at 1. behave.
  unfold bind at 1. unfold ret at 1. fold fqn.
  unfold bind at 1.
  rewrite (lookup_unless_overwrite_found stage fqn s found Ho Hf Hfound).
  unfold bind at 1.
  destruct (o !! "sourceHash") as [v|] eqn:Hattr.
  - rewrite attach_source_hash_run by (by rewrite Hattr).
    unfold bind at 1. rewrite compare_with_cache_skip by done.
    cbn [fst snd negb when]. unfold bind at 1, ret.
    unfold bind at 1. rewrite await_ack_skip
      by (rewrite bool_decide_eq_false_2 by done; apply andb_false_r).
    rewrite (update_context_name_run stage _ n slot);
      [| by rewrite lookup_insert_ne | done].
    simpl. by rewrite <- app_assoc.
  - rewrite attach_source_hash_skip by done.
    unfold bind at 1. rewrite compare_with_cache_skip by done.
    cbn [fst snd negb when]. unfold bind at 1, ret.
    unfold bind at 1. rewrite await_ack_skip
      by (rewrite bool_decide_eq_false_2 by done; apply andb_false_r).
    by rewrite (update_context_name_run stage _ n slot).
Qed.

(** C5.  A request with a name reaches a context-bound stage that must not
    overwrite, force-overwrite is off, and the lookup by fully-qualified
    name finds an entity.  Then the dispatch makes that one remote call,
    yields nothing, raises nothing, and sets the context slot of the stage
    to the name the entity was looked up by: when the entity that the store
    gives is the one that was asked for, and so bears that name, the slot
    holds the name of the entity that was found. *)
Theorem non_overwrite_found_suppresses_write
    stage er (o : Obj) n slot found s :
  let fqn :=
    fqn_from_stage env (self_context s) stage (CName (model_str env n)) in
  let s' := (sink_request env stage (Some er) s).2 in
  context stage = Some slot →
  slot ≠ "" →
  right er = Some (RModel o) →
  o !! "name" = Some n →
  overwrite stage = false →
  _is_force_overwrite_enabled env = false →
  metadata_get_by_name env (trace s) (type_ stage) fqn = Some found →
  (sink_request env stage (Some er) s).1 = Ok tt ∧
  yields_of (trace s') = yields_of (trace s) ∧
  remote_calls_of (trace s')
  = remote_calls_of (trace s) ++ [EvGetByName (type_ stage) fqn] ∧
  self_context s'
  = <[slot := CName (model_str env n)]> (self_context s) ∧
  (∀ found_name,
     found !! "name" = Some found_name →
     model_str env found_name = model_str env n →
     self_context s'
     = <[slot := CName (model_str env found_name)]> (self_context s) ∧
     self_context s'
     = self_context (update_context_name env stage found s).2).
Proof.
  intros fqn s' Hslot Hne Hr Hn Ho Hf Hfound. subst s'.
  rewrite (non_overwrite_found_run stage er o n slot found s) by done.
  fold fqn. cbn [fst snd trace self_context].
  rewrite yields_of_app, remote_calls_of_app.
  split; [done|]. split; [|split; [|split; [done|]]].
  - destruct (o !! "sourceHash"); simpl; by rewrite app_nil_r.
  - by destruct (o !! "sourceHash").
  - intros found_name Hname Hsame.
    rewrite (update_context_name_run stage found found_name slot s)
      by done.
    cbn [snd self_context]. by rewrite Hsame.
Qed.

(** C10.  A request with a right value reaches a stage that is bound to no
    context slot.  Then the dispatch has one effect, the yield of the
    request as it came in: no fingerprint is computed, the request is not
    changed, no remote call is made, the fingerprint cache is not read, and
    the run context and the cache are as before. *)
Theorem sink_request_without_context_yields_unchanged stage er r s :
  context stage = None →
  right er = Some r →
  sink_request env stage (Some er) s
  = (Ok tt, add_events s [EvYield er]).
Proof.
  intros Hc Hr. unfold sink_request, context_bound. rewrite Hr, Hc.
  rewrite bool_decide_eq_false_2 by done. by rewrite andb_false_r.
Qed.

Lemma attach_source_hash_name (o : Obj) s h o1 s1 :
  attach_source_hash env o s = (Ok (h, o1), s1) →
  o1 !! "name" = o !! "name".
Proof.
  unfold attach_source_hash.
  destruct (bool_decide (is_Some (o !! "sourceHash"))).
  - unfold bind, source_hash, emit, call, ret. behave.
    intros [= _ <- _]. by rewrite lookup_insert_ne.
  - unfold ret. by intros [= _ <- _].
Qed.

(** C4.  A request with a name is dispatched on a context-bound
    [must_return] stage, and lines 258-300 (the lookup of a stage that must
    not overwrite, the fingerprint, the comparison with the cache) end
    without an entity.  Then, after the request has been yielded if it had
    to be, [sink_request] polls the remote store by the fully-qualified
    name and does nothing else, at least once and at most three times.  If
    the three polls all give nothing, [sink_request] raises
    [MissingExpectedEntityAckException] and the context slot is not set.
    If one of the three polls gives the entity, that poll is the last, no
    exception is raised and the slot of the stage is set. *)
Theorem must_return_polls_at_most_three_times
    stage er (o : Obj) n slot (same : bool) outcome h o1 s s2 :
  let ty := type_ stage in
  let fqn :=
    fqn_from_stage env (self_context s) stage (CName (model_str env n)) in
  let poll := EvGetByName ty fqn in
  let s3 :=
    if same then s2
    else add_events s2
           [EvYield {| left := left er; right := Some outcome |}] in
  let run := sink_request env stage (Some er) s in
  must_return stage = true →
  context stage = Some slot →
  slot ≠ "" →
  right er = Some (RModel o) →
  o !! "name" = Some n →
  (found <- lookup_unless_overwrite env stage fqn ;;
   hashed <- attach_source_hash env o ;;
   compared <- compare_with_cache env stage fqn found.1 found.2
                 hashed.1 hashed.2 ;;
   ret (compared, hashed)) s
  = (Ok ((None, same, outcome), (h, o1)), s2) →
  (∃ k, 1 ≤ k ≤ 3 ∧ trace run.2 = trace s3 ++ replicate k poll) ∧
  ((∀ i, i < 3 → attempt env (trace s3) ty fqn i = None) →
   run = (Raise (MissingExpectedEntityAckException ty fqn),
          add_events s3 (replicate 3 poll))) ∧
  (∀ i, i < 3 →
     is_Some (attempt env (trace s3) ty fqn i) →
     (∀ j, j < i → attempt env (trace s3) ty fqn j = None) →
     run = (Ok tt,
            with_context (add_events s3 (replicate (S i) poll))
              (<[slot := CName (model_str env n)]> (self_context s3)))).
Proof.
  intros ty fqn poll s3 run Hmr Hslot Hne Hr Hn Hpre.
  assert (context_bound stage = true) as Hb.
  { unfold context_bound. rewrite Hslot. by apply bool_decide_eq_true_2. }
  assert (o1 !! "name" = Some n ∧
          run = (await_ack env stage fqn None ;;
                 update_context_name env stage o1) s3) as [Hn1 Hrun].
  { subst run. rewrite (sink_request_model _ _ _ _ Hr Hb).
    unfold yield_and_update_context_default.
    unfold bind at 1. rewrite (getattr_run _ _ _ _ Hn).
    unfold bind at 1. unfold gets at 1. behave.
    unfold bind at 1. unfold ret at 1. fold fqn.
    unfold bind in Hpre.
    destruct (lookup_unless_overwrite env stage fqn s)
      as [[found|e] sa] eqn:Hfound; [|done].
    destruct (attach_source_hash env o sa) as [[hashed|e] sb] eqn:Hhash;
      [|done].
    destruct (compare_with_cache env stage fqn found.1 found.2 hashed.1
                hashed.2 sb) as [[compared|e] sc] eqn:Hcompared; [|done].
    unfold ret in Hpre. injection Hpre as -> -> ->.
    split.
    - rewrite <- Hn. by eapply attach_source_hash_name.
    - unfold bind at 1. rewrite Hfound.
      unfold bind at 1. rewrite Hhash.
      unfold bind at 1. rewrite Hcompared.
      cbn [fst snd]. subst s3. unfold bind at 1.
      by destruct same. }
  assert (await_ack env stage fqn None s3
          = (entity <- ack_poll env 3 ty fqn None ;;
             match entity with
             | Some _ => ret tt
             | None => raise (MissingExpectedEntityAckException ty fqn)
             end) s3) as Hack.
  { unfold await_ack, when. rewrite Hmr.
    by rewrite bool_decide_eq_true_2. }
  split; [|split].
  - destruct (after_yield_events stage fqn None o1 s3)
      as (k & Hk & Htr & _ & _ & Hpos).
    exists k. split; [split; [by apply Hpos | done]|].
    by rewrite Hrun.
  - intros Hnone. rewrite Hrun. unfold bind at 1. rewrite Hack.
    unfold bind at 1. by rewrite (ack_poll_all_none _ _ _ _ Hnone).
  - intros i Hi [e He] Hbefore. rewrite Hrun. unfold bind at 1.
    rewrite Hack. unfold bind at 1.
    rewrite (ack_poll_first_some _ _ _ _ _ _ Hi He Hbefore).
    unfold ret at 1.
    by rewrite (update_context_name_run stage o1 n slot).
Qed.

End Dispatcher.

(** ** The fingerprint store *)

Section FingerprintStore.
Context (env : Env).

Lemma cache_lookup_dict s ty k : cache_lookup s ty k = cache_dict s ty !! k.
Proof.
  unfold cache_lookup, cache_dict.
  by destruct (self_cache s !! ty).
Qed.

Lemma cache_set_run ty k v s :
  cache_set ty k v s
  = (Ok tt,
     {| self_context := self_context s;
        self_cache := <[ty := <[k := v]> (cache_dict s ty)]> (self_cache s);
        trace := trace s |}).
Proof.
  unfold cache_set, cache_of_type, cache_dict, bind, gets, set_cache, ret.
  destruct (self_cache s !! ty) as [d|] eqn:Hd; simpl; [done|].
  by rewrite insert_insert_eq.
Qed.

(** One round of the loop of [get_fqn_source_hash_dict]. *)
Lemma record_source_hash_run ty (entity : Obj) s :
  listed_entity entity →
  ∃ s', record_source_hash env ty entity s = (Ok tt, s') ∧
    self_context s' = self_context s ∧
    trace s' = trace s ∧
    cache_dict s' ty = recorded env (cache_dict s ty) entity ∧
    (∀ ty', ty' ≠ ty → self_cache s' !! ty' = self_cache s !! ty').
Proof.
  intros [[h Hh] [f Hf]]. unfold record_source_hash, recorded.
  unfold bind at 1. rewrite (getattr_run _ _ _ _ Hh). rewrite Hh, Hf.
  destruct (truthy h); cbn [when].
  - unfold bind. rewrite (getattr_run _ _ _ _ Hf). rewrite cache_set_run.
    eexists. split; [done|]. cbn [self_context trace self_cache].
    split; [done|]. split; [done|]. split.
    + unfold cache_dict at 1. cbn [self_cache].
      by rewrite lookup_insert_eq.
    + intros ty' Hne. by rewrite lookup_insert_ne.
  - exists s. by unfold ret.
Qed.

Lemma populate_loop ty (l : list Obj) s :
  Forall listed_entity l →
  ∃ s', for_list l (record_source_hash env ty) s = (Ok tt, s') ∧
    self_context s' = self_context s ∧
    trace s' = trace s ∧
    cache_dict s' ty = foldl (recorded env) (cache_dict s ty) l ∧
    (∀ ty', ty' ≠ ty → self_cache s' !! ty' = self_cache s !! ty').
Proof.
  revert s. induction l as [|e l IH]; intros s Hwf.
  - exists s. by unfold for_list, ret.
  - apply Forall_cons in Hwf as [He Hl].
    destruct (record_source_hash_run ty e s He)
      as (s1 & Hrun & Hctx & Htr & Hd & Hother).
    destruct (IH s1 Hl) as (s2 & Hrun2 & Hctx2 & Htr2 & Hd2 & Hother2).
    exists s2. cbn [for_list]. unfold bind. rewrite Hrun, Hrun2.
    split; [done|]. split; [congruence|]. split; [congruence|].
    split.
    + rewrite Hd2, Hd. done.
    + intros ty' Hne. rewrite Hother2, Hother; done.
Qed.

Lemma NoDup_fmap_same {A B} (g : A → B) (l : list A) x y :
  NoDup (g <$> l) → x ∈ l → y ∈ l → g x = g y → x = y.
Proof.
  induction l as [|a l IH]; intros Hnd Hx Hy Heq.
  - by apply elem_of_nil in Hx.
  - rewrite fmap_cons in Hnd. apply NoDup_cons in Hnd as [Ha Hnd].
    apply elem_of_cons in Hx as [-> | Hx];
      apply elem_of_cons in Hy as [-> | Hy]; [done | | | by apply IH].
    + exfalso. apply Ha. rewrite Heq. apply list_elem_of_fmap. eauto.
    + exfalso. apply Ha. rewrite <- Heq. apply list_elem_of_fmap. eauto.
Qed.

(** A name that no fingerprinted entity of the listing carries keeps the
    entry it had. *)
Lemma foldl_recorded_other (l : list Obj) d k :
  (∀ e h, e ∈ l → e !! "sourceHash" = Some h → truthy h = true →
          fqn_key env e ≠ Some k) →
  foldl (recorded env) d l !! k = d !! k.
Proof.
  revert d. induction l as [|x l IH]; intros d Hk; [done|].
  cbn [foldl]. rewrite IH.
  - unfold recorded.
    destruct (x !! "sourceHash") as [h|] eqn:Hh; [|done].
    destruct (x !! "fullyQualifiedName") as [f|] eqn:Hf; [|done].
    destruct (truthy h) eqn:Ht; [|done].
    rewrite lookup_insert_ne; [done|].
    intros Heq. eapply (Hk x h); [left | done | done |].
    unfold fqn_key. rewrite Hf. simpl. by rewrite Heq.
  - intros e h He. apply Hk. by right.
Qed.

(** With distinct names in the listing, a fingerprinted entity is found
    under its name with its own fingerprint. *)
Lemma foldl_recorded_own (l : list Obj) d (e : Obj) h f :
  NoDup (fqn_key env <$> l) →
  e ∈ l →
  e !! "sourceHash" = Some h →
  truthy h = true →
  e !! "fullyQualifiedName" = Some f →
  foldl (recorded env) d l !! model_str env f = Some h.
Proof.
  revert d. induction l as [|x l IH]; intros d Hnd He Hh Ht Hf.
  - by apply elem_of_nil in He.
  - rewrite fmap_cons in Hnd. apply NoDup_cons in Hnd as [Hx Hnd].
    cbn [foldl]. apply elem_of_cons in He as [<- | He].
    + rewrite foldl_recorded_other.
      * unfold recorded. rewrite Hh, Hf, Ht. by rewrite lookup_insert_eq.
      * intros e' h' He' _ _ Hkey. apply Hx.
        apply list_elem_of_fmap. exists e'. split; [|done].
        unfold fqn_key at 1. rewrite Hf. by rewrite Hkey.
    + by apply IH.
Qed.

(** A listing of collaborators that behave is the loop over what the
    remote store lists. *)
Lemma get_fqn_source_hash_dict_behaved parent_type child_type entity_fqn s :
  get_fqn_source_hash_dict env parent_type child_type entity_fqn s
  = for_list
      (metadata_list_all_entities env (trace s) child_type
         (listing_params parent_type child_type entity_fqn))
      (record_source_hash env child_type)
      (add_events s
         [EvListAll child_type
            (listing_params parent_type child_type entity_fqn)]).
Proof.
  unfold get_fqn_source_hash_dict.
  unfold bind at 1. unfold list_all_entities, bind, gets, emit, ret.
  behave. cbn [fst snd].
  by destruct (for_list _ _ _) as [[[]|e] s'].
Qed.

(** C9.  The bulk listing gives entities with the fields [sourceHash] and
    [fullyQualifiedName], under pairwise distinct fully-qualified names.
    Then the population ends without an exception, and
    - every listed entity with a non-empty [sourceHash] is afterwards in
      the cache of the child type, under its fully-qualified name, with
      that fingerprint;
    - for every listed entity whose [sourceHash] is [None] or empty the
      population writes nothing: the cache answers for its name as it did
      before.  If its name had no entry before, it has none afterwards,
      and the comparison of a later dispatch for that name is a cache miss
      that does not set [same_fingerprint]. *)
Theorem populate_records_only_fingerprinted_entities
    parent_type child_type entity_fqn s :
  let params := listing_params parent_type child_type entity_fqn in
  let listing := metadata_list_all_entities env (trace s) child_type params in
  let run := get_fqn_source_hash_dict env parent_type child_type entity_fqn s in
  Forall listed_entity listing →
  NoDup (fqn_key env <$> listing) →
  run.1 = Ok tt ∧
  (∀ (e : Obj) h f,
     e ∈ listing →
     e !! "sourceHash" = Some h →
     e !! "fullyQualifiedName" = Some f →
     truthy h = true →
     cache_lookup run.2 child_type (model_str env f) = Some h) ∧
  (∀ (e : Obj) h f,
     e ∈ listing →
     e !! "sourceHash" = Some h →
     e !! "fullyQualifiedName" = Some f →
     truthy h = false →
     cache_lookup run.2 child_type (model_str env f)
     = cache_lookup s child_type (model_str env f) ∧
     (cache_lookup s child_type (model_str env f) = None →
      ∀ stage hash (o : Obj),
        type_ stage = child_type →
        use_cache stage = true →
        (compare_with_cache env stage (model_str env f) None false hash o
           run.2).1
        = Ok (None, false, RModel o))).
Proof.
  intros params listing run Hwf Hnd.
  destruct (populate_loop child_type listing
              (add_events s [EvListAll child_type params]) Hwf)
    as (s' & Hloop & _ & _ & Hd & _).
  assert (run = (Ok tt, s')) as ->.
  { subst run. rewrite get_fqn_source_hash_dict_behaved.
    fold params listing. exact Hloop. }
  change (cache_dict (add_events s [EvListAll child_type params]) child_type)
    with (cache_dict s child_type) in Hd.
  cbn [fst snd]. split; [done|]. split.
  - intros e h f He Hh Hf Ht.
    rewrite cache_lookup_dict, Hd.
    by apply (foldl_recorded_own listing _ e).
  - intros e h f He Hh Hf Ht.
    assert (cache_lookup s' child_type (model_str env f)
            = cache_lookup s child_type (model_str env f)) as Hsame.
    { rewrite !cache_lookup_dict, Hd. apply foldl_recorded_other.
      intros e' h' He' Hh' Ht' Hkey.
      assert (e' = e) as ->.
      { apply (NoDup_fmap_same (fqn_key env) listing); try done.
        rewrite Hkey. unfold fqn_key. by rewrite Hf. }
      congruence. }
    split; [done|].
    intros Hnone stage hash o Hty Hc. subst child_type.
    rewrite compare_with_cache_miss; [done | done |].
    by rewrite Hsame.
Qed.

End FingerprintStore.

(** ** Exceptions that a computation can raise *)

Section RaisesOnly.
Context (Q : Exn → Prop).

Lemma raises_only_ret {A} (a : A) : raises_only Q (ret a).
Proof. by intros s e s' [=]. Qed.

Lemma raises_only_raise {A} e : Q e → raises_only Q (@raise A e).
Proof. intros He s e' s' [= <- _]. done. Qed.

Lemma raises_only_gets {A} (f : State → A) : raises_only Q (gets f).
Proof. by intros s e s' [=]. Qed.

Lemma raises_only_emit ev : raises_only Q (emit ev).
Proof. by intros s e s' [=]. Qed.

Lemma raises_only_set_context ctx : raises_only Q (set_context ctx).
Proof. by intros s e s' [=]. Qed.

Lemma raises_only_set_cache c : raises_only Q (set_cache c).
Proof. by intros s e s' [=]. Qed.

Lemma raises_only_bind {A B} (m : M A) (f : A → M B) :
  raises_only Q m → (∀ a, raises_only Q (f a)) →
  raises_only Q (bind m f).
Proof.
  intros Hm Hf s e s'. unfold bind.
  destruct (m s) as [[a|e1] s1] eqn:Hms.
  - apply Hf.
  - intros [= <- _]. by eapply Hm.
Qed.

Lemma raises_only_when b m :
  raises_only Q m → raises_only Q (when b m).
Proof. destruct b; [done|]. intros _. apply raises_only_ret. Qed.

Lemma raises_only_getattr (o : Obj) attr :
  Q (AttributeError attr) → raises_only Q (getattr o attr).
Proof.
  intros Hq. unfold getattr. destruct (o !! attr).
  - apply raises_only_ret.
  - by apply raises_only_raise.
Qed.
End RaisesOnly.

Create HintDb raises discriminated.
#[local] Hint Extern 1 (not_ValueError _) => reflexivity : raises.
#[local] Hint Resolve raises_only_ret raises_only_raise raises_only_gets
  raises_only_emit raises_only_set_context raises_only_set_cache
  raises_only_when raises_only_getattr : raises.

(** Goes through a computation built from binds, conditionals and matches. *)
Ltac raises_step :=
  first
    [ solve [eauto with raises]
    | apply raises_only_when
    | apply raises_only_bind; [|intros ?]
    | match goal with
      | |- raises_only _ (if ?b then _ else _) => destruct b
      | |- raises_only _ (match ?x with _ => _ end) => destruct x
      end ].

(** ** Post-process hooks *)

Section PostProcess.
Context (env : Env).

(** Draining a generator into the sink. *)
Lemma for_gen_yield_run (g : Gen Either) s :
  for_gen g yield_ s
  = (match (gen_outcome (self_context s) g).2 with
     | Some exc => Raise exc
     | None => Ok tt
     end,
     add_events s (EvYield <$> (gen_outcome (self_context s) g).1)).
Proof.
  revert s. induction g as [| e | a k IH]; intros s.
  - cbn. by rewrite add_events_nil.
  - cbn. by rewrite add_events_nil.
  - cbn [for_gen gen_outcome fst snd].
    unfold bind, yield_, emit, gets.
    change (self_context (add_events s [EvYield a]))
      with (self_context s).
    rewrite IH. rewrite add_events_app. done.
Qed.

Lemma run_post_process_run process s :
  run_post_process env process s
  = (Ok tt,
     add_events s (post_process_events env (self_context s) process)).
Proof.
  unfold run_post_process, try_except, post_process_events, getattr_self.
  unfold bind at 1. behave.
  destruct (post_processors env process) as [hook|].
  - unfold ret at 1. unfold bind, gets.
    rewrite for_generator_reading, for_gen_yield_run.
    destruct (gen_outcome (self_context s) (hook (self_context s))).2.
    + unfold log, emit. by rewrite !add_events_app.
    + by rewrite app_nil_r.
  - unfold raise, bind, log, emit. by rewrite add_events_app.
Qed.

Lemma for_list_post_process_run (hooks : list string) s :
  for_list hooks (run_post_process env) s
  = (Ok tt,
     add_events s
       (concat (post_process_events env (self_context s) <$> hooks))).
Proof.
  revert s. induction hooks as [|p ps IH]; intros s.
  - cbn. by rewrite add_events_nil.
  - cbn [for_list]. unfold bind. rewrite run_post_process_run.
    rewrite IH. by rewrite add_events_app.
Qed.

(** The post-processing of a node never raises; it adds the effects of
    its hooks, hook after hook. *)
Lemma _run_node_post_process_run node s :
  _run_node_post_process env node s
  = (Ok tt,
     add_events s (node_post_process_events env (self_context s) node)).
Proof.
  unfold _run_node_post_process, node_post_process_events.
  destruct (post_process node) as [[|p ps]|].
  - unfold ret. by rewrite add_events_nil.
  - unfold bind, log, emit. rewrite for_list_post_process_run.
    by rewrite add_events_app.
  - unfold ret. by rewrite add_events_nil.
Qed.

(** C8.  [process_nodes] is at a node whose producer and children resolve,
    and the loop over the candidates of the node has ended, in state
    [s1].  Then the post-processing of the node runs from [s1]: it raises
    nothing and adds, for each declared hook in turn, what the hook yields
    and, if the hook fails (or cannot be resolved), the two log records of
    the failure; the hooks after a failing one run all the same, and the
    traversal goes on with the next node. *)
Theorem post_process_hooks_run_after_candidates
    depth node rest node_producer child_nodes s s0 s1 :
  producers env (producer node) = Some node_producer →
  _get_child_nodes env node
    (add_events s [EvLog (DebugProcessingNode node)])
  = (Ok child_nodes, s0) →
  for_gen (default GStop (node_producer (self_context s0)))
    (process_candidate env (process_nodes env depth) node child_nodes) s0
  = (Ok tt, s1) →
  _run_node_post_process env node s1
  = (Ok tt,
     add_events s1 (node_post_process_events env (self_context s1) node)) ∧
  process_nodes env (S depth) (node :: rest) s
  = process_nodes env (S depth) rest
      (add_events s1 (node_post_process_events env (self_context s1) node)).
Proof.
  intros Hp Hc Hloop. split; [apply _run_node_post_process_run|].
  cbn [process_nodes for_list].
  unfold bind at 1. unfold bind at 1. unfold log at 1, emit at 1.
  unfold bind at 1. unfold getattr_self. behave. rewrite Hp.
  unfold ret at 1.
  unfold bind at 1. rewrite Hc.
  unfold bind at 1. unfold gets at 1.
  unfold bind at 1.
  rewrite default_reading, for_generator_reading, Hloop.
  by rewrite _run_node_post_process_run.
Qed.

End PostProcess.

(** ** The run context along the traversal *)

Section KeepsSlot.
Context (slot : string).

Lemma keeps_slot_ret {A} (a : A) : keeps_slot slot (ret a).
Proof. by intros s. Qed.

Lemma keeps_slot_raise {A} e : keeps_slot slot (@raise A e).
Proof. by intros s. Qed.

Lemma keeps_slot_gets {A} (f : State → A) : keeps_slot slot (gets f).
Proof. by intros s. Qed.

Lemma keeps_slot_emit ev : keeps_slot slot (emit ev).
Proof. by intros s. Qed.

Lemma keeps_slot_set_cache c : keeps_slot slot (set_cache c).
Proof. by intros s. Qed.

Lemma keeps_slot_bind_ok {A B} (m : M A) (f : A → M B) :
  keeps_slot slot m →
  (∀ s a s', m s = (Ok a, s') → keeps_slot slot (f a)) →
  keeps_slot slot (bind m f).
Proof.
  intros Hm Hf s. unfold bind. specialize (Hm s).
  destruct (m s) as [[a|e] s1] eqn:Hms; [|done].
  cbn [snd] in Hm. rewrite <- Hm. by eapply Hf.
Qed.

Lemma keeps_slot_bind {A B} (m : M A) (f : A → M B) :
  keeps_slot slot m → (∀ a, keeps_slot slot (f a)) →
  keeps_slot slot (bind m f).
Proof. intros Hm Hf. apply keeps_slot_bind_ok; [done|]. intros; apply Hf. Qed.

Lemma keeps_slot_when b m :
  keeps_slot slot m → keeps_slot slot (when b m).
Proof. destruct b; [done|]. intros _. apply keeps_slot_ret. Qed.

Lemma keeps_slot_try_except {A} (m : M A) caught handler :
  keeps_slot slot m → (∀ e, keeps_slot slot (handler e)) →
  keeps_slot slot (try_except m caught handler).
Proof.
  intros Hm Hh s. unfold try_except. specialize (Hm s).
  destruct (m s) as [[a|e] s1]; [done|].
  destruct (caught e); [|done].
  cbn [snd] in Hm. rewrite <- Hm. apply Hh.
Qed.

Lemma keeps_slot_for_list {A} (l : list A) body :
  (∀ a, a ∈ l → keeps_slot slot (body a)) →
  keeps_slot slot (for_list l body).
Proof.
  induction l as [|a l IH]; intros Hbody; [apply keeps_slot_ret|].
  cbn [for_list]. apply keeps_slot_bind.
  - apply Hbody. by left.
  - intros _. apply IH. intros b Hb. apply Hbody. by right.
Qed.

Lemma keeps_slot_for_generator {A} (g : Generator A) body :
  silent slot g →
  (∀ a, keeps_slot slot (body a)) →
  keeps_slot slot (for_generator g body).
Proof.
  intros Hsilent Hbody.
  induction g as [| e | a k IH | slot' value g IH].
  - apply keeps_slot_ret.
  - apply keeps_slot_raise.
  - cbn [for_generator]. apply keeps_slot_bind; [apply Hbody|]. intros _.
    apply keeps_slot_bind; [apply keeps_slot_gets|]. intros ctx.
    apply IH, Hsilent.
  - destruct Hsilent as [Hne Hsilent]. cbn [for_generator].
    intros s. unfold bind, gets, set_context.
    rewrite (IH Hsilent). cbn.
    destruct value; [by apply lookup_insert_ne | by apply lookup_delete_ne].
Qed.

Lemma keeps_slot_call {A} (r : Res A) : keeps_slot slot (call r).
Proof. by destruct r. Qed.

Lemma keeps_slot_getattr (o : Obj) attr : keeps_slot slot (getattr o attr).
Proof. unfold getattr. by destruct (o !! attr). Qed.

Lemma keeps_slot_getattr_self {A} (methods : string → option A) name :
  keeps_slot slot (getattr_self methods name).
Proof. unfold getattr_self. by destruct (methods name). Qed.

Lemma keeps_slot_update_context_value stage value :
  context stage ≠ Some slot →
  keeps_slot slot (update_context_value stage value).
Proof.
  intros Hne s. unfold update_context_value.
  destruct (context stage) as [slot'|]; [|done].
  cbn. apply lookup_insert_ne. congruence.
Qed.

Lemma keeps_slot_clear_stage stage :
  context stage ≠ Some slot → keeps_slot slot (clear_stage stage).
Proof.
  intros Hne s. unfold clear_stage.
  destruct (context stage) as [slot'|]; [|done].
  cbn. apply lookup_delete_ne. congruence.
Qed.
End KeepsSlot.

Create HintDb keeps discriminated.
#[local] Hint Resolve keeps_slot_ret keeps_slot_raise keeps_slot_gets
  keeps_slot_emit keeps_slot_set_cache keeps_slot_getattr
  keeps_slot_getattr_self keeps_slot_update_context_value
  keeps_slot_clear_stage keeps_slot_call : keeps.

(** Goes through a computation built from binds, conditionals and matches. *)
Ltac keeps_step :=
  first
    [ solve [eauto with keeps]
    | apply keeps_slot_when
    | apply keeps_slot_bind; [|intros ?]
    | apply keeps_slot_try_except; [|intros ?]
    | match goal with
      | |- keeps_slot _ (if ?b then _ else _) => destruct b
      | |- keeps_slot _ (match ?x with _ => _ end) => destruct x
      end ].

Section ContextFrame.
Context (c : Collab.t) (slot : string).

Lemma silent_reading {A} (g : Gen A) : silent slot (reading g).
Proof. induction g as [| e | a k IH]; cbn; auto. Qed.

(** Collaborators that behave write no slot. *)
Lemma behaved_stage_leaves_slot (env : Env) stage :
  stage_leaves_slot env slot stage.
Proof.
  intros stage_fn node_entity ctx g. cbn.
  destruct (processors env (processor stage)) as [f|]; [|discriminate].
  intros [= <-]. destruct (f node_entity ctx); [|discriminate].
  intros [= <-]. apply silent_reading.
Qed.

Lemma behaved_node_leaves_slot (env : Env) node :
  node_leaves_slot env slot node.
Proof.
  split; [|split].
  - intros node_producer ctx g. cbn.
    destruct (producers env (producer node)) as [f|]; [|discriminate].
    intros [= <-]. destruct (f ctx); [|discriminate].
    intros [= <-]. apply silent_reading.
  - intros stage _. apply behaved_stage_leaves_slot.
  - intros process hook ctx _. cbn.
    destruct (post_processors env process) as [f|]; [|discriminate].
    intros [= <-]. apply silent_reading.
Qed.

Lemma keeps_slot_get_by_name ty fqn :
  keeps_slot slot (get_by_name c ty fqn).
Proof. unfold get_by_name. repeat keeps_step. Qed.

Lemma keeps_slot_ack_poll tries ty fqn entity :
  keeps_slot slot (ack_poll c tries ty fqn entity).
Proof.
  revert entity. induction tries as [|tries IH]; intros [e|]; simpl;
    try apply keeps_slot_ret.
  apply keeps_slot_bind; [apply keeps_slot_get_by_name | intros ?; apply IH].
Qed.

Lemma keeps_slot_update_context_name stage (o : Obj) :
  context stage ≠ Some slot →
  keeps_slot slot (update_context_name c stage o).
Proof. intros Hne. unfold update_context_name. repeat keeps_step. Qed.

Lemma keeps_slot_yield_and_update_context r stage er :
  context stage ≠ Some slot →
  keeps_slot slot (yield_and_update_context c r stage er).
Proof.
  intros Hne.
  pose proof keeps_slot_get_by_name. pose proof keeps_slot_ack_poll.
  pose proof (keeps_slot_update_context_name stage).
  unfold yield_and_update_context, yield_and_update_context_default,
    lookup_unless_overwrite, attach_source_hash, compare_with_cache,
    await_ack, source_hash, cache_get, cache_of_type, yield_, log.
  destruct r; repeat keeps_step.
Qed.

Lemma keeps_slot_sink_request stage r :
  context stage ≠ Some slot →
  keeps_slot slot (sink_request c stage r).
Proof.
  intros Hne.
  pose proof (keeps_slot_yield_and_update_context).
  unfold sink_request, yield_. repeat keeps_step.
Qed.

Lemma keeps_slot_get_fqn_source_hash_dict parent_type child_type fqn :
  keeps_slot slot (get_fqn_source_hash_dict c parent_type child_type fqn).
Proof.
  unfold get_fqn_source_hash_dict, list_all_entities.
  apply keeps_slot_bind; [repeat keeps_step|]. intros l.
  apply keeps_slot_bind; [|intros _; repeat keeps_step].
  apply keeps_slot_for_list. intros e _.
  unfold record_source_hash, cache_set, cache_of_type.
  repeat keeps_step.
Qed.

Lemma keeps_slot__init_cache_dict stage child_nodes :
  keeps_slot slot (_init_cache_dict c stage child_nodes).
Proof.
  pose proof keeps_slot_get_fqn_source_hash_dict.
  unfold _init_cache_dict.
  apply keeps_slot_for_list. intros n _.
  apply keeps_slot_for_list. intros st _.
  repeat keeps_step.
Qed.

Lemma keeps_slot__process_stage stage node_entity child_nodes :
  context stage ≠ Some slot →
  stage_leaves_slot c slot stage →
  keeps_slot slot (_process_stage c stage node_entity child_nodes).
Proof.
  intros Hne Hsilent.
  pose proof (keeps_slot__init_cache_dict stage child_nodes).
  unfold _process_stage, log.
  apply keeps_slot_bind; [repeat keeps_step|]. intros _.
  apply keeps_slot_bind_ok; [repeat keeps_step|]. intros s0 stage_fn s1 Hfn.
  assert (Collab.processors c (processor stage) = Some stage_fn) as Hstage_fn.
  { unfold getattr_self in Hfn.
    destruct (Collab.processors c (processor stage)); [|done].
    by injection Hfn as -> _. }
  apply keeps_slot_bind; [repeat keeps_step|]. intros ctx.
  apply keeps_slot_bind; [|intros _; repeat keeps_step].
  apply keeps_slot_for_generator.
  { destruct (stage_fn node_entity ctx) as [g|] eqn:Hg; [|done].
    by eapply Hsilent. }
  intros r. unfold sink_or_warn, log.
  pose proof (keeps_slot_sink_request stage r Hne).
  repeat keeps_step.
Qed.

Lemma keeps_slot_run_stages node child_nodes node_entity :
  unbound slot node →
  (∀ stage, stage ∈ stages node → stage_leaves_slot c slot stage) →
  keeps_slot slot (run_stages c node child_nodes node_entity).
Proof.
  intros Hun Hsilent. unfold run_stages. apply keeps_slot_for_list.
  intros stage Hstage. apply keeps_slot__process_stage; auto.
Qed.

Lemma keeps_slot_clear_stages node :
  unbound slot node → keeps_slot slot (clear_stages node).
Proof.
  intros Hun. unfold clear_stages. apply keeps_slot_for_list.
  intros stage Hstage. apply keeps_slot_when.
  apply keeps_slot_clear_stage. by apply Hun.
Qed.

Lemma keeps_slot_run_post_process process :
  (∀ hook ctx,
     Collab.post_processors c process = Some hook → silent slot (hook ctx)) →
  keeps_slot slot (run_post_process c process).
Proof.
  intros Hsilent. unfold run_post_process, log.
  apply keeps_slot_try_except; [|intros e; repeat keeps_step].
  apply keeps_slot_bind_ok; [repeat keeps_step|]. intros s0 hook s1 Hhook.
  assert (Collab.post_processors c process = Some hook) as Hprocess.
  { unfold getattr_self in Hhook.
    destruct (Collab.post_processors c process); [|done].
    by injection Hhook as -> _. }
  apply keeps_slot_bind; [repeat keeps_step|]. intros ctx.
  apply keeps_slot_for_generator; [by apply Hsilent|].
  intros er. unfold yield_. repeat keeps_step.
Qed.

Lemma keeps_slot__run_node_post_process node :
  (∀ process hook ctx,
     process ∈ default [] (post_process node) →
     Collab.post_processors c process = Some hook →
     silent slot (hook ctx)) →
  keeps_slot slot (_run_node_post_process c node).
Proof.
  intros Hsilent. unfold _run_node_post_process, log.
  destruct (post_process node) as [[|p ps]|]; try apply keeps_slot_ret.
  apply keeps_slot_bind; [repeat keeps_step|]. intros _.
  apply keeps_slot_for_list. intros process Hin.
  apply keeps_slot_run_post_process. intros hook ctx.
  by apply Hsilent.
Qed.

Lemma resolve_children_run (P : TopologyNode → Prop) names s r s' :
  resolve_children c names s = (r, s') →
  s' = s ∧
  ((∀ name child,
      name ∈ names → Collab.get_topology_node c name = Ok child →
      P child) →
   ∀ child_nodes, r = Ok child_nodes → Forall P child_nodes).
Proof.
  revert r s'. induction names as [|name names IH]; intros r s'.
  - intros [= <- <-]. split; [done|]. by intros _ cn [= <-].
  - cbn [resolve_children].
    destruct (Collab.get_topology_node c name) as [n|e] eqn:Hname.
    + unfold bind.
      destruct (resolve_children c names s) as [[ns|e] s1] eqn:Hrest.
      * intros [= <- <-]. destruct (IH _ _ eq_refl) as [-> HP].
        split; [done|]. intros Hres cn [= <-]. constructor.
        -- eapply Hres; [by left | done].
        -- apply HP; [|done]. intros name' c' Hin. apply Hres. by right.
      * intros [= <- <-]. destruct (IH _ _ eq_refl) as [-> _].
        split; [done|]. by intros _ cn [=].
    + intros [= <- <-]. split; [done|]. by intros _ cn [=].
Qed.

(** Resolving the children of a node changes nothing, and gives nodes of
    every class of nodes that is closed under children. *)
Lemma _get_child_nodes_run (P : TopologyNode → Prop) node s r s' :
  _get_child_nodes c node s = (r, s') →
  s' = s ∧
  (closed_under_children c P → P node →
   ∀ child_nodes, r = Ok child_nodes → Forall P child_nodes).
Proof.
  unfold _get_child_nodes. intros Hrun.
  destruct (resolve_children_run P _ _ _ _ Hrun) as [-> HP].
  split; [done|]. intros Hclosed Hnode. apply HP.
  intros name child Hin Hname. by eapply Hclosed.
Qed.

(** A slot that no stage of a class of nodes closed under children is
    bound to, and that no collaborator of these nodes writes, is left alone
    by the traversal of such nodes. *)
Lemma keeps_slot_process_nodes (P : TopologyNode → Prop) depth nodes :
  closed_under_children c P →
  (∀ node, P node → unbound slot node ∧ node_leaves_slot c slot node) →
  Forall P nodes →
  keeps_slot slot (process_nodes c depth nodes).
Proof.
  intros Hclosed Hun. revert nodes.
  induction depth as [|depth IH]; intros nodes Hnodes;
    [apply keeps_slot_raise|].
  cbn [process_nodes]. apply keeps_slot_for_list. intros node Hnode.
  assert (P node) as HP by (by eapply Forall_forall in Hnodes).
  destruct (Hun node HP) as (Hunbound & Hproducer & Hstages & Hhooks).
  unfold log.
  apply keeps_slot_bind; [repeat keeps_step|]. intros _.
  apply keeps_slot_bind_ok; [repeat keeps_step|].
  intros s0 node_producer s1 Hget.
  assert (Collab.producers c (producer node) = Some node_producer) as Hp.
  { unfold getattr_self in Hget.
    destruct (Collab.producers c (producer node)); [|done].
    by injection Hget as -> _. }
  apply keeps_slot_bind_ok.
  { intros s. destruct (_get_child_nodes c node s) as [r s'] eqn:Hrun.
    by destruct (_get_child_nodes_run P _ _ _ _ Hrun) as [-> _]. }
  intros s child_nodes s' Hrun.
  destruct (_get_child_nodes_run P _ _ _ _ Hrun) as [_ Hchildren].
  specialize (Hchildren Hclosed HP child_nodes eq_refl).
  apply keeps_slot_bind; [repeat keeps_step|]. intros ctx.
  apply keeps_slot_bind;
    [|intros _; by apply keeps_slot__run_node_post_process].
  apply keeps_slot_for_generator.
  { destruct (node_producer ctx) as [g|] eqn:Hg; [|done].
    by eapply Hproducer. }
  intros node_entity. unfold process_candidate.
  apply keeps_slot_bind; [by apply keeps_slot_run_stages|].
  intros _.
  apply keeps_slot_bind; [by apply keeps_slot_clear_stages|].
  intros _. by apply IH.
Qed.

(** The clearing step. *)
Lemma clear_stages_run node s :
  clear_stages node s
  = (Ok tt, with_context s (cleared (stages node) (self_context s))).
Proof.
  unfold clear_stages, cleared. generalize (stages node) as sts.
  intros sts. revert s. induction sts as [|st sts IH]; intros s.
  - by destruct s.
  - cbn [for_list foldl]. unfold bind.
    destruct (clear_context st); cbn [when].
    + unfold clear_stage. destruct (context st) as [slot'|].
      * unfold bind, gets, set_context. rewrite IH. done.
      * unfold ret. by rewrite IH.
    + unfold ret. by rewrite IH.
Qed.

Lemma cleared_cons st sts (ctx : TopologyContext) :
  cleared (st :: sts) ctx
  = cleared sts (if clear_context st
                 then match context st with
                      | Some slot' => delete slot' ctx
                      | None => ctx
                      end
                 else ctx).
Proof. done. Qed.

Lemma cleared_None sts (ctx : TopologyContext) :
  ctx !! slot = None → cleared sts ctx !! slot = None.
Proof.
  revert ctx. induction sts as [|st sts IH]; intros ctx Hnone; [done|].
  unfold cleared. cbn [foldl]. apply IH.
  destruct (clear_context st); [|done].
  destruct (context st) as [slot'|]; [|done].
  rewrite lookup_delete_None. by right.
Qed.

Lemma cleared_bound sts (ctx : TopologyContext) stage :
  stage ∈ sts → clear_context stage = true → context stage = Some slot →
  cleared sts ctx !! slot = None.
Proof.
  revert ctx. induction sts as [|st sts IH]; intros ctx Hin Hclear Hslot.
  - by apply elem_of_nil in Hin.
  - apply elem_of_cons in Hin as [<- | Hin].
    + unfold cleared. cbn [foldl]. rewrite Hclear, Hslot.
      apply cleared_None. apply lookup_delete_eq.
    + unfold cleared. cbn [foldl]. by apply IH.
Qed.

Lemma cleared_other sts (ctx : TopologyContext) :
  (∀ stage, stage ∈ sts → clear_context stage = true →
            context stage ≠ Some slot) →
  cleared sts ctx !! slot = ctx !! slot.
Proof.
  revert ctx. induction sts as [|st sts IH]; intros ctx Hother; [done|].
  rewrite cleared_cons.
  rewrite IH by (intros stage Hin; apply Hother; by right).
  destruct (clear_context st) eqn:Hclear; [|done].
  destruct (context st) as [slot'|] eqn:Hslot; [|done].
  apply lookup_delete_ne. intros ->. by eapply (Hother st); [left | |].
Qed.

End ContextFrame.

Section CandidateIteration.
Context (c : Collab.t).

Lemma reaches_run {A} (body : A → M unit) g s g' s' :
  reaches body g s g' s' →
  for_generator g body s = for_generator g' body s'.
Proof.
  induction 1 as [g s | a k s s1 g' s' Hbody _ IH
                 | slot value g s g' s' _ IH]; [done| |].
  - cbn [for_generator]. unfold bind at 1. rewrite Hbody.
    unfold bind, gets. exact IH.
  - cbn [for_generator]. unfold bind, gets, set_context. exact IH.
Qed.

(** C6, amended.  [process_nodes] is at a node whose producer and children
    resolve; the loop over the candidates of the node has come to the
    candidate [node_entity], and the stages of that candidate have run and
    ended in state [s1].  Then
    - the children of the node are processed from [s1] with the slots of
      the stages that declare [clear_context] removed, and only then come
      the other candidates, the hooks and the other nodes: the clearing
      comes before the descent;
    - a slot that no [clear_context] stage of the node is bound to has, when
      the descent begins, the value the stages left in it;
    - the slot of a [clear_context] stage is absent when the descent
      begins, and still absent when the descent ends if below no stage is
      bound to it and no collaborator writes it, so that the next candidate
      does not find it;
    - while the stages run, a stage whose transform does not write a slot
      changes no slot but its own: what an earlier stage has set is there
      for the later ones. *)
Theorem context_kept_for_stages_cleared_before_descent
    depth node rest node_producer child_nodes node_entity k s s0 si s1 :
  let candidate :=
    process_candidate c (process_nodes c depth) node child_nodes in
  let s2 := with_context s1 (cleared (stages node) (self_context s1)) in
  Collab.producers c (producer node) = Some node_producer →
  _get_child_nodes c node
    (add_events s [EvLog (DebugProcessingNode node)])
  = (Ok child_nodes, s0) →
  reaches candidate (default GenStop (node_producer (self_context s0))) s0
    (GenYield node_entity k) si →
  run_stages c node child_nodes node_entity si = (Ok tt, s1) →
  process_nodes c (S depth) (node :: rest) s
  = (((process_nodes c depth child_nodes ;;
       ctx <- gets self_context ;;
       for_generator (k ctx) candidate) ;;
      _run_node_post_process c node) ;;
     process_nodes c (S depth) rest) s2 ∧
  (∀ slot,
     (∀ stage, stage ∈ stages node → clear_context stage = true →
               context stage ≠ Some slot) →
     self_context s2 !! slot = self_context s1 !! slot) ∧
  (∀ stage slot,
     stage ∈ stages node → clear_context stage = true →
     context stage = Some slot →
     self_context s2 !! slot = None ∧
     ∀ P : TopologyNode → Prop,
       closed_under_children c P →
       (∀ n, P n → unbound slot n ∧ node_leaves_slot c slot n) →
       Forall P child_nodes →
       self_context (process_nodes c depth child_nodes s2).2 !! slot
       = None) ∧
  (∀ stage slot entity nodes s',
     context stage ≠ Some slot →
     stage_leaves_slot c slot stage →
     self_context (_process_stage c stage entity nodes s').2 !! slot
     = self_context s' !! slot).
Proof.
  intros candidate s2 Hp Hc Hreach Hstages. split; [|split; [|split]].
  - cbn [process_nodes for_list].
    unfold bind at 1. unfold bind at 1. unfold bind at 1.
    unfold log at 1, emit at 1.
    unfold bind at 1. unfold getattr_self. rewrite Hp. unfold ret at 1.
    unfold bind at 1. rewrite Hc.
    unfold bind at 1. unfold gets at 1.
    unfold bind at 1.
    change (process_candidate c (process_nodes c depth) node child_nodes)
      with candidate.
    rewrite (reaches_run _ _ _ _ _ Hreach).
    cbn [for_generator]. unfold bind at 1.
    unfold candidate at 1, process_candidate. unfold bind at 1.
    rewrite Hstages. unfold bind at 1. rewrite clear_stages_run.
    fold s2. unfold bind. done.
  - intros slot Hother. by apply cleared_other.
  - intros stage slot Hin Hclear Hslot.
    assert (self_context s2 !! slot = None) as Hnone
      by (by eapply cleared_bound).
    split; [done|]. intros P Hclosed Hun Hchildren.
    rewrite <- Hnone.
    by apply (keeps_slot_process_nodes c slot P).
  - intros stage slot entity nodes s' Hne Hsilent.
    by apply keeps_slot__process_stage.
Qed.

End CandidateIteration.

(** * Runs on the concrete source *)

Import Demo.

(** C1 at work: the table [orders] comes again with the fingerprint the
    cache holds, on a table stage that need not be acknowledged. *)
Lemma cache_hit_same_fingerprint_suppresses_write_witness :
  context_bound (table_stage false) = true ∧
  use_cache (table_stage false) = true ∧
  must_return (table_stage false) = false ∧
  cache_lookup cached_v1 Table "svc.orders" = Some (VStr (demo_hash orders)) ∧
  yields_of
    (trace (sink_request quiet (table_stage false) (Some orders_request)
              cached_v1).2) = [] ∧
  remote_calls_of
    (trace (sink_request quiet (table_stage false) (Some orders_request)
              cached_v1).2) = [].
Proof.
  pose proof (cache_hit_same_fingerprint_suppresses_write quiet
                (table_stage false) orders_request orders (VStr "orders")
                cached_v1
                ltac:(vm_compute; reflexivity)
                ltac:(vm_compute; reflexivity)
                ltac:(vm_compute; reflexivity)
                ltac:(vm_compute; reflexivity)
                ltac:(eexists; vm_compute; reflexivity)
                ltac:(intros _; reflexivity)
                ltac:(vm_compute; reflexivity)
                ltac:(vm_compute; discriminate)) as (Hy & _ & Hr).
  split; [vm_compute; reflexivity|].
  split; [vm_compute; reflexivity|].
  split; [vm_compute; reflexivity|].
  split; [vm_compute; reflexivity|].
  split; [exact Hy|].
  apply Hr; vm_compute; reflexivity.
Defined.

(** C1 as stated fails: the same table on a table stage that must be
    acknowledged.  Nothing is yielded, and the remote store is called, for
    the acknowledgement. *)
Lemma cache_hit_on_must_return_stage_calls_remote :
  context_bound (table_stage true) = true ∧
  use_cache (table_stage true) = true ∧
  overwrite (table_stage true) = true ∧
  cache_lookup cached_v1 Table "svc.orders" = Some (VStr (demo_hash orders)) ∧
  yields_of
    (trace (sink_request
              with_orders_v1
              (table_stage true) (Some orders_request) cached_v1).2) = [] ∧
  remote_calls_of
    (trace (sink_request
              with_orders_v1
              (table_stage true) (Some orders_request) cached_v1).2)
  = [EvGetByName Table "svc.orders"].
Proof. repeat split; vm_compute; reflexivity. Qed.

(** C2 at work: the table [orders] comes with another fingerprint than
    the cache holds, and the remote store has the table. *)
Lemma cache_hit_changed_fingerprint_yields_patch_witness :
  cache_lookup cached_v0 Table "svc.orders" = Some (VStr "H:v0") ∧
  VStr "H:v0" ≠ VStr (demo_hash orders) ∧
  yields_of
    (trace (sink_request
              with_orders_v0
              (table_stage false) (Some orders_request) cached_v0).2)
  = [ {| left := None;
         right := Some (RPatch
                          orders_v0
                          (<["sourceHash" := VStr "H:v1"]> orders
                             ∪ orders_v0))
      |} ].
Proof.
  pose proof (cache_hit_changed_fingerprint_yields_patch
                with_orders_v0
                (table_stage false) orders_request orders (VStr "orders")
                (VStr "H:v0") cached_v0
                ltac:(vm_compute; reflexivity)
                ltac:(vm_compute; reflexivity)
                ltac:(vm_compute; reflexivity)
                ltac:(vm_compute; reflexivity)
                ltac:(eexists; vm_compute; reflexivity)
                ltac:(intros H; vm_compute in H; discriminate H)
                ltac:(vm_compute; reflexivity)
                ltac:(vm_compute; reflexivity)
                ltac:(vm_compute; discriminate)) as (Hy & _ & _).
  split; [vm_compute; reflexivity|].
  split; [vm_compute; discriminate|].
  exact Hy.
Defined.

(** C2 as stated fails: the cache holds another fingerprint for [orders],
    and the remote store no longer has the table.  What is yielded is the
    create request, not a patch. *)
Lemma cache_hit_changed_fingerprint_without_remote_entity_creates :
  context_bound (table_stage false) = true ∧
  use_cache (table_stage false) = true ∧
  cache_lookup cached_v0 Table "svc.orders" = Some (VStr "H:v0") ∧
  VStr "H:v0" ≠ VStr (demo_hash orders) ∧
  remote_calls_of
    (trace (sink_request quiet (table_stage false) (Some orders_request)
              cached_v0).2)
  = [EvGetByName Table "svc.orders"] ∧
  yields_of
    (trace (sink_request quiet (table_stage false) (Some orders_request)
              cached_v0).2)
  = [ request_of (<["sourceHash" := VStr "H:v1"]> orders) ].
Proof.
  split; [vm_compute; reflexivity|].
  split; [vm_compute; reflexivity|].
  split; [vm_compute; reflexivity|].
  split; [vm_compute; discriminate|].
  split; vm_compute; reflexivity.
Qed.

(** C3 at work: the table [orders] comes for the first time. *)
Lemma cache_miss_yields_create_with_fingerprint_witness :
  context_bound (table_stage false) = true ∧
  use_cache (table_stage false) = true ∧
  cache_lookup (in_service ∅) Table "svc.orders" = None ∧
  yields_of
    (trace (sink_request quiet (table_stage false) (Some orders_request)
              (in_service ∅)).2)
  = [ request_of (<["sourceHash" := VStr "H:v1"]> orders) ].
Proof.
  pose proof (cache_miss_yields_create_with_fingerprint quiet
                (table_stage false) orders_request orders (VStr "orders")
                (in_service ∅)
                ltac:(vm_compute; reflexivity)
                ltac:(vm_compute; reflexivity)
                ltac:(vm_compute; reflexivity)
                ltac:(vm_compute; reflexivity)
                ltac:(eexists; vm_compute; reflexivity)
                ltac:(intros _; reflexivity)
                ltac:(vm_compute; reflexivity)) as (Hy & _).
  split; [vm_compute; reflexivity|].
  split; [vm_compute; reflexivity|].
  split; [vm_compute; reflexivity|].
  exact Hy.
Defined.

(** C4 at work: the service stage waits for an acknowledgement that never
    comes, and for one that comes at the second poll. *)
Lemma must_return_polls_at_most_three_times_witness :
  must_return service_stage = true ∧
  sink_request quiet service_stage (Some svc_request) fresh
  = (Raise (MissingExpectedEntityAckException DatabaseService "svc"),
     add_events fresh
       [EvGetByName DatabaseService "svc";
        EvSourceHash svc;
        EvYield (request_of (<["sourceHash" := VStr "H:v1"]> svc));
        EvGetByName DatabaseService "svc";
        EvGetByName DatabaseService "svc";
        EvGetByName DatabaseService "svc"]) ∧
  sink_request with_late_service service_stage (Some svc_request) fresh
  = (Ok tt,
     with_context
       (add_events fresh
          [EvGetByName DatabaseService "svc";
           EvSourceHash svc;
           EvYield (request_of (<["sourceHash" := VStr "H:v1"]> svc));
           EvGetByName DatabaseService "svc";
           EvGetByName DatabaseService "svc"])
       {[ "database_service" := CName "svc" ]}).
Proof.
  split; [reflexivity|]. split.
  - destruct (must_return_polls_at_most_three_times quiet service_stage
                svc_request svc (VStr "svc") "database_service" false
                (RModel (<["sourceHash" := VStr "H:v1"]> svc))
                (VStr "H:v1") (<["sourceHash" := VStr "H:v1"]> svc)
                fresh
                (add_events fresh
                   [EvGetByName DatabaseService "svc"; EvSourceHash svc])
                eq_refl eq_refl ltac:(discriminate) eq_refl
                ltac:(vm_compute; reflexivity)
                ltac:(vm_compute; reflexivity)) as (_ & Hnever & _).
    rewrite Hnever; [reflexivity|]. intros i _. reflexivity.
  - destruct (must_return_polls_at_most_three_times with_late_service
                service_stage
                svc_request svc (VStr "svc") "database_service" false
                (RModel (<["sourceHash" := VStr "H:v1"]> svc))
                (VStr "H:v1") (<["sourceHash" := VStr "H:v1"]> svc)
                fresh
                (add_events fresh
                   [EvGetByName DatabaseService "svc"; EvSourceHash svc])
                eq_refl eq_refl ltac:(discriminate) eq_refl
                ltac:(vm_compute; reflexivity)
                ltac:(vm_compute; reflexivity)) as (_ & _ & Hlate).
    rewrite (Hlate 1); [vm_compute; reflexivity | lia | |].
    + eexists. vm_compute. reflexivity.
    + intros j Hj. assert (j = 0) as -> by lia. reflexivity.
Defined.

(** C5 at work: the service [svc] is already in the remote store. *)
Lemma non_overwrite_found_suppresses_write_witness :
  overwrite service_stage = false ∧
  _is_force_overwrite_enabled
    (with_service "svc") = false ∧
  metadata_get_by_name (with_service "svc") [] DatabaseService "svc"
  = Some (entity "svc" "svc" VNone) ∧
  (sink_request (with_service "svc")
     service_stage (Some svc_request) fresh).1 = Ok tt ∧
  yields_of
    (trace (sink_request
              (with_service "svc")
              service_stage (Some svc_request) fresh).2) = [] ∧
  self_context
    (sink_request
       (with_service "svc")
       service_stage (Some svc_request) fresh).2
  = {[ "database_service" := CName "svc" ]}.
Proof.
  pose proof (non_overwrite_found_suppresses_write
                (with_service "svc")
                service_stage svc_request svc (VStr "svc")
                "database_service" (entity "svc" "svc" VNone) fresh
                ltac:(reflexivity)
                ltac:(discriminate)
                ltac:(reflexivity)
                ltac:(vm_compute; reflexivity)
                ltac:(reflexivity)
                ltac:(reflexivity)
                ltac:(reflexivity)) as (Hok & Hy & _ & _ & Hfound).
  destruct (Hfound (VStr "svc") ltac:(vm_compute; reflexivity) eq_refl)
    as [Hctx _].
  split; [reflexivity|]. split; [reflexivity|]. split; [reflexivity|].
  split; [exact Hok|]. split; [exact Hy|].
  rewrite Hctx. vm_compute. reflexivity.
Defined.

(** C6 at work: the candidate [sales] of the schema node.  The slot of the
    service is kept for the tables; the slot of the schema is cleared before
    the tables are processed and is still absent when they are done. *)
Lemma context_kept_for_stages_cleared_before_descent_witness :
  let s0 :=
    add_events (in_service ∅) [EvLog (DebugProcessingNode schema_node)] in
  let s1 := (run_stages quiet schema_node [table_node] (VStr "sales") s0).2 in
  let s2 := with_context s1 (cleared (stages schema_node) (self_context s1)) in
  run_stages quiet schema_node [table_node] (VStr "sales") s0 = (Ok tt, s1) ∧
  process_nodes quiet 3 [schema_node] (in_service ∅)
  = (((process_nodes quiet 2 [table_node] ;;
       ctx <- gets self_context ;;
       for_generator GenStop
         (process_candidate quiet (process_nodes quiet 2) schema_node
            [table_node])) ;;
      _run_node_post_process quiet schema_node) ;;
     process_nodes quiet 3 []) s2 ∧
  self_context s2 !! "database_service"
  = self_context s1 !! "database_service" ∧
  self_context s2 !! "database_schema" = None ∧
  self_context (process_nodes quiet 2 [table_node] s2).2
    !! "database_schema" = None.
Proof.
  intros s0 s1 s2.
  assert (run_stages quiet schema_node [table_node] (VStr "sales") s0
          = (Ok tt, s1)) as Hrun by (vm_compute; reflexivity).
  pose proof (context_kept_for_stages_cleared_before_descent quiet 2
                schema_node []
                (fun _ => Some (reading (gen_of_list [VStr "sales"])))
                [table_node] (VStr "sales") (fun _ => GenStop)
                (in_service ∅) s0 s0 s1
                ltac:(reflexivity) ltac:(reflexivity)
                ltac:(apply reaches_here) Hrun)
    as (Hdescent & Hkept & Hcleared & _).
  destruct (Hcleared schema_stage "database_schema")
    as [Hgone Hstays]; [by left | reflexivity | reflexivity |].
  split; [exact Hrun|]. split; [exact Hdescent|]. split; [|split].
  - apply Hkept. intros stage Hin _.
    apply list_elem_of_singleton in Hin. subst stage. discriminate.
  - exact Hgone.
  - apply (Hstays (fun n => n = table_node)).
    + intros node name child -> Hin. by apply elem_of_nil in Hin.
    + intros n ->. split.
      * intros stage Hin.
        apply list_elem_of_singleton in Hin. subst stage. discriminate.
      * apply behaved_node_leaves_slot.
    + by constructor.
Defined.

(** C6 as stated fails: the schema stage sets the slot [database_schema]
    for the candidate [sales] and declares [clear_context]; when the tables
    below the schema are processed the slot is gone. *)
Lemma cleared_slot_is_not_visible_to_descendants :
  clear_context schema_stage = true ∧
  run_stages quiet schema_node [table_node] (VStr "sales") (in_service ∅)
  = (Ok tt, after_schema_stages) ∧
  self_context after_schema_stages !! "database_schema"
  = Some (CName "sales") ∧
  process_candidate quiet (process_nodes quiet 2) schema_node [table_node]
    (VStr "sales") (in_service ∅)
  = process_nodes quiet 2 [table_node] at_descent ∧
  self_context at_descent !! "database_schema" = None.
Proof. repeat split; vm_compute; reflexivity. Qed.

(** C8 at work: the schema node has two hooks, of which the first fails. *)
Lemma post_process_hooks_run_after_candidates_witness :
  producers quiet (producer schema_node)
  = Some (fun _ => Some (gen_of_list [VStr "sales"])) ∧
  process_nodes quiet 3 [schema_node] (in_service ∅)
  = (Ok tt,
     add_events after_schema_candidates
       [EvLog (DebugPostProcessingNode schema_node);
        EvLog (DebugTraceback (OtherException "delete failed"));
        EvLog (WarningPostProcess "mark_tables_as_deleted"
                 (OtherException "delete failed"));
        EvYield lineage_request]).
Proof.
  split; [reflexivity|].
  pose proof (post_process_hooks_run_after_candidates quiet 2 schema_node []
                (fun _ => Some (gen_of_list [VStr "sales"])) [table_node]
                (in_service ∅)
                (add_events (in_service ∅)
                   [EvLog (DebugProcessingNode schema_node)])
                after_schema_candidates
                ltac:(reflexivity)
                ltac:(reflexivity)
                ltac:(vm_compute; reflexivity)) as (_ & Hnodes).
  rewrite Hnodes. reflexivity.
Defined.

(** C9 at work: the listing has a fingerprinted table and a legacy one. *)
Lemma populate_records_only_fingerprinted_entities_witness :
  Forall listed_entity listed_tables ∧
  NoDup (fqn_key (listing_of listed_tables) <$> listed_tables) ∧
  cache_lookup
    (get_fqn_source_hash_dict (listing_of listed_tables) DatabaseSchema Table
       "svc.sales" (in_service ∅)).2 Table "svc.orders"
  = Some (VStr "H:v1") ∧
  cache_lookup
    (get_fqn_source_hash_dict (listing_of listed_tables) DatabaseSchema Table
       "svc.sales" (in_service ∅)).2 Table "svc.legacy"
  = None.
Proof.
  assert (Forall listed_entity listed_tables) as Hwf.
  { repeat constructor; eexists; vm_compute; reflexivity. }
  assert (NoDup (fqn_key (listing_of listed_tables) <$> listed_tables))
    as Hnd.
  { vm_compute. apply NoDup_cons. split; [|apply NoDup_singleton].
    intros Hin. apply list_elem_of_singleton in Hin. discriminate. }
  pose proof (populate_records_only_fingerprinted_entities
                (listing_of listed_tables) DatabaseSchema Table "svc.sales"
                (in_service ∅) Hwf Hnd) as (_ & Hrecorded & Homitted).
  split; [exact Hwf|]. split; [exact Hnd|]. split.
  - apply (Hrecorded (entity "orders" "svc.orders" (VStr "H:v1"))
             (VStr "H:v1") (VStr "svc.orders"));
      [by left | vm_compute; reflexivity | vm_compute; reflexivity
      | reflexivity].
  - destruct (Homitted (entity "legacy" "svc.legacy" VNone)
                VNone (VStr "svc.legacy")) as [Hsame _];
      [by right; left | vm_compute; reflexivity | vm_compute; reflexivity
      | reflexivity |].
    exact Hsame.
Defined.

(** C10 at work: a request on the stage that feeds no context slot. *)
Lemma sink_request_without_context_yields_unchanged_witness :
  context query_stage = None ∧
  right orders_request = Some (RModel orders) ∧
  sink_request quiet query_stage (Some orders_request) cached_v1
  = (Ok tt, add_events cached_v1 [EvYield orders_request]).
Proof.
  split; [reflexivity|]. split; [reflexivity|].
  apply (sink_request_without_context_yields_unchanged quiet query_stage
           orders_request (RModel orders) cached_v1); reflexivity.
Defined.

(** * Further properties of the runner *)

(** ** Relations that the whole traversal respects *)

Section Respects.
Context (R : State → State → Prop) `{!PreOrder R}.

Lemma respects_ret {A} (a : A) : respects R (ret a).
Proof. intros s. reflexivity. Qed.

Lemma respects_raise {A} e : respects R (@raise A e).
Proof. intros s. reflexivity. Qed.

Lemma respects_gets {A} (f : State → A) : respects R (gets f).
Proof. intros s. reflexivity. Qed.

Lemma respects_bind_ok {A B} (m : M A) (f : A → M B) :
  respects R m →
  (∀ s a s', m s = (Ok a, s') → respects R (f a)) →
  respects R (bind m f).
Proof.
  intros Hm Hf s. unfold bind. specialize (Hm s).
  destruct (m s) as [[a|e] s1] eqn:Hms; [|done].
  cbn [snd] in Hm. etrans; [exact Hm|]. by eapply Hf.
Qed.

Lemma respects_bind {A B} (m : M A) (f : A → M B) :
  respects R m → (∀ a, respects R (f a)) → respects R (bind m f).
Proof. intros Hm Hf. apply respects_bind_ok; [done|]. intros; apply Hf. Qed.

Lemma respects_when b m : respects R m → respects R (when b m).
Proof. destruct b; [done|]. intros _. apply respects_ret. Qed.

Lemma respects_try_except {A} (m : M A) caught handler :
  respects R m → (∀ e, respects R (handler e)) →
  respects R (try_except m caught handler).
Proof.
  intros Hm Hh s. unfold try_except. specialize (Hm s).
  destruct (m s) as [[a|e] s1]; [done|].
  destruct (caught e); [|done].
  cbn [snd] in Hm. etrans; [exact Hm|]. apply Hh.
Qed.

Lemma respects_for_list {A} (l : list A) body :
  (∀ a, a ∈ l → respects R (body a)) → respects R (for_list l body).
Proof.
  induction l as [|a l IH]; intros Hbody; [apply respects_ret|].
  cbn [for_list]. apply respects_bind.
  - apply Hbody. by left.
  - intros _. apply IH. intros b Hb. apply Hbody. by right.
Qed.

Lemma respects_call {A} (r : Res A) : respects R (call r).
Proof. intros s. unfold call. destruct r; reflexivity. Qed.

Lemma respects_getattr (o : Obj) attr : respects R (getattr o attr).
Proof. unfold getattr. destruct (o !! attr); intros s; reflexivity. Qed.

Lemma respects_getattr_self {A} (methods : string → option A) name :
  respects R (getattr_self methods name).
Proof. unfold getattr_self. destruct (methods name); intros s; reflexivity. Qed.

(** From here on [R] does not look at the trace nor at the run context. *)
Hypothesis R_events : ∀ s evs, R s (add_events s evs).
Hypothesis R_context : ∀ s ctx, R s (with_context s ctx).

Lemma respects_emit ev : respects R (emit ev).
Proof. intros s. apply R_events. Qed.

Lemma respects_set_context ctx : respects R (set_context ctx).
Proof. intros s. apply R_context. Qed.

Lemma respects_for_generator {A} (g : Generator A) body :
  (∀ a, respects R (body a)) → respects R (for_generator g body).
Proof.
  intros Hbody. induction g as [| e | a k IH | slot value g IH].
  - apply respects_ret.
  - apply respects_raise.
  - cbn [for_generator]. apply respects_bind; [apply Hbody|]. intros _.
    apply respects_bind; [apply respects_gets|]. intros ctx. apply IH.
  - cbn [for_generator]. apply respects_bind; [apply respects_gets|].
    intros ctx. apply respects_bind; [apply respects_set_context|].
    intros _. apply IH.
Qed.

(** ... and reading [self.cache[ty]] respects it. *)
Hypothesis R_read : ∀ ty, respects R (cache_of_type ty).

Context (c : Collab.t).

Ltac respects_step :=
  first
    [ solve [eauto using respects_ret, respects_raise, respects_gets,
               respects_emit, respects_set_context, respects_getattr,
               respects_call,
               respects_getattr_self]
    | apply respects_when
    | apply respects_bind; [|intros ?]
    | apply respects_try_except; [|intros ?]
    | match goal with
      | |- respects _ (if ?b then _ else _) => destruct b
      | |- respects _ (match ?x with _ => _ end) => destruct x
      end ].

Lemma respects_get_by_name ty fqn : respects R (get_by_name c ty fqn).
Proof. unfold get_by_name. repeat respects_step. Qed.

Lemma respects_ack_poll tries ty fqn entity :
  respects R (ack_poll c tries ty fqn entity).
Proof.
  revert entity. induction tries as [|tries IH]; intros [e|]; simpl;
    try apply respects_ret.
  apply respects_bind; [apply respects_get_by_name | intros ?; apply IH].
Qed.

Lemma respects_update_context_value stage value :
  respects R (update_context_value stage value).
Proof. unfold update_context_value. repeat respects_step. Qed.

Lemma respects_update_context_name stage (o : Obj) :
  respects R (update_context_name c stage o).
Proof.
  pose proof respects_update_context_value.
  unfold update_context_name. repeat respects_step.
Qed.

Lemma respects_yield_and_update_context r stage er :
  respects R (yield_and_update_context c r stage er).
Proof.
  pose proof respects_get_by_name. pose proof respects_ack_poll.
  pose proof respects_update_context_name.
  pose proof respects_update_context_value.
  unfold yield_and_update_context, yield_and_update_context_default,
    lookup_unless_overwrite, attach_source_hash, compare_with_cache,
    await_ack, source_hash, cache_get, yield_, log.
  destruct r; repeat respects_step.
Qed.

Lemma respects_sink_request stage r : respects R (sink_request c stage r).
Proof.
  pose proof respects_yield_and_update_context.
  unfold sink_request, yield_. repeat respects_step.
Qed.

Lemma respects_run_post_process process :
  respects R (run_post_process c process).
Proof.
  unfold run_post_process, log, yield_.
  apply respects_try_except; [|intros ?; repeat respects_step].
  apply respects_bind; [repeat respects_step|]. intros hook.
  apply respects_bind; [repeat respects_step|]. intros ctx.
  apply respects_for_generator. intros er. apply respects_emit.
Qed.

Lemma respects__run_node_post_process node :
  respects R (_run_node_post_process c node).
Proof.
  unfold _run_node_post_process, log.
  destruct (post_process node) as [[|p ps]|]; try apply respects_ret.
  apply respects_bind; [apply respects_emit|]. intros _.
  apply respects_for_list. intros process _. apply respects_run_post_process.
Qed.

Lemma respects_resolve_children names :
  respects R (resolve_children c names).
Proof.
  induction names as [|name names IH]; [apply respects_ret|].
  cbn [resolve_children]. repeat respects_step.
Qed.

Lemma respects_clear_stages node : respects R (clear_stages node).
Proof.
  unfold clear_stages. apply respects_for_list. intros stage _.
  unfold clear_stage. repeat respects_step.
Qed.

(** ... and writing [self.cache[ty][fqn]] respects it too. *)
Hypothesis R_write : ∀ ty fqn v, respects R (cache_set ty fqn v).

Lemma respects_get_fqn_source_hash_dict parent_type child_type fqn :
  respects R (get_fqn_source_hash_dict c parent_type child_type fqn).
Proof.
  unfold get_fqn_source_hash_dict, list_all_entities.
  apply respects_bind; [repeat respects_step|]. intros l.
  apply respects_bind; [|intros _; repeat respects_step].
  apply respects_for_list. intros e _.
  unfold record_source_hash, source_hash. repeat respects_step.
Qed.

Lemma respects__init_cache_dict stage child_nodes :
  respects R (_init_cache_dict c stage child_nodes).
Proof.
  pose proof respects_get_fqn_source_hash_dict.
  unfold _init_cache_dict.
  apply respects_for_list. intros n _.
  apply respects_for_list. intros st _.
  repeat respects_step.
Qed.

Lemma respects__process_stage stage node_entity child_nodes :
  respects R (_process_stage c stage node_entity child_nodes).
Proof.
  pose proof (respects__init_cache_dict stage child_nodes).
  unfold _process_stage, log.
  apply respects_bind; [repeat respects_step|]. intros _.
  apply respects_bind; [repeat respects_step|]. intros stage_fn.
  apply respects_bind; [repeat respects_step|]. intros ctx.
  apply respects_bind; [|intros _; repeat respects_step].
  apply respects_for_generator. intros r. unfold sink_or_warn, log.
  pose proof (respects_sink_request stage r).
  repeat respects_step.
Qed.

Lemma respects_process_nodes depth nodes :
  respects R (process_nodes c depth nodes).
Proof.
  revert nodes. induction depth as [|depth IH]; intros nodes;
    [apply respects_raise|].
  cbn [process_nodes]. apply respects_for_list. intros node _.
  unfold log.
  apply respects_bind; [repeat respects_step|]. intros _.
  apply respects_bind; [repeat respects_step|]. intros node_producer.
  apply respects_bind; [apply respects_resolve_children|].
  intros child_nodes.
  apply respects_bind; [repeat respects_step|]. intros ctx.
  apply respects_bind;
    [|intros _; apply respects__run_node_post_process].
  apply respects_for_generator. intros node_entity.
  unfold process_candidate, run_stages.
  apply respects_bind.
  { apply respects_for_list. intros stage _.
    apply respects__process_stage. }
  intros _. apply respects_bind; [apply respects_clear_stages|].
  intros _. apply IH.
Qed.

End Respects.

(** ** The fingerprint cache along the run *)

#[local] Instance same_cache_preorder : PreOrder same_cache.
Proof.
  split.
  - by intros s ty fqn.
  - intros s1 s2 s3 H12 H23 ty fqn. by rewrite H23, H12.
Qed.

#[local] Instance cache_grows_preorder : PreOrder cache_grows.
Proof.
  split.
  - by intros s ty fqn.
  - intros s1 s2 s3 H12 H23 ty fqn Hs. by apply H23, H12.
Qed.

Lemma same_cache_grows s s' : same_cache s s' → cache_grows s s'.
Proof. intros Hsame ty fqn. by rewrite Hsame. Qed.

(** Reading [self.cache[ty]] may store an empty dict; no lookup sees it. *)
Lemma cache_of_type_same_cache ty : respects same_cache (cache_of_type ty).
Proof.
  intros s ty' fqn. unfold cache_of_type, bind, gets.
  destruct (self_cache s !! ty) as [d|] eqn:Hd; [done|].
  unfold set_cache, ret, cache_lookup. cbn [snd self_cache].
  destruct (decide (ty' = ty)) as [->|Hne].
  - by rewrite lookup_insert_eq, Hd.
  - by rewrite lookup_insert_ne.
Qed.

Lemma cache_set_grows ty fqn v : respects cache_grows (cache_set ty fqn v).
Proof.
  intros s ty' fqn' Hsome.
  rewrite cache_set_run. unfold cache_lookup in *. cbn [snd self_cache].
  destruct (decide (ty' = ty)) as [->|Hne].
  - rewrite lookup_insert_eq. cbn.
    destruct (decide (fqn' = fqn)) as [->|Hne'].
    + by rewrite lookup_insert_eq.
    + rewrite lookup_insert_ne by done. unfold cache_dict.
      by destruct (self_cache s !! ty).
  - by rewrite lookup_insert_ne.
Qed.

Lemma same_cache_events s evs : same_cache s (add_events s evs).
Proof. by intros ty fqn. Qed.

Lemma same_cache_context s ctx : same_cache s (with_context s ctx).
Proof. by intros ty fqn. Qed.

(** X1.  A dispatch never changes what the fingerprint cache answers: the
    fingerprint that [sink_request] computes for a request, and the entity
    it may fetch, are not recorded in the cache.  The cache is filled by the
    listings of [get_fqn_source_hash_dict] alone. *)
Theorem dispatch_leaves_fingerprint_cache env stage r s ty fqn :
  cache_lookup (sink_request env stage r s).2 ty fqn = cache_lookup s ty fqn.
Proof.
  apply (respects_sink_request same_cache same_cache_events
           same_cache_context cache_of_type_same_cache).
Qed.

(** X2.  A fingerprint that is in the cache stays in the cache, whatever
    the traversal does afterwards and however it ends: listings add and
    replace entries, and nothing removes one. *)
Theorem traversal_never_drops_cached_fingerprint env depth nodes s ty fqn :
  is_Some (cache_lookup s ty fqn) →
  is_Some (cache_lookup (process_nodes env depth nodes s).2 ty fqn).
Proof.
  revert ty fqn.
  apply (respects_process_nodes cache_grows).
  - intros s0 evs. apply same_cache_grows, same_cache_events.
  - intros s0 ctx. apply same_cache_grows, same_cache_context.
  - intros ty s0. apply same_cache_grows, cache_of_type_same_cache.
  - apply cache_set_grows.
Qed.

(** ** How much one dispatch does *)

Section Emits.
Context (P : Event → Prop).

Lemma emits_silent {A} (m : M A) :
  (∀ s, trace (m s).2 = trace s) → emits 0 0 P m.
Proof.
  intros Hm s. exists []. rewrite Hm, app_nil_r. by repeat split.
Qed.

Lemma emits_ret {A} (a : A) : emits 0 0 P (ret a).
Proof. by apply emits_silent. Qed.

Lemma emits_raise {A} e : emits 0 0 P (@raise A e).
Proof. by apply emits_silent. Qed.

Lemma emits_gets {A} (f : State → A) : emits 0 0 P (gets f).
Proof. by apply emits_silent. Qed.

Lemma emits_set_context ctx : emits 0 0 P (set_context ctx).
Proof. by apply emits_silent. Qed.

Lemma emits_set_cache c : emits 0 0 P (set_cache c).
Proof. by apply emits_silent. Qed.

Lemma emits_call {A} (r : Res A) : emits 0 0 P (call r).
Proof. apply emits_silent. intros s. unfold call. by destruct r. Qed.

Lemma emits_getattr (o : Obj) attr : emits 0 0 P (getattr o attr).
Proof. apply emits_silent. intros s. unfold getattr. by destruct (o !! attr). Qed.

Lemma emits_event ev :
  P ev →
  emits (length (yields_of [ev])) (length (remote_calls_of [ev])) P (emit ev).
Proof.
  intros Hev s. exists [ev]. split; [done|]. split; [done|]. split; [done|].
  by constructor.
Qed.

Lemma emits_weaken {A} ny nr ny' nr' (m : M A) :
  ny ≤ ny' → nr ≤ nr' → emits ny nr P m → emits ny' nr' P m.
Proof.
  intros Hy Hr Hm s. destruct (Hm s) as (evs & Htr & Hny & Hnr & HP).
  exists evs. repeat split; [done | lia | lia | done].
Qed.

Lemma emits_bind {A B} ny1 nr1 ny2 nr2 (m : M A) (f : A → M B) :
  emits ny1 nr1 P m → (∀ a, emits ny2 nr2 P (f a)) →
  emits (ny1 + ny2) (nr1 + nr2) P (bind m f).
Proof.
  intros Hm Hf s. unfold bind.
  destruct (Hm s) as (evs1 & Htr1 & Hny1 & Hnr1 & HP1).
  destruct (m s) as [[a|e] s1]; cbn [snd] in *.
  - destruct (Hf a s1) as (evs2 & Htr2 & Hny2 & Hnr2 & HP2).
    exists (evs1 ++ evs2). rewrite Htr2, Htr1, <- app_assoc.
    rewrite yields_of_app, remote_calls_of_app, !length_app.
    repeat split; [lia | lia | by apply Forall_app].
  - exists evs1. repeat split; [done | lia | lia | done].
Qed.

Lemma emits_when ny nr b m : emits ny nr P m → emits ny nr P (when b m).
Proof.
  destruct b; [done|]. intros _.
  apply (emits_weaken 0 0); [lia | lia | apply emits_ret].
Qed.

End Emits.

Section DispatchBounds.
Context (env : Collab.t) (stage : NodeStage).

Abbreviation P := (dispatch_event stage).

Lemma emits_get_by_name fqn :
  emits 0 1 P (get_by_name env (type_ stage) fqn).
Proof.
  unfold get_by_name.
  apply (emits_bind P 0 0 0 1); [apply emits_gets|]. intros tr.
  apply (emits_bind P 0 1 0 0); [|intros; apply emits_call].
  by apply (emits_event P (EvGetByName (type_ stage) fqn)).
Qed.

Lemma emits_ack_poll tries fqn entity :
  emits 0 tries P (ack_poll env tries (type_ stage) fqn entity).
Proof.
  revert entity. induction tries as [|tries IH]; intros [e|]; cbn [ack_poll];
    try (apply (emits_weaken P 0 0); [lia | lia | apply emits_ret]).
  apply (emits_bind P 0 1 0 tries); [apply emits_get_by_name|].
  intros entity. apply IH.
Qed.

Lemma emits_lookup_unless_overwrite fqn :
  emits 0 1 P (lookup_unless_overwrite env stage fqn).
Proof.
  unfold lookup_unless_overwrite.
  destruct (negb (overwrite stage) && negb (_is_force_overwrite_enabled env)).
  - apply (emits_bind P 0 1 0 0); [apply emits_get_by_name|].
    intros; apply emits_ret.
  - apply (emits_weaken P 0 0); [lia | lia | apply emits_ret].
Qed.

Lemma emits_attach_source_hash (o : Obj) :
  emits 0 0 P (attach_source_hash env o).
Proof.
  unfold attach_source_hash, source_hash.
  destruct (bool_decide (is_Some (o !! "sourceHash"))); [|apply emits_ret].
  apply (emits_bind P 0 0 0 0); [|intros; apply emits_ret].
  apply (emits_bind P 0 0 0 0); [|intros; apply emits_call].
  by apply (emits_event P (EvSourceHash o)).
Qed.

Lemma emits_cache_get fqn :
  emits 0 0 P (cache_get (type_ stage) fqn).
Proof.
  intros s. rewrite cache_get_run. eexists. split; [done|].
  repeat split; [done | done |]. by constructor.
Qed.

Lemma emits_compare_with_cache fqn entity same h (o : Obj) :
  emits 0 1 P (compare_with_cache env stage fqn entity same h o).
Proof.
  unfold compare_with_cache, log.
  destruct (bool_decide (entity = None) && use_cache stage);
    [|apply (emits_weaken P 0 0); [lia | lia | apply emits_ret]].
  apply (emits_bind P 0 0 0 1); [apply emits_cache_get|].
  intros [cached|]; [|apply (emits_weaken P 0 0); [lia|lia|apply emits_ret]].
  destruct (truthy cached);
    [|apply (emits_weaken P 0 0); [lia | lia | apply emits_ret]].
  destruct (bool_decide (cached ≠ h)).
  - apply (emits_bind P 0 1 0 0); [apply emits_get_by_name|].
    intros [original|]; apply emits_ret.
  - apply (emits_weaken P 0 0); [lia | lia |].
    apply (emits_bind P 0 0 0 0); [|intros; apply emits_ret].
    by apply (emits_event P (EvLog _)).
Qed.

Lemma emits_await_ack fqn entity :
  emits 0 3 P (await_ack env stage fqn entity).
Proof.
  unfold await_ack. apply emits_when.
  apply (emits_bind P 0 3 0 0); [apply emits_ack_poll|].
  intros [e|]; [apply emits_ret | apply emits_raise].
Qed.

Lemma emits_update_context_value value :
  emits 0 0 P (update_context_value stage value).
Proof.
  unfold update_context_value. destruct (context stage); [|apply emits_ret].
  apply (emits_bind P 0 0 0 0); [apply emits_gets|].
  intros; apply emits_set_context.
Qed.

Lemma emits_update_context_name (o : Obj) :
  emits 0 0 P (update_context_name env stage o).
Proof.
  unfold update_context_name.
  apply (emits_bind P 0 0 0 0); [apply emits_getattr|].
  intros; apply emits_update_context_value.
Qed.

Lemma emits_yield er : emits 1 0 P (yield_ er).
Proof. by apply (emits_event P (EvYield er)). Qed.

Lemma emits_yield_and_update_context r er :
  emits 1 5 P (yield_and_update_context env r stage er).
Proof.
  destruct r as [o | fromEntity toEntity | o | o | original new_entity];
    cbn [yield_and_update_context].
  - unfold yield_and_update_context_default.
    apply (emits_bind P 0 0 1 5); [apply emits_getattr|]. intros name.
    apply (emits_bind P 0 0 1 5); [apply emits_gets|]. intros ctx.
    apply (emits_bind P 0 0 1 5); [apply emits_call|]. intros entity_fqn.
    apply (emits_bind P 0 1 1 4); [apply emits_lookup_unless_overwrite|].
    intros found.
    apply (emits_bind P 0 0 1 4); [apply emits_attach_source_hash|].
    intros hashed.
    apply (emits_bind P 0 1 1 3); [apply emits_compare_with_cache|].
    intros compared.
    apply (emits_bind P 1 0 0 3); [apply emits_when, emits_yield|].
    intros _.
    apply (emits_bind P 0 3 0 0); [apply emits_await_ack|].
    intros _. apply emits_update_context_name.
  - apply (emits_weaken P 1 0); [lia | lia |].
    apply (emits_bind P 1 0 0 0); [apply emits_yield|].
    intros _. apply emits_update_context_name.
  - apply (emits_weaken P 1 0); [lia | lia |].
    apply (emits_bind P 1 0 0 0); [apply emits_yield|].
    intros _. apply emits_update_context_value.
  - apply (emits_weaken P 1 0); [lia | lia |].
    apply (emits_bind P 1 0 0 0); [apply emits_yield|].
    intros _. apply emits_update_context_value.
  - apply (emits_weaken P 0 0); [lia | lia | apply emits_raise].
Qed.

(** X3.  Whatever the request, the stage and the state, one call of
    [sink_request] yields at most one outcome and makes at most five remote
    calls, each of them a lookup by name of an entity of the type of the
    stage (the lookup of a stage that must not overwrite, the fetch for a
    patch, and three polls for the acknowledgement); it never lists. *)
Theorem dispatch_yields_once_and_looks_up_five_times r :
  emits 1 5 (dispatch_event stage) (sink_request env stage r).
Proof.
  unfold sink_request.
  apply (emits_bind P 0 0 1 5).
  { destruct (negb (nullable stage) && bool_decide (_ = None));
      [|apply emits_ret].
    destruct r as [er|]; [|apply emits_raise].
    destruct (bool_decide (left er = None));
      [apply emits_raise | apply emits_ret]. }
  intros _. destruct r as [er|];
    [|apply (emits_weaken P 0 0); [lia | lia | apply emits_ret]].
  destruct (right er) as [r|].
  - destruct (context_bound stage).
    + apply emits_yield_and_update_context.
    + apply (emits_weaken P 1 0); [lia | lia | apply emits_yield].
  - apply (emits_weaken P 1 0); [lia | lia | apply emits_yield].
Qed.

End DispatchBounds.

(** ** The exceptions of a dispatch *)

Section DispatchExceptions.
Context (c : Collab.t) (stage : NodeStage).

Abbreviation own_or_collaborator :=
  (fun e => dispatch_exception stage e ∨ raised_by_collaborator c stage e).

#[local] Hint Extern 1 (dispatch_exception _ _ ∨ _) =>
  (left; by simpl) : raises.

Lemma raises_only_call {A} (Q : Exn → Prop) (r : Res A) :
  (∀ e, r = Raise e → Q e) → raises_only Q (call r).
Proof.
  intros Hr s e s'. unfold call. destruct r as [a|e']; [done|].
  intros [= <- _]. by apply Hr.
Qed.

Lemma get_by_name_raises_lookup fqn :
  raises_only
    (fun e => ∃ tr fqn,
       Collab.metadata_get_by_name c tr (type_ stage) fqn = Raise e)
    (get_by_name c (type_ stage) fqn).
Proof.
  unfold get_by_name. apply raises_only_bind; [apply raises_only_gets|].
  intros tr. apply raises_only_bind; [apply raises_only_emit|]. intros _.
  apply raises_only_call. eauto.
Qed.

Lemma ack_poll_raises_lookup tries fqn entity :
  raises_only
    (fun e => ∃ tr fqn,
       Collab.metadata_get_by_name c tr (type_ stage) fqn = Raise e)
    (ack_poll c tries (type_ stage) fqn entity).
Proof.
  revert entity. induction tries as [|tries IH]; intros [e|]; simpl;
    try apply raises_only_ret.
  apply raises_only_bind;
    [apply get_by_name_raises_lookup | intros ?; apply IH].
Qed.

(** The wait for the acknowledgement raises on a [must_return] stage only:
    the missing acknowledgement, or what a poll raises. *)
Lemma await_ack_raises_only fqn entity :
  raises_only
    (fun e =>
       must_return stage = true ∧
       (dispatch_exception stage e ∨
        ∃ tr fqn,
          Collab.metadata_get_by_name c tr (type_ stage) fqn = Raise e))
    (await_ack c stage fqn entity).
Proof.
  unfold await_ack. destruct (must_return stage) eqn:Hmr;
    [|apply raises_only_ret].
  apply raises_only_when. apply raises_only_bind.
  - intros s e s' Hrun. split; [done|]. right.
    by apply ack_poll_raises_lookup in Hrun.
  - intros [e|]; [apply raises_only_ret|]. apply raises_only_raise.
    split; [done|]. left. by simpl.
Qed.

Lemma get_by_name_raises_only fqn :
  raises_only own_or_collaborator (get_by_name c (type_ stage) fqn).
Proof.
  intros s e s' Hrun. apply get_by_name_raises_lookup in Hrun.
  right. by right; right.
Qed.

Lemma await_ack_raises fqn entity :
  raises_only own_or_collaborator (await_ack c stage fqn entity).
Proof.
  intros s e s' Hrun.
  apply await_ack_raises_only in Hrun as [_ [Hown | Hlookup]];
    [by left | right; by right; right].
Qed.

Lemma update_context_name_raises_name (o : Obj) :
  raises_only own_or_collaborator (update_context_name c stage o).
Proof.
  unfold update_context_name, update_context_value. repeat raises_step.
Qed.

Lemma yield_and_update_context_raises_only r er :
  raises_only own_or_collaborator
    (yield_and_update_context c r stage er).
Proof.
  pose proof get_by_name_raises_only.
  pose proof await_ack_raises.
  pose proof update_context_name_raises_name.
  assert (∀ ctx name,
            raises_only own_or_collaborator
              (call (Collab.fqn_from_stage c ctx stage (Some name)))).
  { intros ctx name. apply raises_only_call. intros e He.
    right. left. eauto. }
  assert (∀ o,
            raises_only own_or_collaborator
              (call (Collab.generate_source_hash c o))).
  { intros o. apply raises_only_call. intros e He.
    right. right. left. eauto. }
  unfold yield_and_update_context, yield_and_update_context_default,
    lookup_unless_overwrite, attach_source_hash, compare_with_cache,
    source_hash, cache_get, cache_of_type, yield_, log,
    update_context_value.
  destruct r; repeat raises_step.
Qed.

(** X4.  The exceptions of [sink_request], and where they come from.
    - [ValueError], with the text of line 391: the stage is not nullable
      and the [Either] has neither side; nothing has happened yet.
    - [AttributeError] for [left]: the stage is not nullable and the request
      is [None]; nothing has happened yet.
    - [AttributeError] for [name]: the stage is bound to a context slot and
      the object that gives the name has none.
    - [MissingExpectedEntityAckException]: the stage is bound to a context
      slot and is [must_return]; the exception names the type of the stage.
    - Whatever a collaborator raises when the runner calls it on a stage
      that is bound to a context slot: [fqn_from_stage], the fingerprint
      helper, or a lookup by name of an entity of the type of the stage.
    The runner raises no other of its own, and catches none. *)
Theorem sink_request_raises_only r s e s' :
  sink_request c stage r s = (Raise e, s') →
  (e = ValueError "Value unexpectedly None" ∧ s' = s ∧
   nullable stage = false ∧ r = Some {| left := None; right := None |}) ∨
  (e = AttributeError "left" ∧ s' = s ∧ nullable stage = false ∧
   r = None) ∨
  (context_bound stage = true ∧
   (e = AttributeError "name" ∨
    (must_return stage = true ∧
     ∃ fqn, e = MissingExpectedEntityAckException (type_ stage) fqn) ∨
    raised_by_collaborator c stage e)).
Proof.
  unfold sink_request. unfold bind at 1.
  destruct (negb (nullable stage) &&
            bool_decide (match r with Some er => right er | None => None end
                         = None)) eqn:Hguard.
  - apply andb_true_iff in Hguard as [Hnull Hright].
    apply negb_true_iff in Hnull. apply bool_decide_eq_true in Hright.
    destruct r as [[l r]|]; cbn [left right] in *.
    + subst r. destruct l as [l|].
      * rewrite bool_decide_eq_false_2 by done. unfold ret, yield_.
        by intros [=].
      * rewrite bool_decide_eq_true_2 by done. intros [= <- <-]. by left.
    + intros [= <- <-]. right. by left.
  - unfold ret. intros Hrun. right. right.
    destruct r as [er|]; [|by inversion Hrun].
    destruct (right er) as [r|]; [|by inversion Hrun].
    destruct (context_bound stage) eqn:Hb; [|by inversion Hrun].
    split; [done|].
    apply yield_and_update_context_raises_only in Hrun as [Hown|Hcol];
      [|by right; right].
    destruct e; cbn in Hown; try done.
    + left. by subst.
    + right. left. destruct Hown as [-> Hmr]. eauto.
Qed.

(** Collaborators that behave raise nothing. *)
Lemma behaved_raises_nothing (env : Env) st e :
  ¬ raised_by_collaborator env st e.
Proof. by intros [(ctx & name & [=]) | [(o & [=]) | (tr & fqn & [=])]]. Qed.

End DispatchExceptions.

(** ** The loop over the requests of a stage *)

Section StageLoop.
Context (c : Collab.t) (stage : NodeStage).

Lemma bind_raise_inv {A B} (m : M A) (f : A → M B) s e s' :
  bind m f s = (Raise e, s') →
  m s = (Raise e, s') ∨ ∃ a s1, m s = (Ok a, s1) ∧ f a s1 = (Raise e, s').
Proof.
  unfold bind. destruct (m s) as [[a|e1] s1]; [|intros [= -> ->]; by left].
  intros Hf. right. by exists a, s1.
Qed.

Lemma emits_no_yield {A} nr P (m : M A) s r s1 :
  emits 0 nr P m → m s = (r, s1) →
  yields_of (trace s1) = yields_of (trace s).
Proof.
  intros Hm Hrun. destruct (Hm s) as (evs & Htr & Hny & _).
  rewrite Hrun in Htr. cbn [snd] in Htr. rewrite Htr, yields_of_app.
  destruct (yields_of evs); [by rewrite app_nil_r | simpl in Hny; lia].
Qed.

Lemma update_context_name_raises (o : Obj) :
  raises_only not_ValueError (update_context_name c stage o).
Proof.
  unfold update_context_name, update_context_value.
  repeat raises_step.
Qed.

(** A [ValueError] out of the default dispatch comes before the yield, or
    from a poll for the acknowledgement. *)
Lemma yield_and_update_context_default_ValueError (o : Obj) er s msg s' :
  yield_and_update_context_default c o stage er s
  = (Raise (ValueError msg), s') →
  yields_of (trace s') = yields_of (trace s) ∨
  (must_return stage = true ∧
   ∃ tr fqn,
     Collab.metadata_get_by_name c tr (type_ stage) fqn
     = Raise (ValueError msg)).
Proof.
  unfold yield_and_update_context_default. intros H.
  apply bind_raise_inv in H as [H | (name & s1 & H1 & H)].
  { left. exact (emits_no_yield _ _ _ _ _ _
                   (emits_getattr (dispatch_event stage) _ _) H). }
  pose proof (emits_no_yield _ _ _ _ _ _
                (emits_getattr (dispatch_event stage) _ _) H1) as Hy1.
  apply bind_raise_inv in H as [H | (ctx & s2 & H2 & H)]; [done|].
  injection H2 as <- <-.
  apply bind_raise_inv in H as [H | (entity_fqn & s3 & H3 & H)].
  { left. rewrite <- Hy1.
    exact (emits_no_yield _ _ _ _ _ _
             (emits_call (dispatch_event stage) _) H). }
  pose proof (emits_no_yield _ _ _ _ _ _
                (emits_call (dispatch_event stage) _) H3) as Hy3.
  apply bind_raise_inv in H as [H | (found & s4 & H4 & H)].
  { left. rewrite <- Hy1, <- Hy3.
    exact (emits_no_yield _ _ _ _ _ _
             (emits_lookup_unless_overwrite c stage _) H). }
  pose proof (emits_no_yield _ _ _ _ _ _
                (emits_lookup_unless_overwrite c stage _) H4) as Hy4.
  apply bind_raise_inv in H as [H | (hashed & s5 & H5 & H)].
  { left. rewrite <- Hy1, <- Hy3, <- Hy4.
    exact (emits_no_yield _ _ _ _ _ _
             (emits_attach_source_hash c stage _) H). }
  pose proof (emits_no_yield _ _ _ _ _ _
                (emits_attach_source_hash c stage _) H5) as Hy5.
  apply bind_raise_inv in H as [H | (compared & s6 & H6 & H)].
  { left. rewrite <- Hy1, <- Hy3, <- Hy4, <- Hy5.
    exact (emits_no_yield _ _ _ _ _ _
             (emits_compare_with_cache c stage _ _ _ _ _) H). }
  right.
  apply bind_raise_inv in H as [H | ([] & s7 & _ & H)].
  { by destruct (negb compared.1.2). }
  apply bind_raise_inv in H as [H | ([] & s8 & _ & H)].
  - apply await_ack_raises_only in H as [Hmr [Hown | Hlookup]]; done.
  - by apply update_context_name_raises in H.
Qed.

(** A [ValueError] out of [sink_request]: either nothing has been yielded
    for the request, or the request has been yielded and the error comes
    from a poll for its acknowledgement. *)
Lemma sink_request_ValueError r s msg s' :
  sink_request c stage r s = (Raise (ValueError msg), s') →
  yields_of (trace s') = yields_of (trace s) ∨
  (must_return stage = true ∧
   ∃ tr fqn,
     Collab.metadata_get_by_name c tr (type_ stage) fqn
     = Raise (ValueError msg)).
Proof.
  unfold sink_request. intros H.
  apply bind_raise_inv in H as [H | ([] & s1 & H1 & H)].
  { left. destruct (negb (nullable stage) && _); [|done].
    destruct r as [er|]; [|by injection H as _ <-].
    destruct (bool_decide (left er = None)); [|done].
    by injection H as _ <-. }
  assert (s1 = s) as ->.
  { destruct (negb (nullable stage) && _); [|by injection H1].
    destruct r as [er|]; [|done].
    destruct (bool_decide (left er = None)); [done | by injection H1]. }
  destruct r as [er|]; [|done].
  destruct (right er) as [r|]; [|done].
  destruct (context_bound stage); [|done].
  destruct r as [o | fromEntity toEntity | o | o | original new_entity];
    cbn [yield_and_update_context] in H.
  - by apply yield_and_update_context_default_ValueError in H.
  - apply bind_raise_inv in H as [H | ([] & s2 & _ & H)]; [done|].
    by apply update_context_name_raises in H.
  - apply bind_raise_inv in H as [H | ([] & s2 & _ & H)]; [done|].
    unfold update_context_value in H. by destruct (context stage).
  - apply bind_raise_inv in H as [H | ([] & s2 & _ & H)]; [done|].
    unfold update_context_value in H. by destruct (context stage).
  - done.
Qed.


(** X7.  What [_process_stage] does not isolate.  [_process_stage] runs
    [stage] on a candidate and the loop over the requests of the stage
    transform has come to the request [r].  If the dispatch of [r] raises
    anything but a [ValueError] (a missing acknowledgement, an
    [AttributeError], a failure of the remote store), [_process_stage] ends
    with that exception where the dispatch left off: nothing is logged, the
    requests that the generator would still give are not asked for, and the
    cache of the stage is not filled. *)
Theorem other_exceptions_end_the_stage
    stage_fn node_entity child_nodes r k s si e s' :
  Collab.processors c (processor stage) = Some stage_fn →
  reaches (sink_or_warn c stage)
    (default GenStop (stage_fn node_entity (self_context s)))
    (add_events s [EvLog (DebugProcessingStage stage)])
    (GenYield r k) si →
  sink_request c stage r si = (Raise e, s') →
  is_ValueError e = false →
  _process_stage c stage node_entity child_nodes s = (Raise e, s').
Proof.
  intros Hfn Hreach Hrun Hother.
  unfold _process_stage.
  unfold bind at 1. unfold log at 1, emit at 1.
  unfold bind at 1. unfold getattr_self. rewrite Hfn. unfold ret at 1.
  unfold bind at 1. unfold gets at 1. cbn [self_context add_events].
  unfold bind at 1. rewrite (reaches_run _ _ _ _ _ Hreach).
  cbn [for_generator]. unfold bind at 1.
  unfold sink_or_warn at 1, try_except. by rewrite Hrun, Hother.
Qed.

End StageLoop.

(** ** Requests that are not reconciled *)

Section Unreconciled.
Context (env : Env).

(** X5.  An [Either] without a right value is not dispatched.  With a left
    value (a failure record) it is yielded as it is, on every stage.  With
    neither side it is yielded as it is on a nullable stage and is a
    [ValueError] on the others.  In no case is there another effect. *)
Theorem request_without_right_is_passed_on stage er s :
  right er = None →
  sink_request env stage (Some er) s
  = if bool_decide (left er = None) && negb (nullable stage)
    then (Raise (ValueError "Value unexpectedly None"), s)
    else (Ok tt, add_events s [EvYield er]).
Proof.
  intros Hr. unfold sink_request. rewrite Hr.
  rewrite bool_decide_eq_true_2 by done. rewrite andb_true_r.
  destruct (nullable stage); cbn [negb]; [by rewrite andb_false_r|].
  rewrite andb_true_r.
  by destruct (bool_decide (left er = None)).
Qed.

(** X6.  The registered variants of [yield_and_update_context].  A tag or
    custom-property request on a context-bound stage is yielded as it is and
    stored whole in the slot of the stage; a lineage request is yielded as it
    is and the slot gets the name of the entity the edge starts from (if that
    entity has no name the [AttributeError] comes after the yield).  Whatever
    the flags of the stage and the content of the cache, no fingerprint is
    computed, the cache is not read and the remote store is not called. *)
Theorem registered_variants_are_yielded_as_they_are stage er r slot s :
  context stage = Some slot →
  slot ≠ "" →
  right er = Some r →
  match r with
  | RTagAndClassification _ | RCustomProperties _ =>
      sink_request env stage (Some er) s
      = (Ok tt,
         with_context (add_events s [EvYield er])
           (<[slot := CRaw r]> (self_context s)))
  | RAddLineage fromEntity _ =>
      sink_request env stage (Some er) s
      = match fromEntity !! "name" with
        | Some name =>
            (Ok tt,
             with_context (add_events s [EvYield er])
               (<[slot := CName (model_str env name)]> (self_context s)))
        | None => (Raise (AttributeError "name"), add_events s [EvYield er])
        end
  | RModel _ | RPatch _ _ => True
  end.
Proof.
  intros Hslot Hne Hr.
  assert (context_bound stage = true) as Hb.
  { unfold context_bound. rewrite Hslot. by apply bool_decide_eq_true_2. }
  destruct r as [o | fromEntity toEntity | o | o | original new_entity];
    try done.
  - unfold sink_request. rewrite Hr, Hb.
    rewrite bool_decide_eq_false_2 by done. rewrite andb_false_r.
    unfold bind at 1, ret at 1. cbn [yield_and_update_context].
    unfold bind, yield_, emit, update_context_name, getattr.
    destruct (fromEntity !! "name") as [name|]; [|done].
    unfold ret, bind, update_context_value. by rewrite Hslot.
  - unfold sink_request. rewrite Hr, Hb.
    rewrite bool_decide_eq_false_2 by done. rewrite andb_false_r.
    unfold bind at 1, ret at 1. cbn [yield_and_update_context].
    unfold bind, yield_, emit, update_context_value. by rewrite Hslot.
  - unfold sink_request. rewrite Hr, Hb.
    rewrite bool_decide_eq_false_2 by done. rewrite andb_false_r.
    unfold bind at 1, ret at 1. cbn [yield_and_update_context].
    unfold bind, yield_, emit, update_context_value. by rewrite Hslot.
Qed.

End Unreconciled.

(** ** Stages that do not use the cache *)

Section WithoutCache.
Context (env : Env).

Lemma remote_calls_of_polls n ty fqn :
  remote_calls_of (replicate n (EvGetByName ty fqn))
  = replicate n (EvGetByName ty fqn).
Proof. induction n; simpl; [done|]. by f_equal. Qed.

(** X8.  A request with a name reaches a context-bound stage that does not
    use the cache.  Unless the stage must not overwrite, force-overwrite is
    off and the remote store has the entity, the request is yielded as a
    create request, with its fingerprint stored in [sourceHash] when it has
    that field and unchanged when it has not: the cache is not read.  With
    force-overwrite on, a stage that needs no acknowledgement makes no
    remote call, whatever its [overwrite] flag says and whatever the remote
    store holds. *)
Theorem stage_without_cache_writes_unless_found stage er (o : Obj) n s :
  let fqn :=
    fqn_from_stage env (self_context s) stage (CName (model_str env n)) in
  let fingerprint :=
    match o !! "sourceHash" with
    | Some _ => [EvSourceHash o]
    | None => []
    end in
  let sent :=
    match o !! "sourceHash" with
    | Some _ => <["sourceHash" := VStr (generate_source_hash env o)]> o
    | None => o
    end in
  let create := {| left := left er; right := Some (RModel sent) |} in
  let s' := (sink_request env stage (Some er) s).2 in
  context_bound stage = true →
  use_cache stage = false →
  right er = Some (RModel o) →
  o !! "name" = Some n →
  (negb (overwrite stage) && negb (_is_force_overwrite_enabled env) = true →
   metadata_get_by_name env (trace s) (type_ stage) fqn = None) →
  yields_of (trace s') = yields_of (trace s) ++ [create] ∧
  (∃ k, k ≤ 3 ∧ (must_return stage = false → k = 0) ∧
     trace s'
     = trace s ++ prior_lookup env stage fqn ++ fingerprint
         ++ [EvYield create]
         ++ replicate k (EvGetByName (type_ stage) fqn)) ∧
  (_is_force_overwrite_enabled env = true →
   must_return stage = false →
   remote_calls_of (trace s') = remote_calls_of (trace s)).
Proof.
  intros fqn fingerprint sent create s' Hb Hc Hr Hn Hprior.
  assert (∃ k, k ≤ 3 ∧ (must_return stage = false → k = 0) ∧
    trace s'
    = trace s ++ prior_lookup env stage fqn ++ fingerprint
        ++ [EvYield create]
        ++ replicate k (EvGetByName (type_ stage) fqn)) as Htrace.
  { subst s'. rewrite (sink_request_model env _ _ _ _ Hr Hb).
    unfold yield_and_update_context_default.
    unfold bind at 1. rewrite (getattr_run _ _ _ _ Hn).
    unfold bind at 1. unfold gets at 1. behave.
  unfold bind at 1. unfold ret at 1. fold fqn.
    unfold bind at 1.
    rewrite (lookup_unless_overwrite_unresolved env stage fqn s Hprior).
    unfold bind at 1.
    assert (∃ s1,
      attach_source_hash env o
        (add_events s (prior_lookup env stage fqn))
      = (Ok (match o !! "sourceHash" with
             | Some _ => VStr (generate_source_hash env o)
             | None => VNone
             end, sent), s1) ∧
      trace s1 = trace s ++ prior_lookup env stage fqn ++ fingerprint)
      as (s1 & -> & Hs1).
    { subst sent fingerprint.
      destruct (o !! "sourceHash") as [v|] eqn:Hattr.
      - rewrite attach_source_hash_run by (by rewrite Hattr).
        eexists. split; [done|]. simpl. by rewrite <- app_assoc.
      - rewrite attach_source_hash_skip by done.
        eexists. split; [done|]. simpl. by rewrite app_nil_r. }
    cbn [fst snd]. unfold bind at 1.
    rewrite compare_with_cache_skip by (by rewrite Hc, andb_false_r).
    cbn [fst snd negb when]. unfold bind at 1, yield_, emit.
    match goal with
    | |- context [bind (await_ack _ stage ?f ?e) _ ?st] =>
        destruct (after_yield_events env stage f e sent st)
          as (k & Hk & Htr & Hmr & _)
    end.
    exists k. split; [done|]. split; [done|].
    rewrite Htr. simpl. rewrite Hs1. rewrite <- !app_assoc. done. }
  split; [|split; [done|]].
  - destruct Htrace as (k & _ & _ & ->).
    rewrite !yields_of_app, yields_of_prior_lookup, yields_of_polls.
    subst fingerprint. by destruct (o !! "sourceHash").
  - intros Hforce Hmr. destruct Htrace as (k & _ & Hk & ->).
    rewrite (Hk Hmr). unfold prior_lookup. rewrite Hforce, andb_false_r.
    rewrite !remote_calls_of_app. subst fingerprint.
    destruct (o !! "sourceHash"); simpl; by rewrite app_nil_r.
Qed.

End WithoutCache.

(** ** Filling the fingerprint cache *)

Section CacheFilling.
Context (c : Collab.t).

Lemma for_list_app {A} (l1 l2 : list A) (body : A → M unit) s :
  for_list (l1 ++ l2) body s = (for_list l1 body ;; for_list l2 body) s.
Proof.
  revert s. induction l1 as [|a l1 IH]; intros s; [done|].
  cbn [app for_list]. unfold bind.
  destruct (body a s) as [[[]|e] s1]; [|done].
  rewrite IH. done.
Qed.

Lemma for_list_concat {A B} (f : A → list B) (l : list A)
    (body : B → M unit) s :
  for_list l (fun a => for_list (f a) body) s
  = for_list (concat (f <$> l)) body s.
Proof.
  revert s. induction l as [|a l IH]; intros s; [done|].
  cbn [fmap list_fmap concat]. rewrite for_list_app.
  cbn [for_list]. unfold bind.
  destruct (for_list (f a) body s) as [[[]|e] s1]; [|done].
  apply IH.
Qed.

Lemma for_list_filter {A} (p : A → bool) (l : list A)
    (body : A → M unit) s :
  for_list l (fun a => when (p a) (body a)) s
  = for_list (List.filter p l) body s.
Proof.
  revert s. induction l as [|a l IH]; intros s; [done|].
  cbn [for_list List.filter]. destruct (p a); cbn [when for_list].
  - unfold bind. destruct (body a s) as [[[]|e] s1]; [|done]. apply IH.
  - unfold bind at 1, ret at 1. apply IH.
Qed.

(** The two loops of [_init_cache_dict] as one loop over the child stages
    that use the cache. *)
Lemma _init_cache_dict_flat stage child_nodes s :
  _init_cache_dict c stage child_nodes s
  = for_list (caching_child_stages child_nodes) (fun child_stage =>
      ctx <- gets self_context ;;
      match context stage with
      | Some slot =>
          entity_fqn <- call (Collab.fqn_from_stage c ctx stage
                                (ctx !! slot)) ;;
          get_fqn_source_hash_dict c (type_ stage) (type_ child_stage)
            entity_fqn
      | None => raise (KeyError None)
      end) s.
Proof.
  unfold _init_cache_dict, caching_child_stages.
  rewrite <- for_list_filter.
  apply (for_list_concat stages).
Qed.

(** X10.  What the cache filling needs.  With no child stage that uses the
    cache nothing happens at all.  With one, the filling first reads the
    slot of the stage in [self.context.__dict__]: a stage that is bound to
    no slot raises [KeyError] for the key [None]; a stage whose slot is not
    set hands [None] to [fqn_from_stage] as the name, and whatever
    [fqn_from_stage] raises, for that name or for any other, ends the
    filling.  In both cases no listing has been made and nothing has
    changed. *)
Theorem cache_filling_fails_before_any_listing stage child_nodes s :
  match caching_child_stages child_nodes with
  | [] => _init_cache_dict c stage child_nodes s = (Ok tt, s)
  | _ :: _ =>
      match context stage with
      | None =>
          _init_cache_dict c stage child_nodes s = (Raise (KeyError None), s)
      | Some slot =>
          ∀ e,
            Collab.fqn_from_stage c (self_context s) stage
              (self_context s !! slot) = Raise e →
            _init_cache_dict c stage child_nodes s = (Raise e, s)
      end
  end.
Proof.
  rewrite _init_cache_dict_flat.
  destruct (caching_child_stages child_nodes) as [|st sts]; [done|].
  cbn [for_list]. unfold bind at 1. unfold bind at 1, gets at 1.
  destruct (context stage) as [slot|]; [|done].
  intros e He. unfold bind at 1. by rewrite He.
Qed.

End CacheFilling.

Section Listings.
Context (env : Env).

Lemma for_list_ext {A} (l : list A) (f g : A → M unit) s :
  (∀ a s, f a s = g a s) → for_list l f s = for_list l g s.
Proof.
  intros Hfg. revert s. induction l as [|a l IH]; intros s; [done|].
  cbn [for_list]. unfold bind. rewrite Hfg.
  destruct (g a s) as [[[]|e] s1]; [apply IH | done].
Qed.

(** The cache filling of a stage that is bound to a slot, with
    collaborators that behave. *)
Lemma _init_cache_dict_behaved stage child_nodes slot s :
  context stage = Some slot →
  _init_cache_dict env stage child_nodes s
  = for_list (caching_child_stages child_nodes) (fun child_stage =>
      ctx <- gets self_context ;;
      match ctx !! slot with
      | Some entity_name =>
          get_fqn_source_hash_dict env (type_ stage) (type_ child_stage)
            (fqn_from_stage env ctx stage entity_name)
      | None => raise (OtherException "entity_name is None")
      end) s.
Proof.
  intros Hslot. rewrite _init_cache_dict_flat. apply for_list_ext.
  intros st s0. rewrite Hslot. unfold bind at 1 3, gets. behave.
  destruct (self_context s0 !! slot); by unfold bind, call, ret, raise.
Qed.

Lemma get_fqn_source_hash_dict_listed parent_type child_type entity_fqn s :
  Forall listed_entity
    (metadata_list_all_entities env (trace s) child_type
       (listing_params parent_type child_type entity_fqn)) →
  ∃ s',
    get_fqn_source_hash_dict env parent_type child_type entity_fqn s
    = (Ok tt, s') ∧
    self_context s' = self_context s ∧
    trace s'
    = trace s ++ [EvListAll child_type
                    (listing_params parent_type child_type entity_fqn)] ∧
    cache_dict s' child_type
    = foldl (recorded env) (cache_dict s child_type)
        (metadata_list_all_entities env (trace s) child_type
           (listing_params parent_type child_type entity_fqn)) ∧
    (∀ ty, ty ≠ child_type → self_cache s' !! ty = self_cache s !! ty).
Proof.
  intros Hl. rewrite get_fqn_source_hash_dict_behaved.
  destruct (populate_loop env child_type _
              (add_events s
                 [EvListAll child_type
                    (listing_params parent_type child_type entity_fqn)]) Hl)
    as (s' & Hrun & Hctx & Htr & Hdict & Hother).
  exists s'. split; [done|]. by rewrite Hctx, Htr.
Qed.

(** X9.  When a stage with [cache_entities] has handled a request and the
    slot of the stage holds a name, the cache is filled with exactly one
    bulk listing for every stage of every child node that has [use_cache],
    in the order of the child nodes and of their stages.  Each listing asks
    for the entity type of the child stage, filtered by the fully-qualified
    name of the entity in the slot.  No other remote call is made, nothing
    is yielded and the run context is left as it is. *)
Theorem cache_is_filled_by_one_listing_per_caching_child_stage
    stage child_nodes slot entity_name s :
  context stage = Some slot →
  self_context s !! slot = Some entity_name →
  (∀ tr ty params,
     Forall listed_entity (metadata_list_all_entities env tr ty params)) →
  ∃ s',
    _init_cache_dict env stage child_nodes s = (Ok tt, s') ∧
    self_context s' = self_context s ∧
    trace s'
    = trace s
        ++ (listing_event env stage (self_context s) entity_name
              <$> caching_child_stages child_nodes).
Proof.
  intros Hslot Hname Hlisted.
  rewrite (_init_cache_dict_behaved _ _ _ _ Hslot).
  generalize (caching_child_stages child_nodes) as sts.
  intros sts. remember (self_context s) as ctx eqn:Hctx.
  revert s Hctx Hname. induction sts as [|st sts IH]; intros s Hctx Hname.
  - exists s. cbn. by rewrite app_nil_r.
  - cbn [for_list]. unfold bind at 1. unfold bind at 1, gets at 1.
    rewrite <- Hctx, Hname.
    destruct (get_fqn_source_hash_dict_listed (type_ stage) (type_ st)
                (fqn_from_stage env ctx stage entity_name) s
                (Hlisted _ _ _))
      as (s1 & -> & Hctx1 & Htr1 & _).
    destruct (IH s1) as (s' & Hrun & Hctx' & Htr').
    { by rewrite Hctx1. }
    { done. }
    exists s'. split; [done|]. split; [done|].
    rewrite Htr', Htr1. cbn [fmap list_fmap]. rewrite <- app_assoc. done.
Qed.

(** What a listing stores under a name depends on the dict it starts from
    only through the entry of that name. *)
Lemma foldl_recorded_local (l : list Obj) d d' k :
  d !! k = d' !! k →
  foldl (recorded env) d l !! k = foldl (recorded env) d' l !! k.
Proof.
  revert d d'. induction l as [|e l IH]; intros d d' Heq; [done|].
  cbn [foldl]. apply IH. unfold recorded.
  destruct (e !! "sourceHash") as [h|]; [|done].
  destruct (e !! "fullyQualifiedName") as [f|]; [|done].
  destruct (truthy h); [|done].
  destruct (decide (model_str env f = k)) as [->|Hne].
  - by rewrite !lookup_insert_eq.
  - by rewrite !lookup_insert_ne.
Qed.

Lemma recorded_cases (x : Obj) :
  (∀ d, recorded env d x = d) ∨
  (∃ k h, ∀ d, recorded env d x = <[k := h]> d).
Proof.
  unfold recorded.
  destruct (x !! "sourceHash") as [h|]; [|by left].
  destruct (x !! "fullyQualifiedName") as [f|]; [|by left].
  destruct (truthy h); [|by left].
  right. by exists (model_str env f), h.
Qed.

Lemma foldl_recorded_twice (l : list Obj) d :
  foldl (recorded env) (foldl (recorded env) d l) l
  = foldl (recorded env) d l.
Proof.
  apply map_eq. intros k. revert d.
  induction l as [|x l IH] using rev_ind; intros d; [done|].
  rewrite !foldl_app. cbn [foldl].
  set (d1 := foldl (recorded env) d l).
  assert (∀ d2, d2 !! k = d1 !! k →
                foldl (recorded env) d2 l !! k = d1 !! k) as Hstep.
  { intros d2 Hd2. rewrite (foldl_recorded_local l d2 d1 k Hd2).
    subst d1. apply IH. }
  destruct (recorded_cases x) as [Hx|(kx & h & Hx)]; rewrite !Hx.
  - by apply Hstep.
  - destruct (decide (kx = k)) as [->|Hne].
    + by rewrite !lookup_insert_eq.
    + rewrite !lookup_insert_ne by done. apply Hstep.
      by rewrite lookup_insert_ne.
Qed.

(** X11.  Listing again is harmless.  If the same bulk listing is made a
    second time and the remote store answers as the first time, the cache
    answers every lookup after the second listing as it did after the
    first. *)
Theorem listing_twice_is_listing_once
    parent_type child_type entity_fqn s :
  let params := listing_params parent_type child_type entity_fqn in
  let s1 :=
    (get_fqn_source_hash_dict env parent_type child_type entity_fqn s).2 in
  let s2 :=
    (get_fqn_source_hash_dict env parent_type child_type entity_fqn s1).2 in
  Forall listed_entity
    (metadata_list_all_entities env (trace s) child_type params) →
  metadata_list_all_entities env (trace s1) child_type params
  = metadata_list_all_entities env (trace s) child_type params →
  ∀ ty fqn, cache_lookup s2 ty fqn = cache_lookup s1 ty fqn.
Proof.
  intros params s1 s2 Hlisted Hsame ty fqn.
  destruct (get_fqn_source_hash_dict_listed parent_type child_type
              entity_fqn s Hlisted)
    as (s1' & Hrun1 & _ & _ & Hdict1 & _).
  assert (s1 = s1') as Hs1 by (subst s1; by rewrite Hrun1).
  assert (Forall listed_entity
            (metadata_list_all_entities env (trace s1) child_type params))
    as Hlisted1 by (by rewrite Hsame).
  destruct (get_fqn_source_hash_dict_listed parent_type child_type
              entity_fqn s1 Hlisted1)
    as (s2' & Hrun2 & _ & _ & Hdict2 & Hother2).
  assert (s2 = s2') as Hs2 by (subst s2; by rewrite Hrun2).
  rewrite Hs2. destruct (decide (ty = child_type)) as [->|Hne].
  - rewrite !cache_lookup_dict, Hdict2. fold params. rewrite Hsame.
    rewrite Hs1, Hdict1. fold params. by rewrite foldl_recorded_twice.
  - unfold cache_lookup. by rewrite Hother2.
Qed.

(** X12.  Two listed entities under one name.  Whatever the listing holds
    besides, the fingerprint that the cache has for a name after the listing
    is the one of the last listed entity of that name that has a
    fingerprint. *)
Theorem last_listed_fingerprint_wins
    parent_type child_type entity_fqn s before (e : Obj) after h f :
  let params := listing_params parent_type child_type entity_fqn in
  let run :=
    get_fqn_source_hash_dict env parent_type child_type entity_fqn s in
  metadata_list_all_entities env (trace s) child_type params
  = before ++ e :: after →
  Forall listed_entity (before ++ e :: after) →
  e !! "sourceHash" = Some h →
  truthy h = true →
  e !! "fullyQualifiedName" = Some f →
  (∀ e' h', e' ∈ after → e' !! "sourceHash" = Some h' → truthy h' = true →
            fqn_key env e' ≠ Some (model_str env f)) →
  run.1 = Ok tt ∧
  cache_lookup run.2 child_type (model_str env f) = Some h.
Proof.
  intros params run Hlisting Hlisted Hh Ht Hf Hafter.
  rewrite <- Hlisting in Hlisted.
  destruct (get_fqn_source_hash_dict_listed parent_type child_type
              entity_fqn s Hlisted)
    as (s' & Hrun & _ & _ & Hdict & _).
  subst run. rewrite Hrun. split; [done|]. cbn [snd].
  rewrite cache_lookup_dict, Hdict. fold params. rewrite Hlisting.
  rewrite foldl_app. cbn [foldl].
  rewrite (foldl_recorded_other env after _ _ Hafter).
  unfold recorded. rewrite Hh, Hf, Ht. by rewrite lookup_insert_eq.
Qed.

End Listings.

(** ** The traversal, node by node *)

Section Traversal.
Context (env : Env).

Lemma resolve_children_ok names s :
  Forall (fun name => ∃ child, get_topology_node env name = Ok child)
    names →
  ∃ child_nodes, resolve_children env names s = (Ok child_nodes, s).
Proof.
  induction 1 as [|name names [child Hchild] _ [child_nodes IH]].
  - by exists [].
  - exists (child :: child_nodes). cbn [resolve_children]. behave.
    rewrite Hchild. unfold bind. by rewrite IH.
Qed.

Lemma resolve_children_fails before name after e s :
  Forall (fun name => ∃ child, get_topology_node env name = Ok child)
    before →
  get_topology_node env name = Raise e →
  resolve_children env (before ++ name :: after) s = (Raise e, s).
Proof.
  intros Hbefore Hname.
  induction Hbefore as [|b before [child Hchild] _ IH].
  - cbn [app resolve_children]. behave. by rewrite Hname.
  - cbn [app resolve_children]. behave. rewrite Hchild. unfold bind. by rewrite IH.
Qed.

(** X13.  Sibling nodes are processed one after the other.  Processing a
    list of nodes is processing a first part of it and then, from the state
    in which that ended, the rest; if the first part raises, the rest is not
    processed. *)
Theorem process_nodes_in_sequence depth nodes1 nodes2 s :
  process_nodes env depth (nodes1 ++ nodes2) s
  = match process_nodes env depth nodes1 s with
    | (Ok _, s1) => process_nodes env depth nodes2 s1
    | (Raise e, s1) => (Raise e, s1)
    end.
Proof.
  destruct depth as [|depth]; [done|].
  cbn [process_nodes]. rewrite for_list_app. done.
Qed.

(** X14.  A node with a child that the topology does not have.  If the
    producer of the node resolves and one of its child names does not, the
    traversal stops with the exception of that lookup as soon as it reaches
    the node: the producer is not called, nothing is yielded, the hooks of
    the node do not run and the nodes after it are not processed. *)
Theorem unknown_child_stops_the_traversal
    depth node rest node_producer before name after e s :
  producers env (producer node) = Some node_producer →
  children node = Some (before ++ name :: after) →
  Forall (fun name => ∃ child, get_topology_node env name = Ok child)
    before →
  get_topology_node env name = Raise e →
  process_nodes env (S depth) (node :: rest) s
  = (Raise e, add_events s [EvLog (DebugProcessingNode node)]).
Proof.
  intros Hp Hchildren Hbefore Hname.
  cbn [process_nodes for_list].
  unfold bind at 1. unfold bind at 1. unfold log at 1, emit at 1.
  unfold bind at 1. unfold getattr_self. behave. rewrite Hp.
  unfold ret at 1.
  unfold bind at 1. unfold _get_child_nodes. rewrite Hchildren.
  cbn [from_option id].
  by rewrite (resolve_children_fails before name after e _ Hbefore Hname).
Qed.

(** X15.  A node without candidates.  If the producer of a node gives
    [None], or a generator that ends at once, no stage of the node runs and
    its children are not visited: the node is logged, its hooks run from the
    state the traversal reached it in, and the traversal goes on with the
    next node. *)
Theorem node_without_candidates_runs_only_its_hooks
    depth node rest node_producer s :
  producers env (producer node) = Some node_producer →
  Forall (fun name => ∃ child, get_topology_node env name = Ok child)
    (default [] (children node)) →
  node_producer (self_context s) = None
    ∨ node_producer (self_context s) = Some GStop →
  process_nodes env (S depth) (node :: rest) s
  = process_nodes env (S depth) rest
      (add_events s
         (EvLog (DebugProcessingNode node)
            :: node_post_process_events env (self_context s) node)).
Proof.
  intros Hp Hchildren Hnone.
  cbn [process_nodes for_list].
  unfold bind at 1. unfold bind at 1. unfold log at 1, emit at 1.
  unfold bind at 1. unfold getattr_self. behave. rewrite Hp.
  unfold ret at 1.
  unfold bind at 1. unfold _get_child_nodes.
  destruct (resolve_children_ok _
              (add_events s [EvLog (DebugProcessingNode node)]) Hchildren)
    as [child_nodes ->].
  unfold bind at 1. unfold gets at 1. cbn [self_context add_events].
  unfold bind at 1.
  assert (default GStop (node_producer (self_context s)) = GStop) as Hstop.
  { by destruct Hnone as [-> | ->]. }
  rewrite default_reading, Hstop.
  cbn [reading for_generator]. unfold ret at 1.
  rewrite _run_node_post_process_run. cbn [self_context add_events].
  by rewrite add_events_app.
Qed.

End Traversal.

(** ** A topology without [cache_entities] *)

Section WithoutCacheEntities.
Context (env : Collab.t) (P : TopologyNode → Prop).
Hypothesis P_closed : closed_under_children env P.
Hypothesis P_stages :
  ∀ node stage, P node → stage ∈ stages node → cache_entities stage = false.

Lemma same_cache_emit ev : respects same_cache (emit ev).
Proof. apply respects_emit, same_cache_events. Qed.

Ltac same_cache_leaf :=
  solve [ apply same_cache_emit
        | apply respects_getattr_self; tc_solve
        | apply respects_gets; tc_solve
        | apply respects_ret; tc_solve
        | apply respects_raise; tc_solve ].

Ltac same_cache_bind :=
  apply respects_bind; [tc_solve | try same_cache_leaf | intros ?].

Lemma same_cache__process_stage stage node_entity child_nodes :
  cache_entities stage = false →
  respects same_cache (_process_stage env stage node_entity child_nodes).
Proof.
  intros Hno. unfold _process_stage, log. rewrite Hno. cbn [when].
  do 3 same_cache_bind.
  same_cache_bind; [|same_cache_leaf].
  apply respects_for_generator; [tc_solve | apply same_cache_context |].
  intros r. unfold sink_or_warn, log.
  apply respects_try_except; [tc_solve | |].
  - apply (respects_sink_request same_cache same_cache_events
             same_cache_context cache_of_type_same_cache).
  - intros e. same_cache_bind. same_cache_leaf.
Qed.

(** X16.  Without [cache_entities] the cache stays as it is.  If no stage
    of the nodes that are traversed, nor of the nodes below them, declares
    [cache_entities], then the traversal never writes a fingerprint: after
    it, however it ends, the cache answers every lookup as before.  In
    particular a cache that is empty stays empty, and no request of a stage
    with [use_cache] is ever held back as unchanged. *)
Theorem traversal_without_cache_entities_leaves_the_cache
    depth nodes s ty fqn :
  Forall P nodes →
  cache_lookup (process_nodes env depth nodes s).2 ty fqn
  = cache_lookup s ty fqn.
Proof.
  intros Hnodes. revert s ty fqn.
  change (respects same_cache (process_nodes env depth nodes)).
  revert Hnodes.
  revert nodes. induction depth as [|depth IH]; intros nodes Hnodes;
    [same_cache_leaf|].
  cbn [process_nodes]. apply respects_for_list; [tc_solve|].
  intros node Hnode.
  assert (P node) as HP by (by eapply Forall_forall in Hnodes).
  unfold log.
  do 2 same_cache_bind.
  apply respects_bind_ok;
    [tc_solve | apply respects_resolve_children; tc_solve|].
  intros s child_nodes s' Hrun.
  destruct (_get_child_nodes_run env P _ _ _ _ Hrun) as [_ Hchildren].
  specialize (Hchildren P_closed HP child_nodes eq_refl).
  same_cache_bind.
  same_cache_bind.
  2: { apply (respects__run_node_post_process same_cache
                same_cache_events same_cache_context). }
  apply respects_for_generator; [tc_solve | apply same_cache_context |].
  intros node_entity.
  unfold process_candidate, run_stages.
  same_cache_bind.
  { apply respects_for_list; [tc_solve|]. intros stage Hstage.
    apply same_cache__process_stage. by eapply P_stages. }
  same_cache_bind.
  { apply (respects_clear_stages same_cache same_cache_context). }
  by apply IH.
Qed.

End WithoutCacheEntities.

(** * The Unity Catalog source *)

Section UnitycatalogSource.
Import Unitycatalog.
Context (deps : Deps).

Lemma add_status_nil s : add_status s [] [] = s.
Proof. destruct s. unfold add_status. cbn. by rewrite !app_nil_r. Qed.

Lemma add_status_app s f1 a1 f2 a2 :
  add_status (add_status s f1 a1) f2 a2 = add_status s (f1 ++ f2) (a1 ++ a2).
Proof. unfold add_status. cbn. by rewrite !app_assoc. Qed.

(** ** Table constraints *)

(** X17.  [get_table_constraints] splits the constraints of the catalog by
    kind and keeps their order: every constraint with a primary key gives
    one [PRIMARY_KEY] constraint on its child columns, every constraint with
    a foreign key gives one foreign-key record; a constraint with both gives
    both and one with neither gives nothing. *)
Theorem constraints_are_split_by_kind constraints :
  get_table_constraints constraints
  = (omap (fun constraint =>
             (fun pk => {| constraintType := PRIMARY_KEY;
                           columns := pk_child_columns pk;
                           referredColumns := None |})
               <$> primary_key_constraint constraint) constraints,
     omap (fun constraint =>
             (fun fk => {| child_columns := fk_child_columns fk;
                           parent_columns := fk_parent_columns fk;
                           parent_table := fk_parent_table fk |})
               <$> foreign_key_constraint constraint) constraints).
Proof.
  unfold get_table_constraints.
  match goal with |- foldl ?F _ _ = (omap ?P _, omap ?Q _) =>
    assert (∀ cs p q, foldl F (p, q) cs = (p ++ omap P cs, q ++ omap Q cs))
      as Hloop
  end.
  { induction cs as [|c cs IH]; intros p q.
    - cbn. by rewrite !app_nil_r.
    - cbn [foldl]. rewrite IH. cbn [omap list_omap].
      destruct (primary_key_constraint c), (foreign_key_constraint c);
        cbn; by rewrite <- ?app_assoc. }
  apply (Hloop constraints [] []).
Qed.

Lemma referred_columns_filter referred_table parent_columns_ :
  referred_columns deps referred_table parent_columns_
  = List.filter (fun col_fqn => bool_decide (col_fqn ≠ ""))
      (omap (get_column_fqn deps referred_table) parent_columns_).
Proof.
  unfold referred_columns.
  match goal with |- foldl ?F _ _ = _ =>
    assert (∀ pcs acc,
              foldl F acc pcs
              = acc ++ List.filter (fun col_fqn => bool_decide (col_fqn ≠ ""))
                         (omap (get_column_fqn deps referred_table) pcs))
      as Hloop
  end.
  { induction pcs as [|pc pcs IH]; intros acc.
    - cbn. by rewrite app_nil_r.
    - cbn [foldl]. rewrite IH. cbn [omap list_omap].
      destruct (get_column_fqn deps referred_table pc) as [c|]; [|done].
      cbn [List.filter]. destruct (bool_decide (c ≠ "")); [|done].
      by rewrite <- app_assoc. }
  apply (Hloop parent_columns_ []).
Qed.

(** The table that a foreign key refers to, as the search gives it. *)
Lemma foreign_constraints_from_run {Y} acc foreign_columns s :
  Forall (fun column => ∃ parts,
            fqn_split deps (parent_table column) = Ok parts ∧
            3 ≤ length parts) foreign_columns →
  foreign_constraints_from (Y:=Y) deps acc foreign_columns s
  = (Ok (acc ++
         omap (fun column =>
                 (fun referred_table =>
                    {| constraintType := FOREIGN_KEY;
                       columns := child_columns column;
                       referredColumns :=
                         Some (referred_columns deps referred_table
                                 (parent_columns column)) |})
                   <$> match fqn_split deps (parent_table column) with
                       | Ok (database_name :: schema_name_ :: table_name_
                               :: _) =>
                           search_table_from_es deps table_name_ schema_name_
                             database_name (context_database_service s)
                       | _ => None
                       end) foreign_columns),
     s, []).
Proof.
  intros Hsplit. revert acc.
  induction Hsplit as [|column rest (parts & Hparts & Hlen) _ IH];
    intros acc.
  - cbn. by rewrite app_nil_r.
  - destruct parts as [|d [|sc [|t parts]]]; cbn in Hlen; try lia.
    cbn [foreign_constraints_from omap list_omap]. rewrite Hparts.
    unfold gbind at 1. unfold call at 1.
    unfold gbind at 1. unfold item at 1. cbn [lookup list_lookup].
    unfold greturn at 1.
    unfold gbind at 1. unfold item at 1. cbn [lookup list_lookup].
    unfold greturn at 1.
    unfold gbind at 1. unfold item at 1. cbn [lookup list_lookup].
    unfold greturn at 1.
    unfold gbind at 1. unfold ggets at 1.
    destruct (search_table_from_es deps t sc d (context_database_service s))
      as [referred_table|]; rewrite IH; cbn; by rewrite <- ?app_assoc.
Qed.

(** X18.  The foreign keys of a table whose parent table names split into
    at least three parts.  [_get_foreign_constraints] raises nothing and
    changes nothing; a foreign key whose parent table the search does not
    find is dropped without a trace, and every other gives one
    [FOREIGN_KEY] constraint on its child columns, in order.  The referred
    columns of that constraint are the fully-qualified names found for its
    parent columns, so they may be fewer than the parent columns. *)
Theorem foreign_keys_of_tables_not_found_are_dropped
    {Y} foreign_columns s :
  let referred column :=
    match fqn_split deps (parent_table column) with
    | Ok (database_name :: schema_name_ :: table_name_ :: _) =>
        search_table_from_es deps table_name_ schema_name_ database_name
          (context_database_service s)
    | _ => None
    end in
  Forall (fun column => ∃ parts,
            fqn_split deps (parent_table column) = Ok parts ∧
            3 ≤ length parts) foreign_columns →
  _get_foreign_constraints (Y:=Y) deps foreign_columns s
  = (Ok (omap (fun column =>
                 (fun referred_table =>
                    {| constraintType := FOREIGN_KEY;
                       columns := child_columns column;
                       referredColumns :=
                         Some (List.filter
                                 (fun col_fqn => bool_decide (col_fqn ≠ ""))
                                 (omap (get_column_fqn deps referred_table)
                                    (parent_columns column))) |})
                   <$> referred column) foreign_columns),
     s, []).
Proof.
  intros referred Hsplit. unfold _get_foreign_constraints.
  rewrite (foreign_constraints_from_run [] foreign_columns s Hsplit).
  cbn [app]. do 3 f_equal. clear Hsplit.
  induction foreign_columns as [|column rest IH]; [done|].
  cbn [omap list_omap]. rewrite IH. subst referred. cbn beta.
  destruct (fqn_split deps (parent_table column)) as [[|d [|sc [|t ?]]]|];
    try done.
  destruct (search_table_from_es deps t sc d (context_database_service s));
    [|done].
  cbn. by rewrite referred_columns_filter.
Qed.

Lemma foreign_constraints_from_pure {Y} acc foreign_columns s :
  ∃ r, foreign_constraints_from (Y:=Y) deps acc foreign_columns s
       = (r, s, []).
Proof.
  revert acc. induction foreign_columns as [|column rest IH]; intros acc.
  - by eexists.
  - cbn [foreign_constraints_from]. unfold gbind at 1. unfold call at 1.
    destruct (fqn_split deps (parent_table column)) as [parts|e];
      [|by eexists].
    unfold gbind, item, ggets, greturn, graise.
    destruct (parts !! 2); [|by eexists].
    destruct (parts !! 1); [|by eexists].
    destruct (parts !! 0); [|by eexists].
    destruct (search_table_from_es deps _ _ _ _) as [referred_table|].
    + match goal with
      | |- context [foreign_constraints_from deps ?a rest s] =>
          destruct (IH a) as [r ->]
      end.
      by eexists.
    + destruct (IH acc) as [r ->]. by eexists.
Qed.

Lemma foreign_constraints_from_fails {Y} acc before column after parts s :
  Forall (fun column => ∃ parts,
            fqn_split deps (parent_table column) = Ok parts ∧
            3 ≤ length parts) before →
  fqn_split deps (parent_table column) = Ok parts →
  length parts < 3 →
  foreign_constraints_from (Y:=Y) deps acc (before ++ column :: after) s
  = (Raise (OtherException "list index out of range"), s, []).
Proof.
  intros Hbefore Hparts Hlen. revert acc.
  induction Hbefore as [|b before (bparts & Hb & Hblen) _ IH]; intros acc.
  - cbn [app foreign_constraints_from]. rewrite Hparts.
    unfold gbind at 1. unfold call at 1.
    unfold gbind at 1. unfold item at 1.
    rewrite (lookup_ge_None_2 parts 2) by lia. done.
  - destruct bparts as [|d [|sc [|t bparts]]]; cbn in Hblen; try lia.
    cbn [app foreign_constraints_from]. rewrite Hb.
    unfold gbind at 1. unfold call at 1.
    unfold gbind at 1. unfold item at 1. cbn [lookup list_lookup].
    unfold greturn at 1.
    unfold gbind at 1. unfold item at 1. cbn [lookup list_lookup].
    unfold greturn at 1.
    unfold gbind at 1. unfold item at 1. cbn [lookup list_lookup].
    unfold greturn at 1.
    unfold gbind at 1. unfold ggets at 1.
    destruct (search_table_from_es deps t sc d (context_database_service s));
      by rewrite IH.
Qed.

Lemma update_table_constraints_ok {Y} primary foreign_columns found s :
  _get_foreign_constraints (Y:=Y) deps foreign_columns s
  = (Ok found, s, []) →
  update_table_constraints (Y:=Y) deps primary foreign_columns s
  = (Ok (primary ++ found), s, []).
Proof.
  intros Hrun. unfold update_table_constraints, gbind. rewrite Hrun.
  destruct found, primary; cbn; by rewrite ?app_nil_r.
Qed.

Lemma update_table_constraints_pure {Y} primary foreign_columns s :
  ∃ r, update_table_constraints (Y:=Y) deps primary foreign_columns s
       = (r, s, []).
Proof.
  unfold update_table_constraints, _get_foreign_constraints, gbind.
  destruct (foreign_constraints_from_pure (Y:=Y) [] foreign_columns s)
    as [[found|e] ->]; [|by eexists].
  destruct found, primary; by eexists.
Qed.

Lemma add_views_nil s : add_views s [] = s.
Proof. destruct s. unfold add_views. cbn. by rewrite app_nil_r. Qed.

(** ** Tables and views *)

(** X19.  One malformed parent table name costs the whole table.  If the
    name of the parent table of one foreign key of the table splits into
    fewer than three parts, [yield_table] gives no table request at all: it
    yields the failure record of an index error for the table and nothing
    else, and registers no view. *)
Theorem malformed_parent_table_costs_the_table
    table_name_ table_type table before column after parts s :
  tables_get deps (context_table_data s) = Ok table →
  (get_table_constraints (table_constraints table)).2
  = before ++ column :: after →
  Forall (fun column => ∃ parts,
            fqn_split deps (parent_table column) = Ok parts ∧
            3 ≤ length parts) before →
  fqn_split deps (parent_table column) = Ok parts →
  length parts < 3 →
  yield_table deps (table_name_, table_type) s
  = (Ok tt, s,
     [table_failure deps table_name_
        (OtherException "list index out of range")]).
Proof.
  intros Hget Hforeign Hbefore Hparts Hlen. unfold yield_table.
  unfold gbind at 1. unfold ggets at 1.
  unfold gbind at 1. unfold call at 1. rewrite Hget.
  unfold gbind at 1. unfold ggets at 1.
  unfold gbind at 1. unfold ggets at 1.
  unfold gtry. unfold gbind at 1.
  unfold update_table_constraints at 1. unfold gbind at 1.
  unfold _get_foreign_constraints. rewrite Hforeign.
  rewrite (foreign_constraints_from_fails [] before column after parts s
             Hbefore Hparts Hlen).
  done.
Qed.

(** X20.  What [yield_table] yields, in every case.  If the client cannot
    give the table the call raises and yields nothing.  Otherwise it
    returns, and it has yielded either one failure record, or the table
    request, or the table request followed by one failure record: at most
    one request, never after a failure, and always for the name and the type
    it was called with.  The status of the source is not touched, and the
    views grow by at most the view of this table, only after its request
    was yielded. *)
Theorem yield_table_yields_the_request_before_any_failure
    table_name_ table_type s :
  match tables_get deps (context_table_data s) with
  | Raise e => yield_table deps (table_name_, table_type) s = (Raise e, s, [])
  | Ok table =>
      ∃ views ys,
        yield_table deps (table_name_, table_type) s
        = (Ok tt, add_views s views, ys) ∧
        ((∃ e, ys = [table_failure deps table_name_ e] ∧ views = []) ∨
         (∃ request failures,
            ys = {| table_left := None; table_right := Some request |}
                   :: failures ∧
            name request = table_name_ ∧
            tableType request = table_type ∧
            (failures = [] ∨ ∃ e, failures = [table_failure deps table_name_ e]) ∧
            views
            = if bool_decide (table_type = View)
                 || truthy_str (table_view_definition table)
              then [table_view (context_database s)
                      (context_database_schema s) table_name_
                      (table_view_definition table)]
              else []))
  end.
Proof.
  destruct (tables_get deps (context_table_data s)) as [table|e] eqn:Hget.
  - unfold yield_table.
    unfold gbind at 1. unfold ggets at 1.
    unfold gbind at 1. unfold call at 1. rewrite Hget.
    unfold gbind at 1. unfold ggets at 1.
    unfold gbind at 1. unfold ggets at 1.
    unfold gtry. unfold gbind at 1.
    destruct (update_table_constraints_pure (Y:=TableEither)
                (get_table_constraints (table_constraints table)).1
                (get_table_constraints (table_constraints table)).2 s)
      as [[constraints|e] ->].
    2: { exists [], [table_failure deps table_name_ e].
         rewrite add_views_nil. split; [done|]. left. by exists e. }
    unfold gbind at 1. unfold ggets at 1.
    unfold gbind at 1. unfold ggets at 1.
    unfold gbind at 1. unfold call at 1.
    destruct (fqn_build deps DatabaseSchema _) as [schema_fqn|e].
    2: { exists [], [table_failure deps table_name_ e].
         rewrite add_views_nil. split; [done|]. left. by exists e. }
    unfold gbind at 1. unfold call at 1.
    destruct (get_columns deps (table_columns table)) as [cols|e].
    2: { exists [], [table_failure deps table_name_ e].
         rewrite add_views_nil. split; [done|]. left. by exists e. }
    unfold gbind at 1. unfold gyield at 1.
    unfold gbind at 1. cbn [fst snd].
    set (request := {| name := table_name_; tableType := table_type;
                       description := comment table;
                       request_columns := cols;
                       tableConstraints := constraints;
                       databaseSchema := schema_fqn |}).
    destruct (bool_decide (table_type = View)
              || truthy_str (table_view_definition table)) eqn:Hview.
    + unfold table_views_append at 1. unfold call.
      destruct (register_record deps request) as [[]|e].
      * eexists _, _. split; [done|]. right. exists request, [].
        repeat split; try done. by left.
      * cbn. eexists _, _. split; [done|]. right.
        exists request, [table_failure deps table_name_ e].
        repeat split; try done. right. by exists e.
    + unfold greturn at 1. unfold call.
      destruct (register_record deps request) as [[]|e].
      * exists [], [{| table_left := None; table_right := Some request |}].
        rewrite add_views_nil. split; [done|]. right. exists request, [].
        repeat split; try done. by left.
      * cbn. exists [], [{| table_left := None; table_right := Some request |};
                         table_failure deps table_name_ e].
        rewrite add_views_nil. split; [done|]. right.
        exists request, [table_failure deps table_name_ e].
        repeat split; try done. right. by exists e.
  - unfold yield_table.
    unfold gbind at 1. unfold ggets at 1.
    unfold gbind at 1. unfold call at 1. by rewrite Hget.
Qed.

(** X21.  The table request and what follows it.  When the parent table
    names of the foreign keys split into at least three parts, the name of
    the schema builds and the columns parse, [yield_table] yields the
    request for the table: its constraints are the primary keys of the
    catalog, in order, followed by the foreign keys whose parent table was
    found, in order.  After the yield, a table of type [View] or with a
    definition is added to the views with the text of a [CREATE VIEW]
    statement, and a failure of [register_record] is yielded as a failure
    record after the request.  For a view for which the catalog has no
    definition the text ends in [AS None]. *)
Theorem table_request_is_yielded_then_registered
    table_name_ table_type table schema_fqn cols s :
  let db_name_ := context_database s in
  let schema_name_ := context_database_schema s in
  let constraints := get_table_constraints (table_constraints table) in
  let referred column :=
    match fqn_split deps (parent_table column) with
    | Ok (database_name :: schema_name_ :: table_name_ :: _) =>
        search_table_from_es deps table_name_ schema_name_ database_name
          (context_database_service s)
    | _ => None
    end in
  let foreign_keys :=
    omap (fun column =>
            (fun referred_table =>
               {| constraintType := FOREIGN_KEY;
                  columns := child_columns column;
                  referredColumns :=
                    Some (referred_columns deps referred_table
                            (parent_columns column)) |})
              <$> referred column) constraints.2 in
  let request :=
    {| name := table_name_;
       tableType := table_type;
       description := comment table;
       request_columns := cols;
       tableConstraints := constraints.1 ++ foreign_keys;
       databaseSchema := schema_fqn |} in
  tables_get deps (context_table_data s) = Ok table →
  Forall (fun column => ∃ parts,
            fqn_split deps (parent_table column) = Ok parts ∧
            3 ≤ length parts) constraints.2 →
  fqn_build deps DatabaseSchema
    [context_database_service s; db_name_; schema_name_] = Ok schema_fqn →
  get_columns deps (table_columns table) = Ok cols →
  yield_table deps (table_name_, table_type) s
  = (Ok tt,
     add_views s
       (if bool_decide (table_type = View)
           || truthy_str (table_view_definition table)
        then [table_view db_name_ schema_name_ table_name_
                (table_view_definition table)]
        else []),
     {| table_left := None; table_right := Some request |}
       :: match register_record deps request with
          | Ok _ => []
          | Raise e => [table_failure deps table_name_ e]
          end) ∧
  view_definition (table_view db_name_ schema_name_ table_name_ None)
  = Some ("CREATE VIEW " +:+ dquote +:+ db_name_ +:+ dquote +:+ "."
            +:+ dquote +:+ schema_name_ +:+ dquote +:+ "."
            +:+ dquote +:+ table_name_ +:+ dquote +:+ " AS None").
Proof.
  intros db_name_ schema_name_ constraints referred foreign_keys request
    Hget Hsplit Hschema Hcols.
  split; [|done].
  unfold yield_table.
  unfold gbind at 1. unfold ggets at 1.
  unfold gbind at 1. unfold call at 1. rewrite Hget.
  unfold gbind at 1. unfold ggets at 1.
  unfold gbind at 1. unfold ggets at 1.
  unfold gtry. unfold gbind at 1.
  fold constraints.
  rewrite (update_table_constraints_ok (Y:=TableEither) constraints.1
             constraints.2 foreign_keys s).
  2: { unfold _get_foreign_constraints.
       by rewrite (foreign_constraints_from_run [] constraints.2 s Hsplit). }
  unfold gbind at 1. unfold ggets at 1.
  unfold gbind at 1. unfold ggets at 1.
  unfold gbind at 1. unfold call at 1.
  fold db_name_ schema_name_. rewrite Hschema.
  unfold gbind at 1. unfold call at 1. rewrite Hcols.
  unfold gbind at 1. unfold gyield at 1.
  unfold gbind at 1. cbn [fst snd]. fold request.
  destruct (bool_decide (table_type = View)
            || truthy_str (table_view_definition table)).
  - unfold table_views_append at 1. unfold call.
    by destruct (register_record deps request) as [[]|e].
  - unfold greturn at 1. unfold call. rewrite add_views_nil.
    by destruct (register_record deps request) as [[]|e].
Qed.

Lemma yield_table_views table_name_and_type s :
  ∃ views,
    context_table_views (yield_table deps table_name_and_type s).1.2
    = context_table_views s ++ views ∧
    Forall (fun view => is_Some (view_definition view)) views.
Proof.
  destruct table_name_and_type as [table_name_ table_type].
  unfold yield_table.
  unfold gbind at 1. unfold ggets at 1.
  unfold gbind at 1. unfold call at 1.
  destruct (tables_get deps (context_table_data s)) as [table|e].
  2: { exists []. split; [cbn; by rewrite app_nil_r | done]. }
  unfold gbind at 1. unfold ggets at 1.
  unfold gbind at 1. unfold ggets at 1.
  unfold gtry. unfold gbind at 1.
  destruct (update_table_constraints_pure (Y:=TableEither)
              (get_table_constraints (table_constraints table)).1
              (get_table_constraints (table_constraints table)).2 s)
    as [[constraints|e] ->].
  2: { exists []. split; [cbn; by rewrite app_nil_r | done]. }
  unfold gbind at 1. unfold ggets at 1.
  unfold gbind at 1. unfold ggets at 1.
  unfold gbind at 1. unfold call at 1.
  destruct (fqn_build deps DatabaseSchema _) as [schema_fqn|e].
  2: { exists []. split; [cbn; by rewrite app_nil_r | done]. }
  unfold gbind at 1. unfold call at 1.
  destruct (get_columns deps (table_columns table)) as [cols|e].
  2: { exists []. split; [cbn; by rewrite app_nil_r | done]. }
  unfold gbind at 1. unfold gyield at 1.
  unfold gbind at 1. cbn [fst snd].
  destruct (bool_decide (table_type = View)
            || truthy_str (table_view_definition table)).
  - unfold table_views_append at 1. unfold call.
    exists [table_view (context_database s) (context_database_schema s)
              table_name_ (table_view_definition table)].
    split; [|by repeat constructor].
    by destruct (register_record deps _) as [[]|e]; cbn.
  - unfold greturn at 1. unfold call.
    exists []. split; [|done].
    destruct (register_record deps _) as [[]|e]; cbn; by rewrite app_nil_r.
Qed.

Lemma gfor_yield_from (views : list TableView) s :
  (∀ view, view ∈ views →
     (get_view_lineage deps view (context_database_service s)).2 = None) →
  gfor views (fun view =>
    gbind (ggets context_database_service) (fun service_name =>
      yield_from (get_view_lineage deps view service_name))) s
  = (Ok tt, s,
     concat ((fun view =>
                (get_view_lineage deps view (context_database_service s)).1)
               <$> views)).
Proof.
  induction views as [|view views IH]; intros Hok; [done|].
  cbn [gfor]. unfold gbind at 1. unfold gbind at 1, ggets at 1.
  unfold yield_from at 1. rewrite (Hok view) by left. cbn [app].
  rewrite IH by (intros v Hv; apply Hok; by right). done.
Qed.

(** X22.  Every registered view gets its lineage.  [yield_table] only adds
    views that have a definition text, so if the views have one before a
    call they have one after it; and then the filter of
    [yield_view_lineage] drops none of them: as long as no lineage
    computation fails, the lineage of every view is yielded, in the order
    in which the views were registered. *)
Theorem every_registered_view_gets_its_lineage s :
  Forall (fun view => is_Some (view_definition view))
    (context_table_views s) →
  (∀ table_name_and_type,
     Forall (fun view => is_Some (view_definition view))
       (context_table_views (yield_table deps table_name_and_type s).1.2)) ∧
  ((∀ view, view ∈ context_table_views s →
      (get_view_lineage deps view (context_database_service s)).2 = None) →
   yield_view_lineage deps s
   = (Ok tt, s,
      concat ((fun view =>
                 (get_view_lineage deps view (context_database_service s)).1)
                <$> context_table_views s))).
Proof.
  intros Hdefined. split.
  - intros table_name_and_type.
    destruct (yield_table_views table_name_and_type s)
      as (views & -> & Hviews).
    apply Forall_app. by split.
  - intros Hok. unfold yield_view_lineage.
    unfold gbind at 1. unfold ggets at 1.
    assert (List.filter (fun v => bool_decide (view_definition v ≠ None))
              (context_table_views s) = context_table_views s) as ->.
    { clear Hok. induction Hdefined as [|view views [d Hd] _ IH]; [done|].
      cbn [List.filter].
      rewrite bool_decide_eq_true_2 by (by rewrite Hd). by rewrite IH. }
    by rewrite gfor_yield_from.
Qed.

(** ** Catalogs and schemas *)

Lemma omap_length_three (listed : string → Listed) reason failure names :
  length (yielded_names listed names)
  + length (filtered_records reason listed names)
  + length (failure_records failure listed names)
  = length names.
Proof.
  unfold yielded_names, filtered_records, failure_records.
  induction names as [|name names IH]; [done|].
  cbn [omap list_omap length]. destruct (listed name); cbn [length]; lia.
Qed.

Lemma database_name_run catalog_name service s :
  context_database_service s = service →
  (gtry
     (service_name <- ggets context_database_service ;;
      database_fqn <- call (fqn_build deps Database
                              [service_name; catalog_name]) ;;
      filtered <- call (filter_by_database deps
                          (if useFqnForFiltering deps
                           then database_fqn else catalog_name)) ;;
      if filtered : bool then
        status_filter database_fqn "Database (Catalog ID) Filtered Out"
      else gyield catalog_name)
     (fun exc =>
        status_failed (database_name_failure deps catalog_name exc)))%gen s
  = match database_listed deps service catalog_name with
    | Yielded => (Ok tt, s, [catalog_name])
    | Filtered fqn =>
        (Ok tt,
         add_status s [(fqn, "Database (Catalog ID) Filtered Out")] [], [])
    | Failed exc =>
        (Ok tt,
         add_status s [] [database_name_failure deps catalog_name exc], [])
    end.
Proof.
  intros Hservice. unfold gtry, gbind, ggets, call, database_listed.
  rewrite Hservice.
  destruct (fqn_build deps Database [service; catalog_name])
    as [database_fqn|e]; [|done].
  by destruct (filter_by_database deps _) as [[]|e].
Qed.

Lemma listed_database_names_run (names : list string) service s :
  let listed := database_listed deps service in
  context_database_service s = service →
  gfor names (fun catalog_name =>
    gtry
      (service_name <- ggets context_database_service ;;
       database_fqn <- call (fqn_build deps Database
                               [service_name; catalog_name]) ;;
       filtered <- call (filter_by_database deps
                           (if useFqnForFiltering deps
                            then database_fqn else catalog_name)) ;;
       if filtered : bool then
         status_filter database_fqn "Database (Catalog ID) Filtered Out"
       else gyield catalog_name)
      (fun exc =>
         status_failed (database_name_failure deps catalog_name exc)))%gen s
  = (Ok tt,
     add_status s
       (filtered_records "Database (Catalog ID) Filtered Out" listed names)
       (failure_records (database_name_failure deps) listed names),
     yielded_names listed names).
Proof.
  intros listed Hservice. revert s Hservice.
  unfold yielded_names, filtered_records, failure_records.
  induction names as [|catalog_name names IH]; intros s Hservice.
  - by rewrite add_status_nil.
  - cbn [gfor omap list_omap]. unfold gbind at 1.
    rewrite (database_name_run _ service) by done. subst listed.
    destruct (database_listed deps service catalog_name);
      rewrite IH by done; by rewrite ?add_status_app.
Qed.

(** X23.  With a catalog configured in the connection,
    [get_database_names] yields that catalog and nothing else, whatever the
    client lists: the database filter is not applied to the configured
    catalog, the status records nothing and nothing is raised.  Without,
    every catalog that the client gives is accounted for exactly once, in
    the order of the client: it is yielded when its fully-qualified name
    builds and the filter lets it pass; it is recorded as filtered, under
    its fully-qualified name, when the filter excludes it; it is recorded as
    failed, under its own name, when building the name or filtering raises.
    A failure of one catalog does not stop the others.  The method raises
    only if the listing of the client itself fails, which is outside the
    [try]: then what the client gave before is dealt with as above and the
    exception of the client goes to the caller. *)
Theorem every_catalog_is_yielded_filtered_or_failed s :
  let listed := database_listed deps (context_database_service s) in
  let names := (catalogs_list deps).1 in
  let listing :=
    (iter_end (catalogs_list deps).2,
     add_status s
       (filtered_records "Database (Catalog ID) Filtered Out" listed names)
       (failure_records (database_name_failure deps) listed names),
     yielded_names listed names) in
  get_database_names deps s
  = match service_connection_catalog deps with
    | Some catalog =>
        if bool_decide (catalog ≠ "") then (Ok tt, s, [catalog])
        else listing
    | None => listing
    end ∧
  length (yielded_names listed names)
  + length (filtered_records "Database (Catalog ID) Filtered Out"
              listed names)
  + length (failure_records (database_name_failure deps) listed names)
  = length names.
Proof.
  intros listed names listing. split; [|apply omap_length_three].
  assert (listed_database_names deps s = listing) as Hlisting.
  { unfold listed_database_names, gfor_iter, get_database_names_raw.
    unfold gbind at 1.
    rewrite (listed_database_names_run _ (context_database_service s))
      by done.
    subst listing names listed.
    destruct (catalogs_list deps).2; cbn [iter_end];
      unfold graise, greturn; by rewrite app_nil_r. }
  unfold get_database_names.
  destruct (service_connection_catalog deps) as [catalog|]; [|done].
  by destruct (bool_decide (catalog ≠ "")).
Qed.

Lemma schema_name_run schema service database s :
  context_database_service s = service →
  context_database s = database →
  (gtry
     (service_name <- ggets context_database_service ;;
      database_name <- ggets context_database ;;
      schema_fqn <- call (fqn_build deps DatabaseSchema
                            [service_name; database_name; schema]) ;;
      filtered <- call (filter_by_schema deps
                          (if useFqnForFiltering deps
                           then schema_fqn else schema)) ;;
      if filtered : bool then
        status_filter schema_fqn "Schema Filtered Out"
      else gyield schema)
     (fun exc => status_failed (schema_name_failure deps schema exc)))%gen s
  = match schema_listed deps service database schema with
    | Yielded => (Ok tt, s, [schema])
    | Filtered fqn =>
        (Ok tt, add_status s [(fqn, "Schema Filtered Out")] [], [])
    | Failed exc =>
        (Ok tt, add_status s [] [schema_name_failure deps schema exc], [])
    end.
Proof.
  intros Hservice Hdatabase.
  unfold gtry, gbind, ggets, call, schema_listed.
  rewrite Hservice, Hdatabase.
  destruct (fqn_build deps DatabaseSchema [service; database; schema])
    as [schema_fqn|e]; [|done].
  by destruct (filter_by_schema deps _) as [[]|e].
Qed.

Lemma listed_schema_names_run (names : list string) service database s :
  let listed := schema_listed deps service database in
  context_database_service s = service →
  context_database s = database →
  gfor names (fun schema =>
    gtry
      (service_name <- ggets context_database_service ;;
       database_name <- ggets context_database ;;
       schema_fqn <- call (fqn_build deps DatabaseSchema
                             [service_name; database_name; schema]) ;;
       filtered <- call (filter_by_schema deps
                           (if useFqnForFiltering deps
                            then schema_fqn else schema)) ;;
       if filtered : bool then
         status_filter schema_fqn "Schema Filtered Out"
       else gyield schema)
      (fun exc => status_failed (schema_name_failure deps schema exc)))%gen s
  = (Ok tt,
     add_status s
       (filtered_records "Schema Filtered Out" listed names)
       (failure_records (schema_name_failure deps) listed names),
     yielded_names listed names).
Proof.
  intros listed Hservice Hdatabase. revert s Hservice Hdatabase.
  unfold yielded_names, filtered_records, failure_records.
  induction names as [|schema names IH]; intros s Hservice Hdatabase.
  - by rewrite add_status_nil.
  - cbn [gfor omap list_omap]. unfold gbind at 1.
    rewrite (schema_name_run _ service database) by done. subst listed.
    destruct (schema_listed deps service database schema);
      rewrite IH by done; by rewrite ?add_status_app.
Qed.

(** X24.  Every schema that the client gives for the current catalog is
    accounted for exactly once by [get_database_schema_names], in the order
    of the client: it is yielded when its fully-qualified name builds and
    the schema filter lets it pass; it is recorded as filtered, under its
    fully-qualified name, when the filter excludes it; it is recorded as
    failed, under its own name, when building the name or filtering raises.
    A failure of one schema does not stop the others.  The method raises
    only if the listing of the client itself fails, which is outside the
    [try]: then what the client gave before is dealt with as above and the
    exception of the client goes to the caller. *)
Theorem every_schema_is_yielded_filtered_or_failed s :
  let listed :=
    schema_listed deps (context_database_service s) (context_database s) in
  let names := (schemas_list deps (context_database s)).1 in
  get_database_schema_names deps s
  = (iter_end (schemas_list deps (context_database s)).2,
     add_status s
       (filtered_records "Schema Filtered Out" listed names)
       (failure_records (schema_name_failure deps) listed names),
     yielded_names listed names) ∧
  length (yielded_names listed names)
  + length (filtered_records "Schema Filtered Out" listed names)
  + length (failure_records (schema_name_failure deps) listed names)
  = length names.
Proof.
  intros listed names. split; [|apply omap_length_three].
  unfold get_database_schema_names.
  unfold gbind at 1. unfold ggets at 1. unfold gfor_iter.
  unfold gbind at 1.
  rewrite (listed_schema_names_run _ (context_database_service s)
             (context_database s)) by done.
  subst names listed.
  destruct (schemas_list deps (context_database s)).2; cbn [iter_end];
    unfold graise, greturn; by rewrite app_nil_r.
Qed.

End UnitycatalogSource.

(** * More runs on the concrete source *)

Import Edge.

(** X2 at work: the fingerprint of [orders] is still cached after the
    traversal of the schema node. *)
Lemma traversal_never_drops_cached_fingerprint_witness :
  is_Some (cache_lookup cached_v1 Table "svc.orders") ∧
  is_Some
    (cache_lookup (process_nodes quiet 3 [schema_node] cached_v1).2 Table
       "svc.orders").
Proof.
  assert (is_Some (cache_lookup cached_v1 Table "svc.orders")) as Hcached.
  { eexists. vm_compute. reflexivity. }
  split; [exact Hcached|].
  exact (traversal_never_drops_cached_fingerprint quiet 3 [schema_node]
           cached_v1 Table "svc.orders" Hcached).
Defined.

(** X4 at work: the service is never acknowledged. *)
Lemma sink_request_raises_only_witness :
  (sink_request quiet service_stage (Some svc_request) fresh).1
  = Raise (MissingExpectedEntityAckException DatabaseService "svc") ∧
  must_return service_stage = true ∧
  context_bound service_stage = true.
Proof.
  split; [vm_compute; reflexivity|].
  destruct (sink_request_raises_only quiet service_stage
              (Some svc_request) fresh
              (MissingExpectedEntityAckException DatabaseService "svc")
              (sink_request quiet service_stage (Some svc_request) fresh).2
              ltac:(vm_compute; reflexivity))
    as [(Hno & _) | [(Hno & _) | (Hb & _)]]; [done | done |].
  split; [reflexivity | exact Hb].
Defined.


(** X5 at work: an [Either] with neither side on the nullable stage. *)
Lemma request_without_right_is_passed_on_witness :
  right empty_request = None ∧
  sink_request quiet query_stage (Some empty_request) (in_service ∅)
  = (Ok tt, add_events (in_service ∅) [EvYield empty_request]).
Proof.
  split; [reflexivity|].
  exact (request_without_right_is_passed_on quiet query_stage empty_request
           (in_service ∅) eq_refl).
Defined.

(** X6 at work: a lineage request on the table stage. *)
Lemma registered_variants_are_yielded_as_they_are_witness :
  context (table_stage false) = Some "table" ∧
  sink_request quiet (table_stage false) (Some lineage_request) cached_v1
  = (Ok tt,
     with_context (add_events cached_v1 [EvYield lineage_request])
       (<["table" := CName "orders_view"]> (self_context cached_v1))).
Proof.
  split; [reflexivity|].
  exact (registered_variants_are_yielded_as_they_are quiet
           (table_stage false) lineage_request
           (RAddLineage (entity "orders_view" "svc.orders_view" VNone)
              (entity "orders" "svc.orders" VNone))
           "table" cached_v1 eq_refl ltac:(discriminate) eq_refl).
Defined.

(** X7 at work: the service is never acknowledged, and the request after
    it is not asked for. *)
Lemma other_exceptions_end_the_stage_witness :
  is_ValueError (MissingExpectedEntityAckException DatabaseService "svc")
  = false ∧
  (_process_stage with_service_requests service_stage (VStr "svc")
     [table_node] fresh).1
  = Raise (MissingExpectedEntityAckException DatabaseService "svc") ∧
  yields_of
    (trace (_process_stage with_service_requests service_stage (VStr "svc")
              [table_node] fresh).2)
  = [request_of (<["sourceHash" := VStr "H:v1"]> svc)] ∧
  trace (_process_stage with_service_requests service_stage (VStr "svc")
           [table_node] fresh).2
  = [EvLog (DebugProcessingStage service_stage);
     EvGetByName DatabaseService "svc";
     EvSourceHash svc;
     EvYield (request_of (<["sourceHash" := VStr "H:v1"]> svc));
     EvGetByName DatabaseService "svc";
     EvGetByName DatabaseService "svc";
     EvGetByName DatabaseService "svc"].
Proof.
  pose proof (other_exceptions_end_the_stage with_service_requests
                service_stage
                (fun _ _ =>
                   Some (reading (GYield (Some svc_request) svc_then_orders)))
                (VStr "svc") [table_node] (Some svc_request)
                (fun ctx => reading (svc_then_orders ctx)) fresh
                (add_events fresh [EvLog (DebugProcessingStage service_stage)])
                (MissingExpectedEntityAckException DatabaseService "svc")
                (sink_request with_service_requests service_stage
                   (Some svc_request)
                   (add_events fresh
                      [EvLog (DebugProcessingStage service_stage)])).2
                eq_refl ltac:(apply reaches_here)
                ltac:(vm_compute; reflexivity) eq_refl) as Hrun.
  split; [reflexivity|]. rewrite Hrun.
  split; [reflexivity|]. split; vm_compute; reflexivity.
Defined.

(** X8 at work: the database stage must not overwrite and the remote store
    has the database, but force-overwrite is on. *)
Lemma stage_without_cache_writes_unless_found_witness :
  overwrite database_stage = false ∧
  _is_force_overwrite_enabled forced = true ∧
  is_Some (metadata_get_by_name forced [] Database "svc.sales") ∧
  yields_of
    (trace (sink_request forced database_stage (Some sales_request)
              (in_service ∅)).2)
  = [request_of (<["sourceHash" := VStr "H:v1"]> sales)] ∧
  remote_calls_of
    (trace (sink_request forced database_stage (Some sales_request)
              (in_service ∅)).2) = [].
Proof.
  pose proof (stage_without_cache_writes_unless_found forced database_stage
                sales_request sales (VStr "sales") (in_service ∅)
                ltac:(vm_compute; reflexivity)
                ltac:(vm_compute; reflexivity)
                ltac:(vm_compute; reflexivity)
                ltac:(vm_compute; reflexivity)
                ltac:(vm_compute; discriminate)) as (Hy & _ & Hr).
  split; [reflexivity|]. split; [reflexivity|].
  split; [by eexists|].
  split; [exact Hy|].
  apply Hr; reflexivity.
Defined.

(** X9 at work: below the service there is the table node, whose stage uses
    the cache. *)
Lemma cache_is_filled_by_one_listing_per_caching_child_stage_witness :
  context service_stage = Some "database_service" ∧
  self_context (in_service ∅) !! "database_service" = Some (CName "svc") ∧
  caching_child_stages [table_node] = [table_stage false] ∧
  ∃ s',
    _init_cache_dict (listing_of listed_tables) service_stage [table_node]
      (in_service ∅) = (Ok tt, s') ∧
    trace s' = [EvListAll Table ("service", "svc")].
Proof.
  assert (∀ tr ty params,
            Forall listed_entity
              (metadata_list_all_entities (listing_of listed_tables) tr ty
                 params)) as Hlisted.
  { intros tr ty params.
    repeat constructor; eexists; vm_compute; reflexivity. }
  destruct (cache_is_filled_by_one_listing_per_caching_child_stage
              (listing_of listed_tables) service_stage [table_node]
              "database_service" (CName "svc") (in_service ∅)
              eq_refl eq_refl Hlisted) as (s' & Hrun & _ & Htrace).
  split; [reflexivity|]. split; [reflexivity|]. split; [reflexivity|].
  exists s'. split; [exact Hrun|]. exact Htrace.
Defined.

(** X10 at work: the query stage is bound to no slot; the slot of the
    service stage is not set before the service has been dispatched. *)
Lemma cache_filling_fails_before_any_listing_witness :
  context query_stage = None ∧
  _init_cache_dict quiet query_stage [table_node] (in_service ∅)
  = (Raise (KeyError None), in_service ∅) ∧
  self_context fresh !! "database_service" = None ∧
  _init_cache_dict quiet service_stage [table_node] fresh
  = (Raise (OtherException "entity_name is None"), fresh).
Proof.
  split; [reflexivity|]. split.
  { exact (cache_filling_fails_before_any_listing quiet query_stage
             [table_node] (in_service ∅)). }
  split; [reflexivity|].
  exact (cache_filling_fails_before_any_listing quiet service_stage
           [table_node] fresh
           (OtherException "entity_name is None") eq_refl).
Defined.

(** X11 at work: the tables of the service are listed twice. *)
Lemma listing_twice_is_listing_once_witness :
  Forall listed_entity listed_tables ∧
  ∀ ty fqn,
    cache_lookup
      (get_fqn_source_hash_dict (listing_of listed_tables) DatabaseSchema
         Table "svc.sales"
         (get_fqn_source_hash_dict (listing_of listed_tables) DatabaseSchema
            Table "svc.sales" (in_service ∅)).2).2 ty fqn
    = cache_lookup
        (get_fqn_source_hash_dict (listing_of listed_tables) DatabaseSchema
           Table "svc.sales" (in_service ∅)).2 ty fqn.
Proof.
  assert (Forall listed_entity listed_tables) as Hlisted.
  { repeat constructor; eexists; vm_compute; reflexivity. }
  split; [exact Hlisted|].
  exact (listing_twice_is_listing_once (listing_of listed_tables)
           DatabaseSchema Table "svc.sales" (in_service ∅) Hlisted eq_refl).
Defined.

(** X12 at work: the listing has [orders] twice. *)
Lemma last_listed_fingerprint_wins_witness :
  Forall listed_entity relisted_tables ∧
  cache_lookup
    (get_fqn_source_hash_dict (listing_of relisted_tables) DatabaseSchema
       Table "svc.sales" (in_service ∅)).2 Table "svc.orders"
  = Some (VStr "H:v1").
Proof.
  assert (Forall listed_entity relisted_tables) as Hlisted.
  { repeat constructor; eexists; vm_compute; reflexivity. }
  split; [exact Hlisted|].
  destruct (last_listed_fingerprint_wins (listing_of relisted_tables)
              DatabaseSchema Table "svc.sales" (in_service ∅)
              [entity "orders" "svc.orders" (VStr "H:v0")]
              (entity "orders" "svc.orders" (VStr "H:v1")) []
              (VStr "H:v1") (VStr "svc.orders")
              eq_refl Hlisted ltac:(vm_compute; reflexivity) eq_refl
              ltac:(vm_compute; reflexivity)
              ltac:(intros e' h' Hin; by apply elem_of_nil in Hin))
    as [_ Hlookup].
  exact Hlookup.
Defined.

(** X14 at work: the topology has no node [column]. *)
Lemma unknown_child_stops_the_traversal_witness :
  get_topology_node quiet "column" = Raise (ValueError "column") ∧
  process_nodes quiet 3 [broken_node; schema_node] (in_service ∅)
  = (Raise (ValueError "column"),
     add_events (in_service ∅) [EvLog (DebugProcessingNode broken_node)]).
Proof.
  split; [reflexivity|].
  apply (unknown_child_stops_the_traversal quiet 2 broken_node [schema_node]
           (fun _ => Some (gen_of_list [VStr "orders"]))
           ["table"] "column" [] (ValueError "column") (in_service ∅));
    [reflexivity | reflexivity | | reflexivity].
  repeat constructor. by exists table_node.
Defined.

(** X15 at work: the producer of stored procedures is not implemented. *)
Lemma node_without_candidates_runs_only_its_hooks_witness :
  producers with_stored_procedures (producer procedure_node)
  = Some (fun _ => None) ∧
  process_nodes with_stored_procedures 3 [procedure_node] (in_service ∅)
  = (Ok tt,
     add_events (in_service ∅)
       [EvLog (DebugProcessingNode procedure_node);
        EvLog (DebugPostProcessingNode procedure_node);
        EvYield lineage_request]).
Proof.
  split; [reflexivity|].
  rewrite (node_without_candidates_runs_only_its_hooks
             with_stored_procedures 2 procedure_node [] (fun _ => None)
             (in_service ∅) eq_refl ltac:(constructor) ltac:(by left)).
  reflexivity.
Defined.

(** X16 at work: neither the schema stage nor the table stage declares
    [cache_entities]. *)
Lemma traversal_without_cache_entities_leaves_the_cache_witness :
  Forall (fun node => node = schema_node ∨ node = table_node) [schema_node] ∧
  ∀ ty fqn,
    cache_lookup (process_nodes quiet 3 [schema_node] cached_v1).2 ty fqn
    = cache_lookup cached_v1 ty fqn.
Proof.
  assert (Forall (fun node => node = schema_node ∨ node = table_node)
            [schema_node]) as Hnodes.
  { repeat constructor. }
  split; [exact Hnodes|]. intros ty fqn.
  apply (traversal_without_cache_entities_leaves_the_cache quiet
           (fun node => node = schema_node ∨ node = table_node)).
  - intros node name child [-> | ->] Hname Hchild.
    + apply list_elem_of_singleton in Hname as ->.
      right. by injection Hchild as <-.
    + by apply elem_of_nil in Hname.
  - intros node stage [-> | ->] Hstage;
      apply list_elem_of_singleton in Hstage as ->; reflexivity.
  - exact Hnodes.
Defined.

(** ** Runs on the small Unity Catalog *)

Section UnityCatalogRuns.
Import Unitycatalog UnityDemo.

(** X18 at work: the foreign keys of [orders] refer to [customers], which
    the search finds with one of the two parent columns, and to [items],
    which it does not find. *)
Lemma foreign_keys_of_tables_not_found_are_dropped_witness :
  _get_foreign_constraints (Y:=TableEither) (demo_deps None)
    (get_table_constraints orders_constraints).2 (at_table "main.sales.orders")
  = (Ok [{| constraintType := FOREIGN_KEY;
            columns := ["customer_id"; "region"];
            referredColumns := Some ["svc.main.sales.customers.id"] |}],
     at_table "main.sales.orders", []).
Proof.
  rewrite (foreign_keys_of_tables_not_found_are_dropped (Y:=TableEither)
             (demo_deps None) (get_table_constraints orders_constraints).2
             (at_table "main.sales.orders")).
  - reflexivity.
  - repeat constructor; eexists; (split; [reflexivity|]); cbn; lia.
Defined.

(** X19 at work: the view [recent] refers to a table named [orders]. *)
Lemma malformed_parent_table_costs_the_table_witness :
  fqn_split (demo_deps None) "orders" = Ok ["orders"] ∧
  yield_table (demo_deps None) ("recent", View) (at_table "main.sales.recent")
  = (Ok tt, at_table "main.sales.recent",
     [{| table_left :=
           Some {| ste_name := "recent";
                   ste_error :=
                     "Unexpected exception to yield table [recent]: "
                       +:+ "list index out of range";
                   ste_stackTrace := "Traceback (most recent call last)" |};
         table_right := None |}]).
Proof.
  split; [reflexivity|].
  exact (malformed_parent_table_costs_the_table (demo_deps None) "recent"
           View recent_info []
           {| child_columns := ["order_id"];
              parent_columns := ["id"];
              parent_table := "orders" |} [] ["orders"]
           (at_table "main.sales.recent")
           eq_refl eq_refl ltac:(constructor) eq_refl ltac:(cbn; lia)).
Defined.

(** X21 at work: [orders] comes as a view for which the catalog has no
    definition. *)
Lemma table_request_is_yielded_then_registered_witness :
  tables_get (demo_deps None) "main.sales.orders" = Ok orders_info ∧
  table_view_definition orders_info = None ∧
  yield_table (demo_deps None) ("orders", View) (at_table "main.sales.orders")
  = (Ok tt,
     add_views (at_table "main.sales.orders")
       [{| table_name := "orders";
           schema_name := "sales";
           db_name := "main";
           view_definition :=
             Some ("CREATE VIEW " +:+ dquote +:+ "main" +:+ dquote +:+ "."
                     +:+ dquote +:+ "sales" +:+ dquote +:+ "."
                     +:+ dquote +:+ "orders" +:+ dquote +:+ " AS None") |}],
     [{| table_left := None;
         table_right :=
           Some {| name := "orders";
                   tableType := View;
                   description := Some "orders of the shop";
                   request_columns := [];
                   tableConstraints :=
                     [{| constraintType := PRIMARY_KEY;
                         columns := ["id"];
                         referredColumns := None |};
                      {| constraintType := FOREIGN_KEY;
                         columns := ["customer_id"; "region"];
                         referredColumns :=
                           Some ["svc.main.sales.customers.id"] |}];
                   databaseSchema := "svc.main.sales" |} |}]).
Proof.
  split; [reflexivity|]. split; [reflexivity|].
  destruct (table_request_is_yielded_then_registered (demo_deps None)
              "orders" View orders_info "svc.main.sales" []
              (at_table "main.sales.orders")) as [Hrun _].
  - reflexivity.
  - repeat constructor; eexists; (split; [reflexivity|]); cbn; lia.
  - reflexivity.
  - reflexivity.
  - rewrite Hrun. reflexivity.
Defined.

(** X22 at work: the view of [orders] is registered, and gets its
    lineage. *)
Lemma every_registered_view_gets_its_lineage_witness :
  Forall (fun view => is_Some (view_definition view))
    (context_table_views
       (add_views (at_table "main.sales.orders")
          [table_view "main" "sales" "orders" None])) ∧
  yield_view_lineage (demo_deps None)
    (add_views (at_table "main.sales.orders")
       [table_view "main" "sales" "orders" None])
  = (Ok tt,
     add_views (at_table "main.sales.orders")
       [table_view "main" "sales" "orders" None],
     [recent_lineage]).
Proof.
  assert (Forall (fun view => is_Some (view_definition view))
            (context_table_views
               (add_views (at_table "main.sales.orders")
                  [table_view "main" "sales" "orders" None]))) as Hdefined.
  { repeat constructor. by eexists. }
  split; [exact Hdefined|].
  destruct (every_registered_view_gets_its_lineage (demo_deps None) _
              Hdefined) as [_ Hlineage].
  rewrite Hlineage; [reflexivity|]. intros view _. reflexivity.
Defined.

(** X23 at work: of the three catalogs of the client, [main] is yielded,
    [system] is filtered out and the name of [broken] does not build. *)
Lemma every_catalog_is_yielded_filtered_or_failed_witness :
  get_database_names (demo_deps None) (at_table "")
  = (Ok tt,
     add_status (at_table "")
       [("svc.system", "Database (Catalog ID) Filtered Out")]
       [{| ste_name := "broken";
           ste_error :=
             "Unexpected exception to get database name [broken]: "
               +:+ "invalid name";
           ste_stackTrace := "Traceback (most recent call last)" |}],
     ["main"]) ∧
  get_database_names (demo_deps (Some "system")) (at_table "")
  = (Ok tt, at_table "", ["system"]).
Proof.
  split.
  - destruct (every_catalog_is_yielded_filtered_or_failed (demo_deps None)
                (at_table "")) as [Hrun _].
    rewrite Hrun. reflexivity.
  - destruct (every_catalog_is_yielded_filtered_or_failed
                (demo_deps (Some "system")) (at_table "")) as [Hrun _].
    rewrite Hrun. reflexivity.
Defined.

(** X24 at work: the schemas of [main], of which one is filtered out, and
    those of [offline], where the client fails after the first schema. *)
Lemma every_schema_is_yielded_filtered_or_failed_witness :
  get_database_schema_names (demo_deps None) (at_table "")
  = (Ok tt,
     add_status (at_table "")
       [("svc.main.information_schema", "Schema Filtered Out")] [],
     ["sales"]) ∧
  get_database_schema_names (demo_deps None) in_offline_catalog
  = (Raise (OtherException "connection lost"), in_offline_catalog,
     ["sales"]).
Proof.
  split.
  - destruct (every_schema_is_yielded_filtered_or_failed (demo_deps None)
                (at_table "")) as [Hrun _].
    rewrite Hrun. reflexivity.
  - destruct (every_schema_is_yielded_filtered_or_failed (demo_deps None)
                in_offline_catalog) as [Hrun _].
    rewrite Hrun. reflexivity.
Defined.

End UnityCatalogRuns.
